(** * agentic_rag_go: admission gate, ingestion, retrieval and chat handlers

    A shallow embedding of the request path of the service:

    - [internal/api/middleware.go]: the API-key check and the fixed-window
      rate limiter ([auth], [rateLimit], [allow], [cleanup]);
    - [internal/api/server.go]: the route table and the three handlers
      ([registerRoutes], [handleUploadText], [handleSearch], [handleChat]);
    - [internal/embedding/service.go]: [EmbedQuery], [EmbedDocuments];
    - [internal/vectorstore/qdrant/client.go]: [Upsert], [HybridSearch];
    - [internal/agent/factory.go]: [Retrieve], [NewRunner].

    Go's [int] and [time.Duration] are 64-bit integers, written here as [Z]
    with the wrap-around spelled out.  Go maps are [gmap]s.  Everything the
    service reaches over the network or through a third-party package (the
    text splitter, the embedding model, the vector index, the session store,
    the agent runner, the UUID source, the JSON decoder) is a field of the
    record [Collab]; each such call is appended to a log carried by the
    state, and the collaborator sees the log so far, so its answers may
    depend on everything that happened before.  Output to the process log
    ([log.Printf]) is not part of the model. *)

From stdpp Require Import gmap strings list fin_maps pretty.
From Stdlib Require Import ZArith Lia.

Local Open Scope Z_scope.
Local Open Scope string_scope.
Local Open Scope list_scope.

(** ** Machine integers and time *)

Definition minInt64 : Z := - 2 ^ 63.
Definition maxInt64 : Z := 2 ^ 63 - 1.

(** Two's-complement wrap-around of Go's [int] / [int64] arithmetic. *)
Definition wrap64 (z : Z) : Z := (z + 2 ^ 63) mod 2 ^ 64 - 2 ^ 63.

Definition inInt64 (z : Z) : Prop := minInt64 <= z <= maxInt64.

(** [time.Time.Sub]: the difference of two monotonic clock readings
    (nanoseconds), saturated to the range of [time.Duration]. *)
Definition Sub (t u : Z) : Z := Z.max minInt64 (Z.min maxInt64 (t - u)).

(** [time.Since t], when the clock reads [now]. *)
Definition Since (now t : Z) : Z := Sub now t.

(** ** Errors *)

(** A Go [(T, error)] result; an error is its message, [err.Error()]. *)
Inductive Result (A : Type) : Type :=
| Ok (a : A)
| Err (msg : string).
Arguments Ok {A} a.
Arguments Err {A} msg.

(** A [float32], kept as its bit pattern: the service never computes on
    embeddings or scores, it only passes them on. *)
Inductive float32 : Type := F32 (bits : Z).

(** ** The rate limiter ([middleware.go]) *)

Record clientLimiter : Type := mkClientLimiter {
  tokens : Z;
  last : Z
}.

Record rateLimiter : Type := mkRateLimiter {
  clients : gmap string clientLimiter;
  rate : Z;
  window : Z
}.

Record middleware : Type := mkMiddleware {
  apiKey : string;
  limiter : rateLimiter
}.

Definition newMiddleware (key : string) (rateLimit rateWindow : Z) : middleware :=
  {| apiKey := key;
     limiter := {| clients := ∅; rate := rateLimit; window := rateWindow |} |}.

Definition setClients (rl : rateLimiter) (m : gmap string clientLimiter) : rateLimiter :=
  {| clients := m; rate := rate rl; window := window rl |}.

(** [rateLimiter.allow].  The whole body runs under [rl.mu], so a call is one
    atomic step on the limiter.  [clk.1] is the clock reading of the first
    [time.Now()] / [time.Since] the call performs, [clk.2] the reading of the
    second [time.Now()], which only the window-reset branch performs. *)
Definition allow (rl : rateLimiter) (ip : string) (clk : Z * Z) : bool * rateLimiter :=
  match clients rl !! ip with
  | None =>
      let cl := {| tokens := wrap64 (rate rl - 1); last := clk.1 |} in
      (true, setClients rl (<[ip := cl]> (clients rl)))
  | Some cl =>
      let elapsed := Since clk.1 (last cl) in
      if bool_decide (window rl <= elapsed) then
        let cl' := {| tokens := wrap64 (rate rl - 1); last := clk.2 |} in
        (true, setClients rl (<[ip := cl']> (clients rl)))
      else if bool_decide (0 < tokens cl) then
        let cl' := {| tokens := wrap64 (tokens cl - 1); last := last cl |} in
        (true, setClients rl (<[ip := cl']> (clients rl)))
      else (false, rl)
  end.

(** The test of the sweep on one record: [time.Since(cl.last) > rl.window*5],
    the product taken in [int64]. *)
Definition stale (rl : rateLimiter) (now : Z) (cl : clientLimiter) : bool :=
  bool_decide (wrap64 (window rl * 5) < Since now (last cl)).

(** [rateLimiter.cleanup]: a range loop over the map that deletes the entry
    it is visiting when that entry is stale.  [time.Since] is evaluated once
    per visited record; [nowAt ip] is the clock reading at the visit of
    [ip]'s record. *)
Definition cleanup (rl : rateLimiter) (nowAt : string → Z) : rateLimiter :=
  setClients rl
    (map_fold
       (λ ip cl acc, if stale rl (nowAt ip) cl then delete ip acc else acc)
       (clients rl) (clients rl)).

(** A run of [allow] calls, one per clock-reading pair, all from [ip]:
    the answers in order and the limiter afterwards. *)
Fixpoint allowMany (rl : rateLimiter) (ip : string) (clks : list (Z * Z))
  : list bool * rateLimiter :=
  match clks with
  | [] => ([], rl)
  | clk :: rest =>
      let '(b, rl1) := allow rl ip clk in
      let '(bs, rl2) := allowMany rl1 ip rest in
      (b :: bs, rl2)
  end.

(** ** Strings *)

(** The characters that cannot be written inside a literal. *)
Definition dq : string := String (Ascii.ascii_of_nat 34) EmptyString.
Definition nl : string := String (Ascii.ascii_of_nat 10) EmptyString.

(** [fmt.Sprintf("%d", i)]. *)
Definition fmtInt (i : Z) : string := pretty i.

(** ** HTTP requests and responses ([net/http]) *)

Record Request : Type := mkRequest {
  Method : string;
  Path : string;
  RemoteAddr : string;
  (** header values by canonical header name *)
  Header : gmap string (list string);
  Body : string;
  (** the clock readings the rate limiter takes while this request is
      served, see [allow] *)
  Clock : Z * Z
}.

(** [http.Header.Get]: the first value stored under the name, or the empty
    string.  [key] is the canonical form of the name. *)
Definition HeaderGet (h : gmap string (list string)) (key : string) : string :=
  match h !! key with
  | Some (v :: _) => v
  | _ => EmptyString
  end.

(** The canonical form of [X-API-Key] under which the server stores it. *)
Definition xApiKey : string := "X-Api-Key".

Record UploadTextResponse : Type := mkUploadTextResponse {
  up_Message : string;
  up_ChunkCount : Z;
  up_ChunkIDs : list string
}.

Record SearchResultItem : Type := mkSearchResultItem {
  item_ID : string;
  item_Content : string;
  item_Score : float32;
  item_Metadata : gmap string string
}.

Record ChatResponse : Type := mkChatResponse {
  chat_Response : string;
  chat_SessionID : string
}.

(** What a handler writes to the response body: raw text, or the Go value it
    hands to [json.NewEncoder(w).Encode]. *)
Inductive Payload : Type :=
| PText (s : string)
| PMap (m : gmap string string)
| PUpload (r : UploadTextResponse)
| PSearch (results : list SearchResultItem)
| PChat (r : ChatResponse).

(** An [http.ResponseWriter], as [httptest.ResponseRecorder] records it. *)
Record ResponseWriter : Type := mkResponseWriter {
  Code : Z;
  wroteHeader : bool;
  HeaderMap : gmap string string;
  Written : list Payload
}.

Definition NewRecorder : ResponseWriter :=
  {| Code := 200; wroteHeader := false; HeaderMap := ∅; Written := [] |}.

Definition HeaderSet (w : ResponseWriter) (k v : string) : ResponseWriter :=
  {| Code := Code w; wroteHeader := wroteHeader w;
     HeaderMap := <[k := v]> (HeaderMap w); Written := Written w |}.

Definition HeaderDel (w : ResponseWriter) (k : string) : ResponseWriter :=
  {| Code := Code w; wroteHeader := wroteHeader w;
     HeaderMap := delete k (HeaderMap w); Written := Written w |}.

(** Only the first [WriteHeader] takes effect. *)
Definition WriteHeader (w : ResponseWriter) (status : Z) : ResponseWriter :=
  if wroteHeader w then w
  else {| Code := status; wroteHeader := true;
          HeaderMap := HeaderMap w; Written := Written w |}.

(** A write before any [WriteHeader] sends status 200. *)
Definition Write (w : ResponseWriter) (p : Payload) : ResponseWriter :=
  let w1 := WriteHeader w 200 in
  {| Code := Code w1; wroteHeader := true;
     HeaderMap := HeaderMap w1; Written := app (Written w1) [p] |}.

(** [http.Error]. *)
Definition httpError (w : ResponseWriter) (msg : string) (status : Z) : ResponseWriter :=
  let w1 := HeaderDel w "Content-Length" in
  let w2 := HeaderSet w1 "Content-Type" "text/plain; charset=utf-8" in
  let w3 := HeaderSet w2 "X-Content-Type-Options" "nosniff" in
  Write (WriteHeader w3 status) (PText (msg +:+ nl)).

Definition StatusOK : Z := 200.
Definition StatusBadRequest : Z := 400.
Definition StatusUnauthorized : Z := 401.
Definition StatusNotFound : Z := 404.
Definition StatusMethodNotAllowed : Z := 405.
Definition StatusTooManyRequests : Z := 429.
Definition StatusInternalServerError : Z := 500.

(** ** Request and record types of the service *)

(** [api.UploadTextRequest], [api.SearchRequest], [api.ChatRequest]. *)
Record UploadTextRequest : Type := mkUploadTextRequest {
  req_Text : string;
  req_Metadata : gmap string string;
  req_Source : string
}.

Record SearchRequest : Type := mkSearchRequest {
  req_Query : string;
  req_TopK : Z
}.

Record ChatRequest : Type := mkChatRequest {
  req_Message : string;
  req_SessionID : string;
  req_UserID : string
}.

(** [qdrant.SparseVector], [qdrant.Document], [qdrant.SearchResult]. *)
Record SparseVector : Type := mkSparseVector {
  Indices : list Z;
  Values : list float32
}.

Record Document : Type := mkDocument {
  doc_ID : string;
  doc_Content : string;
  doc_Metadata : gmap string string;
  doc_Dense : list float32;
  doc_Sparse : option SparseVector
}.

Record SearchResult : Type := mkSearchResult {
  res_ID : string;
  res_Score : float32;
  res_Content : string;
  res_Payload : gmap string string
}.

(** The protobuf messages exchanged with the index ([pb] in [client.go]). *)
Inductive pbValue : Type :=
| StringValue (s : string)
| IntegerValue (n : Z)
| BoolValue (b : bool)
| NullValue.

(** [pb.Value.GetStringValue]: the string, or the empty string for every
    other kind of value. *)
Definition GetStringValue (v : pbValue) : string :=
  match v with
  | StringValue s => s
  | _ => EmptyString
  end.

Record pbVector : Type := mkVector {
  vec_Data : list float32;
  vec_Indices : option (list Z)
}.

Record PointStruct : Type := mkPointStruct {
  pt_Id : string;
  pt_Vectors : gmap string pbVector;
  pt_Payload : gmap string pbValue
}.

Inductive PointId : Type :=
| PointId_Num (n : Z)
| PointId_Uuid (u : string).

(** [pb.PointId.GetUuid], also defined on the nil pointer. *)
Definition GetUuid (id : option PointId) : string :=
  match id with
  | Some (PointId_Uuid u) => u
  | _ => EmptyString
  end.

Record ScoredPoint : Type := mkScoredPoint {
  sp_Id : option PointId;
  sp_Payload : gmap string pbValue;
  sp_Score : float32
}.

Inductive VectorInput : Type :=
| VectorInput_Dense (data : list float32)
| VectorInput_Sparse (indices : list Z) (values : list float32).

Inductive Fusion : Type := Fusion_RRF | Fusion_DBSF.

Inductive pbQuery : Type :=
| Query_Nearest (v : VectorInput)
| Query_Fusion (f : Fusion).

Record PrefetchQuery : Type := mkPrefetchQuery {
  pf_Query : pbQuery;
  pf_Using : string;
  pf_Limit : Z
}.

Record QueryPoints : Type := mkQueryPoints {
  qp_CollectionName : string;
  qp_Prefetch : list PrefetchQuery;
  qp_Query : pbQuery;
  qp_Limit : Z;
  qp_WithPayload : bool
}.

(** [agent.RetrievedContext]. *)
Record RetrievedContext : Type := mkRetrievedContext {
  rc_Documents : list SearchResult;
  rc_Query : string
}.

(** The [llmagent.Config] handed to [llmagent.New]: the agent's tools are
    always exactly [geminitool.GoogleSearch{}]. *)
Inductive Tool : Type := GoogleSearch.

Record AgentConfig : Type := mkAgentConfig {
  ag_Name : string;
  ag_Description : string;
  ag_Instruction : string;
  ag_Tools : list Tool
}.

(** A [*runner.Runner]: the application name and the agent it runs. *)
Record Runner : Type := mkRunner {
  run_AppName : string;
  run_Agent : AgentConfig
}.

(** One [session.Event] of a run, reduced to what [handleChat] reads:
    [event.LLMResponse.Content], nil or the texts of its parts. *)
Record Event : Type := mkEvent {
  ev_Content : option (list string)
}.

(** The fields of [config.Config] the request path reads. *)
Record Config : Type := mkConfig {
  cfg_APIKey : string;
  cfg_RateLimit : Z;
  cfg_RateWindow : Z;
  cfg_Collection : string;
  cfg_VectorSize : Z;
  cfg_TopK : Z;
  cfg_EmbeddingModel : string;
  cfg_AgentName : string;
  cfg_AgentDescription : string;
  cfg_AgentInstruction : string
}.

(** ** Calls to collaborators *)

Inductive Call : Type :=
| CallSplitText (text : string)
| CallEmbedContent (model : string) (contents : list string)
| CallUuidNew
| CallPointsUpsert (collection : string) (points : list PointStruct)
| CallPointsQuery (q : QueryPoints)
| CallSessionCreate (appName userID : string)
| CallAgentNew (c : AgentConfig)
| CallRunnerNew (appName : string) (c : AgentConfig)
| CallRunnerRun (r : Runner) (userID sessionID message : string).

(** The collaborators.  Each one is given the log of calls made so far. *)
Record Collab : Type := mkCollab {
  decodeUpload : string → Result UploadTextRequest;
  decodeSearch : string → Result SearchRequest;
  decodeChat : string → Result ChatRequest;
  SplitText : list Call → string → Result (list string);
  (** [client.Models.EmbedContent]: an error, or [result.Embeddings], which
      may be nil ([None]) *)
  EmbedContent : list Call → string → list string → Result (option (list (list float32)));
  uuidNew : list Call → string;
  pointsUpsert : list Call → string → list PointStruct → Result unit;
  pointsQuery : list Call → QueryPoints → Result (list ScoredPoint);
  sessionCreate : list Call → string → string → Result string;
  llmagentNew : list Call → AgentConfig → Result unit;
  runnerNew : list Call → string → AgentConfig → Result unit;
  (** [runner.Run]: the events it yields, each an event or an error *)
  runnerRun : list Call → Runner → string → string → string → list (Result Event);
  (** [fmt.Sprintf("%.2f", score)] *)
  fmtScore : float32 → string;
  (** the handler [httpSwagger.Handler] builds for the documentation pages *)
  swaggerHandler : ResponseWriter → Request → ResponseWriter
}.

(** The mutable state of the server process: the limiter's table and the
    calls made to collaborators. *)
Record World : Type := mkWorld {
  rl : rateLimiter;
  calls : list Call
}.

Definition logCall (st : World) (c : Call) : World :=
  {| rl := rl st; calls := app (calls st) [c] |}.

Definition setLimiter (st : World) (l : rateLimiter) : World :=
  {| rl := l; calls := calls st |}.

Definition Handler : Type := ResponseWriter → Request → World → ResponseWriter * World.

(** ** The admission gate ([middleware.go]) *)

(** [middleware.auth]. *)
Definition auth (key : string) (next : Handler) : Handler := λ w r st,
  if decide (key = EmptyString) then next w r st
  else
    let k := HeaderGet (Header r) xApiKey in
    if decide (k ≠ key) then
      (httpError w ("{" +:+ dq +:+ "error" +:+ dq +:+ ":" +:+ dq +:+ "Unauthorized" +:+ dq +:+ "}")
         StatusUnauthorized, st)
    else next w r st.

(** [middleware.rateLimit]. *)
Definition rateLimit (next : Handler) : Handler := λ w r st,
  if decide (rate (rl st) = 0) then next w r st
  else
    let clientIP := RemoteAddr r in
    let '(ok, l) := allow (rl st) clientIP (Clock r) in
    if negb ok then
      (httpError w ("{" +:+ dq +:+ "error" +:+ dq +:+ ":" +:+ dq +:+ "Rate limit exceeded" +:+ dq +:+ "}")
         StatusTooManyRequests, setLimiter st l)
    else next w r (setLimiter st l).

(** ** The embedding service ([embedding/service.go]) *)

(** [Service.modelName], as [NewService] sets it. *)
Definition modelName (cfg : Config) : string :=
  if decide (cfg_EmbeddingModel cfg = EmptyString) then "gemini-embedding-001"
  else cfg_EmbeddingModel cfg.

(** [Service.EmbedQuery]. *)
Definition EmbedQuery (X : Collab) (cfg : Config) (query : string) (st : World)
  : Result (list float32) * World :=
  let contents := [query] in
  let st1 := logCall st (CallEmbedContent (modelName cfg) contents) in
  match EmbedContent X (calls st) (modelName cfg) contents with
  | Err e => (Err ("embed content failed: " +:+ e), st1)
  | Ok None => (Err "no embeddings returned", st1)
  | Ok (Some []) => (Err "no embeddings returned", st1)
  | Ok (Some (v :: _)) => (Ok v, st1)
  end.

(** [len] of a slice that may be nil. *)
Definition lenOpt {A : Type} (o : option (list A)) : Z :=
  match o with
  | None => 0
  | Some l => Z.of_nat (length l)
  end.

(** [Service.EmbedDocuments]. *)
Definition EmbedDocuments (X : Collab) (cfg : Config) (documents : list string) (st : World)
  : Result (list (list float32)) * World :=
  let contents := documents in
  let st1 := logCall st (CallEmbedContent (modelName cfg) contents) in
  match EmbedContent X (calls st) (modelName cfg) contents with
  | Err e => (Err ("embed content failed: " +:+ e), st1)
  | Ok embs =>
      match embs with
      | Some l =>
          if decide (length l ≠ length documents) then
            (Err ("unexpected number of embeddings: got " +:+ fmtInt (lenOpt embs)
                  +:+ ", expected " +:+ fmtInt (Z.of_nat (length documents))), st1)
          else (Ok l, st1)
      | None =>
          (Err ("unexpected number of embeddings: got " +:+ fmtInt (lenOpt embs)
                +:+ ", expected " +:+ fmtInt (Z.of_nat (length documents))), st1)
      end
  end.

(** ** The vector store client ([qdrant/client.go]) *)

(** The payload of a point: the content first, then every metadata entry
    written over it in the range loop. *)
Definition buildPayload (doc : Document) : gmap string pbValue :=
  map_fold (λ k v payload, <[k := StringValue v]> payload)
    {[ "content" := StringValue (doc_Content doc) ]}
    (doc_Metadata doc).

Definition buildVectors (doc : Document) : gmap string pbVector :=
  match doc_Sparse doc with
  | None => {[ "dense" := {| vec_Data := doc_Dense doc; vec_Indices := None |} ]}
  | Some sv =>
      <[ "sparse" := {| vec_Data := Values sv; vec_Indices := Some (Indices sv) |} ]>
        {[ "dense" := {| vec_Data := doc_Dense doc; vec_Indices := None |} ]}
  end.

(** One iteration of the loop of [Upsert]. *)
Definition buildPoint (X : Collab) (doc : Document) (st : World) : PointStruct * World :=
  let '(id, st1) :=
    if decide (doc_ID doc = EmptyString)
    then (uuidNew X (calls st), logCall st CallUuidNew)
    else (doc_ID doc, st) in
  ({| pt_Id := id; pt_Vectors := buildVectors doc; pt_Payload := buildPayload doc |}, st1).

Fixpoint buildPoints (X : Collab) (docs : list Document) (st : World)
  : list PointStruct * World :=
  match docs with
  | [] => ([], st)
  | doc :: rest =>
      let '(p, st1) := buildPoint X doc st in
      let '(ps, st2) := buildPoints X rest st1 in
      (p :: ps, st2)
  end.

(** [Client.Upsert]. *)
Definition Upsert (X : Collab) (collection : string) (docs : list Document) (st : World)
  : Result unit * World :=
  let '(points, st1) := buildPoints X docs st in
  let st2 := logCall st1 (CallPointsUpsert collection points) in
  match pointsUpsert X (calls st1) collection points with
  | Err e => (Err ("failed to upsert points: " +:+ e), st2)
  | Ok _ => (Ok tt, st2)
  end.

(** The payload loop of [HybridSearch] on one returned point: string values
    that are not empty go to [Content] (key [content]) or to [Payload]. *)
Definition extractPayload (payload : gmap string pbValue) : string * gmap string string :=
  map_fold
    (λ k v (acc : string * gmap string string),
       let sv := GetStringValue v in
       if decide (sv ≠ EmptyString) then
         if decide (k = "content") then (sv, acc.2) else (acc.1, <[k := sv]> acc.2)
       else acc)
    (EmptyString, ∅) payload.

Definition toSearchResult (point : ScoredPoint) : SearchResult :=
  let uuid := GetUuid (sp_Id point) in
  let cp := extractPayload (sp_Payload point) in
  {| res_ID := if decide (uuid ≠ EmptyString) then uuid else EmptyString;
     res_Score := sp_Score point;
     res_Content := cp.1;
     res_Payload := cp.2 |}.

(** The conversion [uint64(topK)] of an [int]. *)
Definition toUint64 (z : Z) : Z := z mod 2 ^ 64.

(** The request [HybridSearch] sends. *)
Definition hybridQuery (collection : string) (denseVector : list float32)
    (sparseVector : option SparseVector) (topK : Z) : QueryPoints :=
  let prefetch :=
    [ {| pf_Query := Query_Nearest (VectorInput_Dense denseVector);
         pf_Using := "dense"; pf_Limit := topK |} ] in
  let prefetch :=
    match sparseVector with
    | Some sv =>
        app prefetch
          [ {| pf_Query := Query_Nearest (VectorInput_Sparse (Indices sv) (Values sv));
               pf_Using := "sparse"; pf_Limit := topK |} ]
    | None => prefetch
    end in
  {| qp_CollectionName := collection;
     qp_Prefetch := prefetch;
     qp_Query := Query_Fusion Fusion_RRF;
     qp_Limit := topK;
     qp_WithPayload := true |}.

(** [Client.HybridSearch]. *)
Definition HybridSearch (X : Collab) (collection : string) (denseVector : list float32)
    (sparseVector : option SparseVector) (topK : Z) (st : World)
  : Result (list SearchResult) * World :=
  let q := hybridQuery collection denseVector sparseVector topK in
  let st1 := logCall st (CallPointsQuery q) in
  match pointsQuery X (calls st) q with
  | Err e => (Err ("failed to search: " +:+ e), st1)
  | Ok result => (Ok (toSearchResult <$> result), st1)
  end.

(** ** The agent factory ([agent/factory.go]) *)

(** [Factory.Retrieve].  On failure the Go function returns a nil context
    together with the error. *)
Definition Retrieve (X : Collab) (cfg : Config) (query : string) (st : World)
  : Result RetrievedContext * World :=
  let topK := cfg_TopK cfg in
  let topK := if bool_decide (topK <= 0) then 10 else topK in
  let '(qv, st1) := EmbedQuery X cfg query st in
  match qv with
  | Err e => (Err ("embedding query failed: " +:+ e), st1)
  | Ok queryVector =>
      let '(res, st2) :=
        HybridSearch X (cfg_Collection cfg) queryVector None (toUint64 topK) st1 in
      match res with
      | Err e => (Err ("retrieval failed: " +:+ e), st2)
      | Ok results => (Ok {| rc_Documents := results; rc_Query := query |}, st2)
      end
  end.

(** The loop of [NewRunner] over the retrieved documents; [i] is the index
    of the first document of [docs]. *)
Fixpoint writeDocuments (X : Collab) (i : Z) (docs : list SearchResult) : string :=
  match docs with
  | [] => EmptyString
  | doc :: rest =>
      ("### Document " +:+ fmtInt (i + 1) +:+ " (Score: " +:+ fmtScore X (res_Score doc)
         +:+ ")" +:+ nl)
      +:+ res_Content doc +:+ (nl +:+ nl)
      +:+ writeDocuments X (i + 1) rest
  end.

(** The text [NewRunner] collects in [contextBuilder]. *)
Definition contextString (X : Collab) (retrieved : option RetrievedContext) : string :=
  match retrieved with
  | Some rc =>
      if bool_decide (0 < Z.of_nat (length (rc_Documents rc))) then
        (nl +:+ nl +:+ "## Retrieved Knowledge Base Documents" +:+ nl +:+ nl)
        +:+ writeDocuments X 0 (rc_Documents rc)
      else EmptyString
  | None => EmptyString
  end.

Definition strategy : string :=
  "STRATEGY:" +:+ nl +:+
  "1. First, analyze the retrieved documents above to answer the user's question." +:+ nl +:+
  "2. If the retrieved documents contain sufficient information, use them to formulate your answer." +:+ nl +:+
  "3. If the retrieved documents are insufficient or the topic requires current/real-time information, use google_search." +:+ nl +:+
  "4. Always indicate whether your answer comes from internal documents or web search." +:+ nl +:+
  "5. Cite sources when possible." +:+ nl.

(** The instruction [NewRunner] formats from the configured instruction and
    the collected context. *)
Definition buildInstruction (base context : string) : string :=
  base +:+ nl +:+ nl +:+ context +:+ nl +:+ nl +:+ strategy.

(** [Factory.NewRunner]. *)
Definition NewRunner (X : Collab) (cfg : Config) (appName : string)
    (retrieved : option RetrievedContext) (st : World) : Result Runner * World :=
  let instruction := buildInstruction (cfg_AgentInstruction cfg) (contextString X retrieved) in
  let ac := {| ag_Name := cfg_AgentName cfg;
               ag_Description := cfg_AgentDescription cfg;
               ag_Instruction := instruction;
               ag_Tools := [GoogleSearch] |} in
  let st1 := logCall st (CallAgentNew ac) in
  match llmagentNew X (calls st) ac with
  | Err e => (Err ("failed to create agent: " +:+ e), st1)
  | Ok _ =>
      let st2 := logCall st1 (CallRunnerNew appName ac) in
      match runnerNew X (calls st1) appName ac with
      | Err e => (Err ("failed to create runner: " +:+ e), st2)
      | Ok _ => (Ok {| run_AppName := appName; run_Agent := ac |}, st2)
      end
  end.

(** ** The handlers ([server.go]) *)

(** [Server.writeJSON] and [Server.writeError]. *)
Definition writeJSON (w : ResponseWriter) (status : Z) (data : Payload) : ResponseWriter :=
  Write (WriteHeader (HeaderSet w "Content-Type" "application/json") status) data.

Definition writeError (w : ResponseWriter) (status : Z) (message : string) : ResponseWriter :=
  writeJSON w status (PMap {[ "error" := message ]}).

(** [Server.handleHealth]. *)
Definition handleHealth : Handler := λ w r st,
  (Write (HeaderSet w "Content-Type" "application/json") (PMap {[ "status" := "healthy" ]}), st).

(** The metadata of chunk [i]: the caller's entries, then [source] when the
    request names one, then [chunk_index]. *)
Definition mergeMetadata (req : UploadTextRequest) (i : Z) : gmap string string :=
  let metadata := map_fold (λ k v m, <[k := v]> m) ∅ (req_Metadata req) in
  let metadata :=
    if decide (req_Source req ≠ EmptyString)
    then <[ "source" := req_Source req ]> metadata
    else metadata in
  <[ "chunk_index" := fmtInt i ]> metadata.

(** The document loop of [handleUploadText]; [i] is the index of the first
    chunk of [chunks].  [embeddings[i]] is in range whenever
    [EmbedDocuments] succeeded, see [EmbedDocuments_length]. *)
Fixpoint buildDocs (X : Collab) (req : UploadTextRequest) (embeddings : list (list float32))
    (i : nat) (chunks : list string) (st : World) : list Document * list string * World :=
  match chunks with
  | [] => ([], [], st)
  | chunk :: rest =>
      let id := uuidNew X (calls st) in
      let st1 := logCall st CallUuidNew in
      let doc := {| doc_ID := id;
                    doc_Content := chunk;
                    doc_Metadata := mergeMetadata req (Z.of_nat i);
                    doc_Dense := default [] (embeddings !! i);
                    doc_Sparse := None |} in
      let '(docs, ids, st2) := buildDocs X req embeddings (S i) rest st1 in
      (doc :: docs, id :: ids, st2)
  end.

(** [Server.handleUploadText]. *)
Definition handleUploadText (X : Collab) (cfg : Config) : Handler := λ w r st,
  match decodeUpload X (Body r) with
  | Err e => (writeError w StatusBadRequest ("Invalid request body: " +:+ e), st)
  | Ok req =>
      if decide (req_Text req = EmptyString) then
        (writeError w StatusBadRequest "Text field is required", st)
      else
        let st1 := logCall st (CallSplitText (req_Text req)) in
        match SplitText X (calls st) (req_Text req) with
        | Err e => (writeError w StatusInternalServerError ("Failed to split text: " +:+ e), st1)
        | Ok chunks =>
            if decide (length chunks = 0%nat) then
              (writeError w StatusBadRequest "No chunks generated from text", st1)
            else
              let '(embs, st2) := EmbedDocuments X cfg chunks st1 in
              match embs with
              | Err e =>
                  (writeError w StatusInternalServerError
                     ("Failed to generate embeddings: " +:+ e), st2)
              | Ok embeddings =>
                  let '(docs, chunkIDs, st3) := buildDocs X req embeddings 0 chunks st2 in
                  let '(up, st4) := Upsert X (cfg_Collection cfg) docs st3 in
                  match up with
                  | Err e =>
                      (writeError w StatusInternalServerError
                         ("Failed to store documents: " +:+ e), st4)
                  | Ok _ =>
                      (writeJSON w StatusOK
                         (PUpload {| up_Message := "Text uploaded and chunked successfully";
                                     up_ChunkCount := Z.of_nat (length chunks);
                                     up_ChunkIDs := chunkIDs |}), st4)
                  end
              end
        end
  end.

Definition toItem (r : SearchResult) : SearchResultItem :=
  {| item_ID := res_ID r; item_Content := res_Content r;
     item_Score := res_Score r; item_Metadata := res_Payload r |}.

(** [Server.handleSearch]. *)
Definition handleSearch (X : Collab) (cfg : Config) : Handler := λ w r st,
  match decodeSearch X (Body r) with
  | Err e => (writeError w StatusBadRequest ("Invalid request body: " +:+ e), st)
  | Ok req =>
      if decide (req_Query req = EmptyString) then
        (writeError w StatusBadRequest "Query field is required", st)
      else
        let topK := req_TopK req in
        let topK := if bool_decide (topK <= 0) then cfg_TopK cfg else topK in
        let '(qv, st1) := EmbedQuery X cfg (req_Query req) st in
        match qv with
        | Err e =>
            (writeError w StatusInternalServerError
               ("Failed to generate query embedding: " +:+ e), st1)
        | Ok queryVector =>
            let '(res, st2) :=
              HybridSearch X (cfg_Collection cfg) queryVector None (toUint64 topK) st1 in
            match res with
            | Err e => (writeError w StatusInternalServerError ("Search failed: " +:+ e), st2)
            | Ok results => (writeJSON w StatusOK (PSearch (toItem <$> results)), st2)
            end
        end
  end.

(** The event loop of [handleChat]: the first error ends the request; the
    non-empty texts of every part are appended in arrival order. *)
Fixpoint drain (events : list (Result Event)) (responseText : string) : Result string :=
  match events with
  | [] => Ok responseText
  | Err e :: _ => Err e
  | Ok event :: rest =>
      match ev_Content event with
      | None => drain rest responseText
      | Some parts =>
          drain rest
            (foldl (λ acc text, if decide (text ≠ EmptyString) then acc +:+ text else acc)
               responseText parts)
      end
  end.

(** The user id [handleChat] works with: the request's, or the default. *)
Definition chatUserID (req : ChatRequest) : string :=
  if decide (req_UserID req = EmptyString) then "default_user" else req_UserID req.

(** The session block of [handleChat]: the request's session id, or the id
    of a session created for the user. *)
Definition ensureSession (X : Collab) (req : ChatRequest) (st : World) : Result string * World :=
  let sessionID := req_SessionID req in
  if decide (sessionID = EmptyString) then
    (sessionCreate X (calls st) "agentic_rag_go" (chatUserID req),
     logCall st (CallSessionCreate "agentic_rag_go" (chatUserID req)))
  else (Ok sessionID, st).

(** [Server.handleChat]. *)
Definition handleChat (X : Collab) (cfg : Config) : Handler := λ w r st,
  match decodeChat X (Body r) with
  | Err e => (writeError w StatusBadRequest ("Invalid request body: " +:+ e), st)
  | Ok req =>
      if decide (req_Message req = EmptyString) then
        (writeError w StatusBadRequest "Message field is required", st)
      else
        let userID := chatUserID req in
        let '(sess, st1) := ensureSession X req st in
        match sess with
        | Err e =>
            (writeError w StatusInternalServerError ("Failed to create session: " +:+ e), st1)
        | Ok sessionID =>
            let '(ret, st2) := Retrieve X cfg (req_Message req) st1 in
            let retrieved :=
              match ret with
              | Ok rc => Some rc
              | Err _ => None
              end in
            let '(rn, st3) := NewRunner X cfg "agentic_rag_go" retrieved st2 in
            match rn with
            | Err e =>
                (writeError w StatusInternalServerError ("Failed to create runner: " +:+ e), st3)
            | Ok runner =>
                let st4 :=
                  logCall st3 (CallRunnerRun runner userID sessionID (req_Message req)) in
                match drain (runnerRun X (calls st3) runner userID sessionID (req_Message req))
                        EmptyString with
                | Err e =>
                    (writeError w StatusInternalServerError ("Agent error: " +:+ e), st4)
                | Ok responseText =>
                    (writeJSON w StatusOK
                       (PChat {| chat_Response := responseText;
                                 chat_SessionID := sessionID |}), st4)
                end
            end
        end
  end.

Definition handleUploadTextV2 (X : Collab) (cfg : Config) : Handler := handleUploadText X cfg.
Definition handleSearchV2 (X : Collab) (cfg : Config) : Handler := handleSearch X cfg.
Definition handleChatV2 (X : Collab) (cfg : Config) : Handler := handleChat X cfg.

(** ** Routing ([server.go], over [http.ServeMux]) *)

(** A pattern registered with the mux: a method, a path, a handler. *)
Record Route : Type := mkRoute {
  rt_Method : string;
  rt_Path : string;
  rt_Handler : Handler
}.

Definition apiVersion : string := "v1".

(** [time.Second], in nanoseconds. *)
Definition Second : Z := 1000000000.

(** The middleware [NewServer] builds from the configuration; the window is
    [time.Duration(cfg.Server.RateWindow)*time.Second]. *)
Definition serverMiddleware (cfg : Config) : middleware :=
  newMiddleware (cfg_APIKey cfg) (cfg_RateLimit cfg) (wrap64 (cfg_RateWindow cfg * Second)).

(** The state of a server fresh out of [NewServer]. *)
Definition NewServer (cfg : Config) : World :=
  {| rl := limiter (serverMiddleware cfg); calls := [] |}.

(** [Server.registerRoutes]: the patterns in registration order. *)
Definition registerRoutes (X : Collab) (cfg : Config) : list Route :=
  let v1Prefix := "/api/" +:+ apiVersion in
  let m := serverMiddleware cfg in
  [ mkRoute "GET" "/health" handleHealth;
    mkRoute "POST" (v1Prefix +:+ "/upload_text")
      (rateLimit (auth (apiKey m) (handleUploadText X cfg)));
    mkRoute "POST" (v1Prefix +:+ "/search")
      (rateLimit (auth (apiKey m) (handleSearch X cfg)));
    mkRoute "POST" (v1Prefix +:+ "/chat")
      (rateLimit (auth (apiKey m) (handleChat X cfg)));
    mkRoute "POST" (v1Prefix +:+ "/documents/upload")
      (rateLimit (auth (apiKey m) (handleUploadTextV2 X cfg)));
    mkRoute "POST" (v1Prefix +:+ "/documents/search")
      (rateLimit (auth (apiKey m) (handleSearchV2 X cfg)));
    mkRoute "POST" (v1Prefix +:+ "/conversations/chat")
      (rateLimit (auth (apiKey m) (handleChatV2 X cfg)));
    mkRoute "GET" "/docs/" (λ w r st, (swaggerHandler X w r, st)) ].

(** A pattern whose path ends in a slash matches the whole subtree below
    it; any other pattern matches its path only. *)
Fixpoint endsInSlash (s : string) : bool :=
  match s with
  | EmptyString => false
  | String c EmptyString => bool_decide (c = Ascii.ascii_of_nat 47)
  | String _ rest => endsInSlash rest
  end.

Definition pathMatches (pattern path : string) : bool :=
  if endsInSlash pattern then String.prefix pattern path
  else bool_decide (pattern = path).

(** A [GET] pattern also serves [HEAD]. *)
Definition methodMatches (pattern method : string) : bool :=
  bool_decide (pattern = method)
  || (bool_decide (pattern = "GET") && bool_decide (method = "HEAD")).

Definition allowedMethods (routes : list Route) (path : string) : list string :=
  flat_map (λ rt, if bool_decide (rt_Method rt = "GET") then ["GET"; "HEAD"] else [rt_Method rt])
    (filter (λ rt, pathMatches (rt_Path rt) path = true) routes).

Fixpoint joinComma (l : list string) : string :=
  match l with
  | [] => EmptyString
  | [s] => s
  | s :: rest => s +:+ ", " +:+ joinComma rest
  end.

(** [ServeMux.ServeHTTP] on the patterns of this server, which never overlap
    and name one method per path: the handler of the pattern matching method
    and path; else 405 when only the path matches; else 404.  Paths are
    taken in canonical form (the mux redirects the others before matching). *)
Definition muxServeHTTP (routes : list Route) : Handler := λ w r st,
  match find (λ rt, methodMatches (rt_Method rt) (Method r) && pathMatches (rt_Path rt) (Path r))
          routes with
  | Some rt => rt_Handler rt w r st
  | None =>
      match allowedMethods routes (Path r) with
      | [] => (httpError w "404 page not found" StatusNotFound, st)
      | ms =>
          (httpError (HeaderSet w "Allow" (joinComma ms)) "Method Not Allowed"
             StatusMethodNotAllowed, st)
      end
  end.

(** [Server.ServeHTTP]. *)
Definition ServeHTTP (X : Collab) (cfg : Config) : Handler := λ w r st,
  let w := HeaderSet w "Access-Control-Allow-Origin" "*" in
  let w := HeaderSet w "Access-Control-Allow-Methods" "GET, POST, OPTIONS" in
  let w := HeaderSet w "Access-Control-Allow-Headers" "Content-Type" in
  if decide (Method r = "OPTIONS") then (WriteHeader w StatusOK, st)
  else muxServeHTTP (registerRoutes X cfg) w r st.

(** The server serving a sequence of requests one after the other, each on
    a fresh response writer. *)
Fixpoint serveAll (X : Collab) (cfg : Config) (rs : list Request) (st : World)
  : list ResponseWriter * World :=
  match rs with
  | [] => ([], st)
  | r :: rest =>
      let '(w, st1) := ServeHTTP X cfg NewRecorder r st in
      let '(ws, st2) := serveAll X cfg rest st1 in
      (w :: ws, st2)
  end.

(** A handler serving a sequence of requests one after the other, each on a
    fresh recorder, the way the middleware tests drive it. *)
Fixpoint serveWith (h : Handler) (rs : list Request) (st : World)
  : list ResponseWriter * World :=
  match rs with
  | [] => ([], st)
  | r :: rest =>
      let '(w, st1) := h NewRecorder r st in
      let '(ws, st2) := serveWith h rest st1 in
      (w :: ws, st2)
  end.

(** The request [r] sent with another method and to another path. *)
Definition toRoute (r : Request) (method path : string) : Request :=
  {| Method := method; Path := path; RemoteAddr := RemoteAddr r;
     Header := Header r; Body := Body r; Clock := Clock r |}.

(** The limiter's table with the record of [ip] replaced. *)
Definition withRecord (l : rateLimiter) (ip : string) (n t : Z) : rateLimiter :=
  setClients l (<[ip := {| tokens := n; last := t |}]> (clients l)).

(** The bodies of the two rejections of the gate. *)
Definition unauthorizedBody : string :=
  "{" +:+ dq +:+ "error" +:+ dq +:+ ":" +:+ dq +:+ "Unauthorized" +:+ dq +:+ "}".

Definition rateLimitBody : string :=
  "{" +:+ dq +:+ "error" +:+ dq +:+ ":" +:+ dq +:+ "Rate limit exceeded" +:+ dq +:+ "}".

(** ** A concrete deployment, used to run the definitions *)

Module Example.

Definition cfg : Config :=
  {| cfg_APIKey := "secret-key";
     cfg_RateLimit := 2;
     cfg_RateWindow := 1;
     cfg_Collection := "documents";
     cfg_VectorSize := 1;
     cfg_TopK := 5;
     cfg_EmbeddingModel := EmptyString;
     cfg_AgentName := "rag_agent";
     cfg_AgentDescription := "answers from the knowledge base";
     cfg_AgentInstruction := "You are a helpful assistant." |}.

(** The same deployment without an API key. *)
Definition openCfg : Config :=
  {| cfg_APIKey := EmptyString;
     cfg_RateLimit := 2;
     cfg_RateWindow := 1;
     cfg_Collection := "documents";
     cfg_VectorSize := 1;
     cfg_TopK := 5;
     cfg_EmbeddingModel := EmptyString;
     cfg_AgentName := "rag_agent";
     cfg_AgentDescription := "answers from the knowledge base";
     cfg_AgentInstruction := "You are a helpful assistant." |}.

(** A decoder that fails on the empty body, reads [{}] as the zero value
    and any other body as the text of the request. *)
Definition decUpload (body : string) : Result UploadTextRequest :=
  if decide (body = EmptyString) then Err "EOF"
  else if decide (body = "{}") then
    Ok {| req_Text := EmptyString; req_Metadata := ∅; req_Source := EmptyString |}
  else
    Ok {| req_Text := body;
          req_Metadata := {[ "content" := "spoofed"; "author" := "eve" ]};
          req_Source := "notes.txt" |}.

Definition decSearch (body : string) : Result SearchRequest :=
  if decide (body = EmptyString) then Err "EOF"
  else if decide (body = "{}") then Ok {| req_Query := EmptyString; req_TopK := 0 |}
  else Ok {| req_Query := body; req_TopK := 0 |}.

Definition decChat (body : string) : Result ChatRequest :=
  if decide (body = EmptyString) then Err "EOF"
  else if decide (body = "{}") then
    Ok {| req_Message := EmptyString; req_SessionID := EmptyString; req_UserID := EmptyString |}
  else Ok {| req_Message := body; req_SessionID := EmptyString; req_UserID := EmptyString |}.

Definition storedPoint : ScoredPoint :=
  {| sp_Id := Some (PointId_Uuid "id-7");
     sp_Payload := {[ "content" := StringValue "spoofed";
                      "author" := StringValue "eve";
                      "chunk_index" := StringValue "0" ]};
     sp_Score := F32 1056964608 |}.

(** Collaborators that all succeed: the splitter cuts every text into two
    chunks, the model returns one vector per text. *)
Definition collab : Collab :=
  {| decodeUpload := decUpload;
     decodeSearch := decSearch;
     decodeChat := decChat;
     SplitText := λ _ text, Ok [text; "tail"];
     EmbedContent := λ _ _ contents, Ok (Some ((λ _, [F32 0]) <$> contents));
     uuidNew := λ log, "id-" +:+ fmtInt (Z.of_nat (length log));
     pointsUpsert := λ _ _ _, Ok tt;
     pointsQuery := λ _ _, Ok [storedPoint];
     sessionCreate := λ _ _ _, Ok "session-1";
     llmagentNew := λ _ _, Ok tt;
     runnerNew := λ _ _ _, Ok tt;
     runnerRun := λ _ _ _ _ _,
       [Ok {| ev_Content := Some ["Hello"; EmptyString; ", world"] |};
        Ok {| ev_Content := None |};
        Ok {| ev_Content := Some ["!"] |}];
     fmtScore := λ _, "0.50";
     swaggerHandler := λ w _, Write w (PText "swagger") |}.

(** The same, with a model that returns one vector too few. *)
Definition shortModel : Collab :=
  {| decodeUpload := decUpload;
     decodeSearch := decSearch;
     decodeChat := decChat;
     SplitText := λ _ text, Ok [text; "tail"];
     EmbedContent := λ _ _ contents, Ok (Some ((λ _, [F32 0]) <$> tail contents));
     uuidNew := λ log, "id-" +:+ fmtInt (Z.of_nat (length log));
     pointsUpsert := λ _ _ _, Ok tt;
     pointsQuery := λ _ _, Ok [storedPoint];
     sessionCreate := λ _ _ _, Ok "session-1";
     llmagentNew := λ _ _, Ok tt;
     runnerNew := λ _ _ _, Ok tt;
     runnerRun := λ _ _ _ _ _, [Ok {| ev_Content := Some ["Hello"] |}];
     fmtScore := λ _, "0.50";
     swaggerHandler := λ w _, Write w (PText "swagger") |}.

(** The same as [collab], with an index that refuses every query. *)
Definition indexDown : Collab :=
  {| decodeUpload := decUpload;
     decodeSearch := decSearch;
     decodeChat := decChat;
     SplitText := λ _ text, Ok [text; "tail"];
     EmbedContent := λ _ _ contents, Ok (Some ((λ _, [F32 0]) <$> contents));
     uuidNew := λ log, "id-" +:+ fmtInt (Z.of_nat (length log));
     pointsUpsert := λ _ _ _, Ok tt;
     pointsQuery := λ _ _, Err "connection refused";
     sessionCreate := λ _ _ _, Ok "session-1";
     llmagentNew := λ _ _, Ok tt;
     runnerNew := λ _ _ _, Ok tt;
     runnerRun := λ _ _ _ _ _,
       [Ok {| ev_Content := Some ["Hello"; EmptyString; ", world"] |};
        Ok {| ev_Content := None |};
        Ok {| ev_Content := Some ["!"] |}];
     fmtScore := λ _, "0.50";
     swaggerHandler := λ w _, Write w (PText "swagger") |}.

(** A request from [addr], arriving when the clock reads [t]. *)
Definition request (method path addr key body : string) (t : Z) : Request :=
  {| Method := method; Path := path; RemoteAddr := addr;
     Header := if decide (key = EmptyString) then ∅ else {[ xApiKey := [key] ]};
     Body := body; Clock := (t, t + 1) |}.

(** The wrapped handler of the middleware tests: it answers 200. *)
Definition okHandler : Handler := λ w _ st, (Write (WriteHeader w StatusOK) (PText "ok"), st).

End Example.

(** The document [doc] with another text as its content. *)
Definition withContent (doc : Document) (text : string) : Document :=
  {| doc_ID := doc_ID doc; doc_Content := text; doc_Metadata := doc_Metadata doc;
     doc_Dense := doc_Dense doc; doc_Sparse := doc_Sparse doc |}.

(** The response writer after [ServeHTTP] has set the CORS headers. *)
Definition withCORS (w : ResponseWriter) : ResponseWriter :=
  HeaderSet
    (HeaderSet (HeaderSet w "Access-Control-Allow-Origin" "*")
       "Access-Control-Allow-Methods" "GET, POST, OPTIONS")
    "Access-Control-Allow-Headers" "Content-Type".

(** The answer of the gate to a request, given the limiter's decision: what
    the wrapped handler wrote for this request in some state, or the 429
    rejection. *)
Definition gateAnswer (next : Handler) (decision : bool * Request) (w : ResponseWriter) : Prop :=
  if decision.1 then ∃ st : World, w = (next NewRecorder decision.2 st).1
  else w = httpError NewRecorder rateLimitBody StatusTooManyRequests.

(** A handler keeps the limiter's records when every address that has a
    record before a request still has one after it. *)
Definition keepsRecords (h : Handler) : Prop :=
  ∀ (w : ResponseWriter) (r : Request) (st : World) (ip : string),
    is_Some (clients (rl st) !! ip) → is_Some (clients (rl (h w r st).2) !! ip).

(** ** Further parts of the service *)

(** *** Configuration ([config/config.go]) *)

Module config.

(** A [float64], kept as its bit pattern. *)
Inductive float64 : Type := F64 (bits : Z).

Record ModelConfig : Type := mkModelConfig {
  model_Name : string;
  model_EmbeddingModel : string;
  model_APIKey : string;
  model_Temperature : float64;
  model_MaxTokens : Z
}.

Record AgentConfig : Type := mkAgentConfig {
  agent_Name : string;
  agent_Description : string;
  agent_Instruction : string
}.

Record VectorStoreConfig : Type := mkVectorStoreConfig {
  vs_Provider : string;
  vs_URL : string;
  vs_GRPCPort : Z;
  vs_Collection : string;
  vs_VectorSize : Z;
  vs_APIKey : string
}.

Record RetrieverConfig : Type := mkRetrieverConfig {
  ret_TopK : Z;
  ret_MinScore : float64;
  ret_ChunkSize : Z;
  ret_ChunkOverlap : Z
}.

Record ServerConfig : Type := mkServerConfig {
  srv_Host : string;
  srv_Port : Z;
  srv_APIKey : string;
  srv_RateLimit : Z;
  srv_RateWindow : Z
}.

Record TracingConfig : Type := mkTracingConfig {
  tr_Enabled : bool;
  tr_Endpoint : string;
  tr_ServiceName : string
}.

Record Config : Type := mkConfig {
  Model : ModelConfig;
  Agent : AgentConfig;
  VectorStore : VectorStoreConfig;
  Retriever : RetrieverConfig;
  Server : ServerConfig;
  Tracing : TracingConfig
}.

(** The float [0.7]. *)
Definition f0_7 : float64 := F64 4604480259023595110.

(** The defaults [Load] starts from. *)
Definition defaults : Config :=
  {| Model := {| model_Name := "gemini-2.5-flash";
                 model_EmbeddingModel := "gemini-embedding-001";
                 model_APIKey := EmptyString;
                 model_Temperature := f0_7;
                 model_MaxTokens := 2048 |};
     Agent := {| agent_Name := "rag_agent";
                 agent_Description := "An intelligent RAG agent.";
                 agent_Instruction := "You are a helpful RAG assistant." |};
     VectorStore := {| vs_Provider := "qdrant";
                       vs_URL := "localhost";
                       vs_GRPCPort := 6334;
                       vs_Collection := "agenticraggo";
                       vs_VectorSize := 768;
                       vs_APIKey := EmptyString |};
     Retriever := {| ret_TopK := 10;
                     ret_MinScore := f0_7;
                     ret_ChunkSize := 512;
                     ret_ChunkOverlap := 50 |};
     Server := {| srv_Host := "0.0.0.0";
                  srv_Port := 8001;
                  srv_APIKey := EmptyString;
                  srv_RateLimit := 100;
                  srv_RateWindow := 60 |};
     Tracing := {| tr_Enabled := false;
                   tr_Endpoint := "http://localhost:4317";
                   tr_ServiceName := "agentic-rag-go" |} |}.

(** The key paths of the configuration, read off the [koanf] tags of the
    structs, joined with the delimiter [.]. *)
Definition tagPaths : list string :=
  [ "model.name"; "model.embedding_model"; "model.api_key"; "model.temperature";
    "model.max_tokens";
    "agent.name"; "agent.description"; "agent.instruction";
    "vectorstore.provider"; "vectorstore.url"; "vectorstore.grpc_port";
    "vectorstore.collection"; "vectorstore.vector_size"; "vectorstore.api_key";
    "retriever.top_k"; "retriever.min_score"; "retriever.chunk_size";
    "retriever.chunk_overlap";
    "server.host"; "server.port"; "server.api_key"; "server.rate_limit";
    "server.rate_window";
    "tracing.enabled"; "tracing.endpoint"; "tracing.service_name" ].

(** Strings are sequences of bytes.  [strings.TrimPrefix]. *)
Fixpoint stripPrefix (prefix s : string) : option string :=
  match prefix with
  | EmptyString => Some s
  | String a p =>
      match s with
      | String b rest => if decide (a = b) then stripPrefix p rest else None
      | EmptyString => None
      end
  end.

Definition TrimPrefix (s prefix : string) : string := default s (stripPrefix prefix s).

Fixpoint mapBytes (f : Ascii.ascii → Ascii.ascii) (s : string) : string :=
  match s with
  | EmptyString => EmptyString
  | String c rest => String (f c) (mapBytes f rest)
  end.

(** A string of ASCII bytes, as the names of environment variables are. *)
Fixpoint isASCII (s : string) : bool :=
  match s with
  | EmptyString => true
  | String c rest => (Ascii.nat_of_ascii c <? 128)%nat && isASCII rest
  end.

Definition lowerByte (c : Ascii.ascii) : Ascii.ascii :=
  let n := Ascii.nat_of_ascii c in
  if (65 <=? n)%nat && (n <=? 90)%nat then Ascii.ascii_of_nat (n + 32) else c.

(** [strings.ToLower] on a string of ASCII bytes: Go lowers such a string
    byte by byte. *)
Definition ToLower (s : string) : string := mapBytes lowerByte s.

(** [strings.Replace(s, old, new, -1)] for an [old] and a [new] of one byte
    each: every occurrence is replaced. *)
Definition Replace (s : string) (old new : Ascii.ascii) : string :=
  mapBytes (λ c, if decide (c = old) then new else c) s.

Definition underscore : Ascii.ascii := Ascii.ascii_of_nat 95.
Definition dot : Ascii.ascii := Ascii.ascii_of_nat 46.

(** The callback [Load] gives to the environment provider: the key under
    which the variable named [s] is loaded. *)
Definition envKey (s : string) : string :=
  Replace (ToLower (TrimPrefix s "APP_")) underscore dot.

Fixpoint hasByte (c : Ascii.ascii) (s : string) : bool :=
  match s with
  | EmptyString => false
  | String b rest => bool_decide (b = c) || hasByte c rest
  end.

(** The block of [Load] that reads the four unprefixed variables, between
    the loading of the sources and the unmarshalling.  [getenv] is
    [os.Getenv]: the value, or the empty string. *)
Definition applySpecialEnv (getenv : string → string) (cfg : Config) : Config :=
  let cfg :=
    let apiKey := getenv "GOOGLE_API_KEY" in
    if decide (apiKey ≠ EmptyString ∧ model_APIKey (Model cfg) = EmptyString) then
      {| Model := {| model_Name := model_Name (Model cfg);
                     model_EmbeddingModel := model_EmbeddingModel (Model cfg);
                     model_APIKey := apiKey;
                     model_Temperature := model_Temperature (Model cfg);
                     model_MaxTokens := model_MaxTokens (Model cfg) |};
         Agent := Agent cfg; VectorStore := VectorStore cfg; Retriever := Retriever cfg;
         Server := Server cfg; Tracing := Tracing cfg |}
    else cfg in
  let cfg :=
    let qdrantURL := getenv "QDRANT_URL" in
    if decide (qdrantURL ≠ EmptyString) then
      {| Model := Model cfg; Agent := Agent cfg;
         VectorStore := {| vs_Provider := vs_Provider (VectorStore cfg);
                           vs_URL := qdrantURL;
                           vs_GRPCPort := vs_GRPCPort (VectorStore cfg);
                           vs_Collection := vs_Collection (VectorStore cfg);
                           vs_VectorSize := vs_VectorSize (VectorStore cfg);
                           vs_APIKey := vs_APIKey (VectorStore cfg) |};
         Retriever := Retriever cfg; Server := Server cfg; Tracing := Tracing cfg |}
    else cfg in
  let cfg :=
    let phoenixEndpoint := getenv "PHOENIX_COLLECTOR_ENDPOINT" in
    if decide (phoenixEndpoint ≠ EmptyString) then
      {| Model := Model cfg; Agent := Agent cfg; VectorStore := VectorStore cfg;
         Retriever := Retriever cfg; Server := Server cfg;
         Tracing := {| tr_Enabled := true; tr_Endpoint := phoenixEndpoint;
                       tr_ServiceName := tr_ServiceName (Tracing cfg) |} |}
    else cfg in
  let otelEndpoint := getenv "OTEL_EXPORTER_OTLP_ENDPOINT" in
  if decide (otelEndpoint ≠ EmptyString) then
    {| Model := Model cfg; Agent := Agent cfg; VectorStore := VectorStore cfg;
       Retriever := Retriever cfg; Server := Server cfg;
       Tracing := {| tr_Enabled := true; tr_Endpoint := otelEndpoint;
                     tr_ServiceName := tr_ServiceName (Tracing cfg) |} |}
  else cfg.

End config.

(** *** Collections ([qdrant/client.go]) *)

Inductive Distance : Type := Distance_Cosine | Distance_Euclid | Distance_Dot.

Record VectorParams : Type := mkVectorParams {
  vp_Size : Z;
  vp_Distance : Distance
}.

(** [pb.CreateCollection]: the named dense vectors and the named sparse
    vectors of the collection. *)
Record CreateCollection : Type := mkCreateCollection {
  cc_CollectionName : string;
  cc_VectorsConfig : gmap string VectorParams;
  cc_SparseVectorsConfig : gmap string unit
}.

Inductive CollectionsCall : Type :=
| CallCollectionExists (name : string)
| CallCollectionsCreate (req : CreateCollection).

(** The collections service of the index; each call sees the calls made so
    far.  [collectionExists] returns [exists.GetResult().GetExists()]. *)
Record CollectionsClient : Type := mkCollectionsClient {
  collectionExists : list CollectionsCall → string → Result bool;
  collectionsCreate : list CollectionsCall → CreateCollection → Result unit
}.

(** The request [EnsureCollection] sends to create the collection. *)
Definition createRequest (name : string) (vectorSize : Z) : CreateCollection :=
  {| cc_CollectionName := name;
     cc_VectorsConfig := {[ "dense" := {| vp_Size := vectorSize; vp_Distance := Distance_Cosine |} ]};
     cc_SparseVectorsConfig := {[ "sparse" := tt ]} |}.

(** [Client.EnsureCollection]. *)
Definition EnsureCollection (C : CollectionsClient) (name : string) (vectorSize : Z)
    (log : list CollectionsCall) : Result unit * list CollectionsCall :=
  let log1 := log ++ [CallCollectionExists name] in
  match collectionExists C log name with
  | Err e => (Err ("failed to check collection: " +:+ e), log1)
  | Ok true => (Ok tt, log1)
  | Ok false =>
      let req := createRequest name vectorSize in
      let log2 := log1 ++ [CallCollectionsCreate req] in
      match collectionsCreate C log1 req with
      | Err e => (Err ("failed to create collection: " +:+ e), log2)
      | Ok _ => (Ok tt, log2)
      end
  end.

(** The names of the collections the log has created. *)
Definition createdNames (log : list CollectionsCall) : list string :=
  omap (λ c, match c with
             | CallCollectionsCreate req => Some (cc_CollectionName req)
             | CallCollectionExists _ => None
             end) log.

(** *** Auxiliary notions for the properties *)

(** The calls that change the index. *)
Definition isWrite (c : Call) : bool :=
  match c with
  | CallPointsUpsert _ _ => true
  | _ => false
  end.

(** The two paths of the upload operation. *)
Definition uploadPaths : list string :=
  [ "/api/v1/upload_text"; "/api/v1/documents/upload" ].

(** The log of [st'] is the log of [st] followed by calls that satisfy [P]. *)
Definition extends (P : Call → Prop) (st st' : World) : Prop :=
  ∃ added : list Call, calls st' = calls st ++ added ∧ Forall P added.

(** The statuses with which the server refuses a request before a handler
    of the API runs. *)
Definition refusals : list Z :=
  [ StatusUnauthorized; StatusTooManyRequests; StatusNotFound; StatusMethodNotAllowed ].

(** The number of ids [Upsert] draws: one for each document without an id. *)
Definition missingIDs (docs : list Document) : nat :=
  length (filter (λ doc, doc_ID doc = EmptyString) docs).

(** The point [Upsert] builds for a document whose id is [id]. *)
Definition pointOf (id : string) (doc : Document) : PointStruct :=
  {| pt_Id := id; pt_Vectors := buildVectors doc; pt_Payload := buildPayload doc |}.

(** Clock-reading pairs taken in chronological order, none before [t]. *)
Fixpoint chronological (t : Z) (clks : list (Z * Z)) : Prop :=
  match clks with
  | [] => True
  | c :: rest => t <= c.1 ∧ c.1 <= c.2 ∧ chronological c.2 rest
  end.

(** Every record of the limiter holds between [0] and [rate - 1] tokens. *)
Definition tokensBounded (l : rateLimiter) : Prop :=
  ∀ (ip : string) (cl : clientLimiter),
    clients l !! ip = Some cl → 0 <= tokens cl <= rate l - 1.

(** The texts of the parts of one event, and the concatenation of the texts
    of a run of events that carries no error. *)
Definition eventTexts (ev : Result Event) : list string :=
  match ev with
  | Ok e => default [] (ev_Content e)
  | Err _ => []
  end.

Definition joinTexts (l : list string) : string := foldr String.append EmptyString l.

Definition isOk {A : Type} (r : Result A) : Prop :=
  match r with
  | Ok _ => True
  | Err _ => False
  end.

(** The lines [NewRunner] writes for the document of rank [n]. *)
Definition documentEntry (X : Collab) (n : Z) (doc : SearchResult) : string :=
  ("### Document " +:+ fmtInt n +:+ " (Score: " +:+ fmtScore X (res_Score doc) +:+ ")" +:+ nl)
  +:+ res_Content doc +:+ (nl +:+ nl).

(** The heading [NewRunner] writes before the documents. *)
Definition contextHeading : string :=
  nl +:+ nl +:+ "## Retrieved Knowledge Base Documents" +:+ nl +:+ nl.

(** The three CORS headers of [ServeHTTP]. *)
Definition corsHeaders : list (string * string) :=
  [ ("Access-Control-Allow-Origin", "*");
    ("Access-Control-Allow-Methods", "GET, POST, OPTIONS");
    ("Access-Control-Allow-Headers", "Content-Type") ].

(** The two shapes of an answer of the API handlers: the success body of
    the operation with status 200, or an error object with status 400 or
    500. *)
Definition errorBody (p : Payload) : Prop := ∃ msg : string, p = PMap {[ "error" := msg ]}.

Definition jsonAnswer (success : Payload → Prop) (w w' : ResponseWriter) : Prop :=
  ∃ (status : Z) (p : Payload),
    w' = writeJSON w status p
    ∧ ((status = StatusOK ∧ success p)
       ∨ ((status = StatusBadRequest ∨ status = StatusInternalServerError) ∧ errorBody p)).

(** A second deployment to run the definitions on. *)
Module Demo.

(** An index that knows the collections created so far. *)
Definition collections : CollectionsClient :=
  {| collectionExists := λ log name, Ok (bool_decide (name ∈ createdNames log));
     collectionsCreate := λ _ _, Ok tt |}.

Definition env (name : string) : string :=
  if decide (name = "PHOENIX_COLLECTOR_ENDPOINT") then "http://phoenix:6006"
  else if decide (name = "OTEL_EXPORTER_OTLP_ENDPOINT") then "http://otel:4317"
  else if decide (name = "GOOGLE_API_KEY") then "google-key"
  else EmptyString.

(** A deployment with the default limits of the configuration. *)
Definition cfg : Config :=
  {| cfg_APIKey := "secret-key";
     cfg_RateLimit := 100;
     cfg_RateWindow := 60;
     cfg_Collection := "agenticraggo";
     cfg_VectorSize := 768;
     cfg_TopK := 10;
     cfg_EmbeddingModel := "gemini-embedding-001";
     cfg_AgentName := "rag_agent";
     cfg_AgentDescription := "An intelligent RAG agent.";
     cfg_AgentInstruction := "You are a helpful RAG assistant." |}.

Definition document : Document :=
  {| doc_ID := "id-1"; doc_Content := "hello";
     doc_Metadata := {[ "author" := "eve"; "note" := EmptyString; "chunk_index" := "0" ]};
     doc_Dense := [F32 0]; doc_Sparse := None |}.

End Demo.

(** * Properties *)

(** ** Integers and time *)

Lemma wrap64_id (z : Z) : inInt64 z → wrap64 z = z.
Proof.
  unfold inInt64, minInt64, maxInt64, wrap64. intros H.
  rewrite Z.mod_small; lia.
Qed.

Lemma Sub_exact (t u : Z) : inInt64 (t - u) → Sub t u = t - u.
Proof. unfold inInt64, Sub. lia. Qed.

(** A difference below the bound stays below it after saturation, and one at
    or above it stays at or above it. *)
Lemma Sub_lt (t u W : Z) : 0 <= t - u < W → Sub t u < W.
Proof. unfold Sub, minInt64, maxInt64. lia. Qed.

Lemma Sub_ge (t u W : Z) : inInt64 W → W <= t - u → W <= Sub t u.
Proof. unfold inInt64, Sub, minInt64, maxInt64. lia. Qed.

(** ** The rate limiter *)

Lemma withRecord_lookup (l : rateLimiter) (ip : string) (n t : Z) :
  clients (withRecord l ip n t) !! ip = Some {| tokens := n; last := t |}.
Proof. unfold withRecord. simpl. apply lookup_insert_eq. Qed.

Lemma withRecord_other (l : rateLimiter) (ip ip' : string) (n t : Z) :
  ip ≠ ip' → clients (withRecord l ip n t) !! ip' = clients l !! ip'.
Proof. intros H. unfold withRecord. simpl. by apply lookup_insert_ne. Qed.

Lemma withRecord_again (l : rateLimiter) (ip : string) (n t n' t' : Z) :
  withRecord (withRecord l ip n t) ip n' t' = withRecord l ip n' t'.
Proof. unfold withRecord, setClients. simpl. by rewrite insert_insert_eq. Qed.

Lemma withRecord_rate (l : rateLimiter) (ip : string) (n t : Z) :
  rate (withRecord l ip n t) = rate l ∧ window (withRecord l ip n t) = window l.
Proof. done. Qed.

(** The three branches of [allow] that let the call through, and the one
    that does not. *)
Lemma allow_first (l : rateLimiter) (ip : string) (clk : Z * Z) :
  clients l !! ip = None →
  allow l ip clk = (true, withRecord l ip (wrap64 (rate l - 1)) clk.1).
Proof. intros H. unfold allow. by rewrite H. Qed.

Lemma allow_reset (l : rateLimiter) (ip : string) (cl : clientLimiter) (clk : Z * Z) :
  clients l !! ip = Some cl →
  window l <= Since clk.1 (last cl) →
  allow l ip clk = (true, withRecord l ip (wrap64 (rate l - 1)) clk.2).
Proof. intros H Hw. unfold allow. rewrite H. simpl. by rewrite bool_decide_eq_true_2. Qed.

Lemma allow_spend (l : rateLimiter) (ip : string) (cl : clientLimiter) (clk : Z * Z) :
  clients l !! ip = Some cl →
  Since clk.1 (last cl) < window l →
  0 < tokens cl →
  allow l ip clk = (true, withRecord l ip (wrap64 (tokens cl - 1)) (last cl)).
Proof.
  intros H Hw Ht. unfold allow. rewrite H. simpl.
  rewrite bool_decide_eq_false_2 by lia. by rewrite bool_decide_eq_true_2.
Qed.

Lemma allow_reject (l : rateLimiter) (ip : string) (cl : clientLimiter) (clk : Z * Z) :
  clients l !! ip = Some cl →
  Since clk.1 (last cl) < window l →
  tokens cl <= 0 →
  allow l ip clk = (false, l).
Proof.
  intros H Hw Ht. unfold allow. rewrite H. simpl.
  rewrite bool_decide_eq_false_2 by lia. by rewrite bool_decide_eq_false_2 by lia.
Qed.

(** A call never touches the record of another address. *)
Lemma allow_other (l : rateLimiter) (ip ip' : string) (clk : Z * Z) :
  ip ≠ ip' → clients (allow l ip clk).2 !! ip' = clients l !! ip'.
Proof.
  intros Hne. unfold allow.
  destruct (clients l !! ip) as [cl|]; simpl.
  - repeat case_bool_decide; simpl; try done; by rewrite lookup_insert_ne.
  - by rewrite lookup_insert_ne.
Qed.

Lemma allow_config (l : rateLimiter) (ip : string) (clk : Z * Z) :
  rate (allow l ip clk).2 = rate l ∧ window (allow l ip clk).2 = window l.
Proof.
  unfold allow. destruct (clients l !! ip); simpl; repeat case_bool_decide; done.
Qed.

(** A call never removes a record. *)
Lemma allow_keeps (l : rateLimiter) (ip ip' : string) (clk : Z * Z) :
  is_Some (clients l !! ip') → is_Some (clients (allow l ip clk).2 !! ip').
Proof.
  intros Hs. destruct (decide (ip = ip')) as [->|Hne].
  - unfold allow. destruct (clients l !! ip') as [cl|] eqn:E; simpl.
    + repeat case_bool_decide; simpl; rewrite ?lookup_insert_eq, ?E; eauto.
    + rewrite lookup_insert_eq; eauto.
  - by rewrite allow_other.
Qed.

(** [k] calls inside the window, on a record holding at least [k] tokens:
    every one is let through and spends one token. *)
Lemma allowMany_spend (l : rateLimiter) (ip : string) (t0 : Z) (clks : list (Z * Z)) :
  ∀ n : Z,
    Z.of_nat (length clks) <= n <= maxInt64 →
    Forall (λ c : Z * Z, 0 <= c.1 - t0 < window l) clks →
    allowMany (withRecord l ip n t0) ip clks
    = (replicate (length clks) true, withRecord l ip (n - Z.of_nat (length clks)) t0).
Proof.
  induction clks as [|c clks IH]; intros n Hn Hin.
  - simpl. by rewrite Z.sub_0_r.
  - apply Forall_cons in Hin as [Hc Hin]. simpl length in *.
    cbn [allowMany].
    rewrite (allow_spend _ ip {| tokens := n; last := t0 |});
      [| apply withRecord_lookup | simpl; by apply Sub_lt | simpl; lia].
    simpl tokens. simpl last.
    rewrite withRecord_again, wrap64_id by (unfold inInt64, minInt64, maxInt64 in *; lia).
    rewrite IH by (try done; lia).
    simpl. do 2 f_equal. lia.
Qed.

(** A run of calls splits at any point. *)
Lemma allowMany_app (ip : string) (xs ys : list (Z * Z)) :
  ∀ m : rateLimiter,
    allowMany m ip (xs ++ ys)
    = ((allowMany m ip xs).1 ++ (allowMany (allowMany m ip xs).2 ip ys).1,
       (allowMany (allowMany m ip xs).2 ip ys).2).
Proof.
  induction xs as [|x xs IH]; intros m.
  - simpl. by destruct (allowMany m ip ys).
  - rewrite <- app_comm_cons. cbn [allowMany].
    destruct (allow m ip x) as [b m1].
    rewrite (IH m1). destruct (allowMany m1 ip xs) as [bs m2]. simpl.
    by destruct (allowMany m2 ip ys).
Qed.

(** ** The gate *)

Lemma setLimiter_same (st : World) : setLimiter st (rl st) = st.
Proof. by destruct st. Qed.

Lemma httpError_Code (w : ResponseWriter) (msg : string) (status : Z) :
  wroteHeader w = false → Code (httpError w msg status) = status.
Proof. intros H. unfold httpError, Write, WriteHeader. simpl. by rewrite H. Qed.

Lemma WriteHeader_Written (w : ResponseWriter) (status : Z) :
  Written (WriteHeader w status) = Written w.
Proof. unfold WriteHeader. by destruct (wroteHeader w). Qed.

Lemma Write_Written (w : ResponseWriter) (p : Payload) :
  Written (Write w p) = app (Written w) [p].
Proof. unfold Write. simpl. by rewrite WriteHeader_Written. Qed.

Lemma httpError_Written (w : ResponseWriter) (msg : string) (status : Z) :
  Written (httpError w msg status) = app (Written w) [PText (msg +:+ nl)].
Proof. unfold httpError. by rewrite Write_Written, WriteHeader_Written. Qed.

(** What [rateLimit] does with the answer of [allow]. *)
Lemma rateLimit_pass (next : Handler) (w : ResponseWriter) (r : Request) (st : World)
    (l' : rateLimiter) :
  rate (rl st) ≠ 0 →
  allow (rl st) (RemoteAddr r) (Clock r) = (true, l') →
  rateLimit next w r st = next w r (setLimiter st l').
Proof.
  intros Hr Ha. unfold rateLimit. rewrite decide_False by done. by rewrite Ha.
Qed.

Lemma rateLimit_reject (next : Handler) (w : ResponseWriter) (r : Request) (st : World)
    (l' : rateLimiter) :
  rate (rl st) ≠ 0 →
  allow (rl st) (RemoteAddr r) (Clock r) = (false, l') →
  rateLimit next w r st
  = (httpError w rateLimitBody StatusTooManyRequests, setLimiter st l').
Proof.
  intros Hr Ha. unfold rateLimit. rewrite decide_False by done. by rewrite Ha.
Qed.

Lemma rateLimit_disabled (next : Handler) (w : ResponseWriter) (r : Request) (st : World) :
  rate (rl st) = 0 → rateLimit next w r st = next w r st.
Proof. intros Hr. unfold rateLimit. by rewrite decide_True. Qed.

(** The gate in front of a handler that leaves the limiter alone, serving
    requests of one address: the limiter goes through the states of
    [allowMany], and each request is answered by the wrapped handler when
    [allow] let it through and by the 429 rejection when it did not. *)
Lemma serveWith_rateLimit (next : Handler) (ip : string) :
  (∀ w r st, rl (next w r st).2 = rl st) →
  ∀ (rs : list Request) (st : World),
    rate (rl st) ≠ 0 →
    Forall (λ r, RemoteAddr r = ip) rs →
    rl (serveWith (rateLimit next) rs st).2 = (allowMany (rl st) ip (Clock <$> rs)).2
    ∧ Forall2 (gateAnswer next) (zip (allowMany (rl st) ip (Clock <$> rs)).1 rs)
        (serveWith (rateLimit next) rs st).1.
Proof.
  intros Hnext. induction rs as [|r rs IH]; intros st Hrate Hip.
  - simpl. split; [done | constructor].
  - apply Forall_cons in Hip as [Hr Hip]. rewrite fmap_cons.
    cbn [serveWith allowMany].
    pose proof (allow_config (rl st) ip (Clock r)) as [Hc _].
    destruct (allow (rl st) ip (Clock r)) as [b l1] eqn:Ea. simpl in Hc.
    assert (Hstep : ∃ w st1, rateLimit next NewRecorder r st = (w, st1)
                             ∧ rl st1 = l1 ∧ gateAnswer next (b, r) w).
    { rewrite <- Hr in Ea. destruct b.
      - rewrite (rateLimit_pass next NewRecorder r st l1 Hrate Ea).
        exists (next NewRecorder r (setLimiter st l1)).1,
               (next NewRecorder r (setLimiter st l1)).2.
        split; [by destruct (next NewRecorder r (setLimiter st l1))|].
        split; [by rewrite Hnext|]. by exists (setLimiter st l1).
      - rewrite (rateLimit_reject next NewRecorder r st l1 Hrate Ea).
        eexists _, _. split; [done|]. split; done. }
    destruct Hstep as (w & st1 & -> & Hl1 & Hans).
    destruct (IH st1) as [IH1 IH2]; [by rewrite Hl1, Hc | done |].
    rewrite Hl1 in IH1, IH2.
    destruct (serveWith (rateLimit next) rs st1) as [ws st2].
    destruct (allowMany l1 ip (Clock <$> rs)) as [bs l2]. simpl in *.
    split; [done|]. by constructor.
Qed.

(** C1.  Fixed-window rate limiting.  Take a limiter of rate [R >= 1] and
    window [W] that holds no record for [ip], a first call whose clock
    reading is [c0.1], then [R - 1] further calls [cs] and one more call
    [c429], all read less than [W] after [c0.1], and a call [late] read at
    least [W] after [c0.1].  Then:
    - the first call creates the record with [R - 1] tokens and window
      start [c0.1], and it and the next [k] calls are all let through,
      leaving [R - 1 - k] tokens: the first [R] calls succeed;
    - the [(R+1)]th call is refused and the gate answers 429 without
      invoking the wrapped handler or changing the state;
    - from any state of that window the late call is let through and
      resets the record to [R - 1] tokens, window start [late.2];
    - at the gate each call that is let through runs the wrapped handler on
      the state with the updated record;
    - a gate in front of any handler that leaves the limiter alone, serving
      these [R + 1] requests in a row, hands the first [R] to the handler
      and answers the last with the 429 rejection. *)
Theorem rate_limit_fixed_window
    (l : rateLimiter) (ip : string) (c0 : Z * Z) (cs : list (Z * Z)) (c429 late : Z * Z) :
  1 <= rate l <= maxInt64 →
  inInt64 (window l) →
  clients l !! ip = None →
  Z.of_nat (length cs) = rate l - 1 →
  Forall (λ c : Z * Z, 0 <= c.1 - c0.1 < window l) cs →
  0 <= c429.1 - c0.1 < window l →
  window l <= late.1 - c0.1 →
  allow l ip c0 = (true, withRecord l ip (rate l - 1) c0.1)
  ∧ (∀ k : nat, (k ≤ length cs)%nat →
       allowMany l ip (c0 :: take k cs)
       = (replicate (S k) true, withRecord l ip (rate l - 1 - Z.of_nat k) c0.1))
  ∧ allowMany l ip (c0 :: cs ++ [c429])
    = (replicate (Z.to_nat (rate l)) true ++ [false], withRecord l ip 0 c0.1)
  ∧ (∀ n : Z, allow (withRecord l ip n c0.1) ip late
              = (true, withRecord l ip (rate l - 1) late.2))
  ∧ (∀ (next : Handler) (w : ResponseWriter) (r : Request) (st : World),
       RemoteAddr r = ip →
       (rl st = l → Clock r = c0 →
        rateLimit next w r st
        = next w r (setLimiter st (withRecord l ip (rate l - 1) c0.1)))
       ∧ (∀ k : nat, rl st = withRecord l ip (rate l - 1 - Z.of_nat k) c0.1 →
            cs !! k = Some (Clock r) →
            rateLimit next w r st
            = next w r (setLimiter st (withRecord l ip (rate l - 1 - Z.of_nat (S k)) c0.1)))
       ∧ (rl st = withRecord l ip 0 c0.1 → Clock r = c429 →
          rateLimit next w r st
          = (httpError w rateLimitBody StatusTooManyRequests, st)
          ∧ (wroteHeader w = false →
             Code (rateLimit next w r st).1 = StatusTooManyRequests))
       ∧ (∀ n : Z, rl st = withRecord l ip n c0.1 → Clock r = late →
            rateLimit next w r st
            = next w r (setLimiter st (withRecord l ip (rate l - 1) late.2))))
  ∧ (∀ (next : Handler) (rs : list Request) (st : World),
       (∀ w r st, rl (next w r st).2 = rl st) →
       rl st = l →
       Forall (λ r, RemoteAddr r = ip) rs →
       Clock <$> rs = c0 :: cs ++ [c429] →
       rl (serveWith (rateLimit next) rs st).2 = withRecord l ip 0 c0.1
       ∧ Forall2 (gateAnswer next)
           (zip (replicate (Z.to_nat (rate l)) true ++ [false]) rs)
           (serveWith (rateLimit next) rs st).1).
Proof.
  intros HR HW Hnew Hlen Hcs H429 Hlate.
  assert (Hw1 : wrap64 (rate l - 1) = rate l - 1).
  { apply wrap64_id. unfold inInt64, minInt64, maxInt64 in *. lia. }
  assert (Hfirst : allow l ip c0 = (true, withRecord l ip (rate l - 1) c0.1)).
  { rewrite allow_first by done. by rewrite Hw1. }
  assert (Hprefix : ∀ k : nat, (k ≤ length cs)%nat →
            allowMany l ip (c0 :: take k cs)
            = (replicate (S k) true, withRecord l ip (rate l - 1 - Z.of_nat k) c0.1)).
  { intros k Hk. cbn [allowMany]. rewrite Hfirst.
    rewrite (allowMany_spend l ip c0.1 (take k cs) (rate l - 1)).
    - rewrite length_take, Nat.min_l by done. done.
    - rewrite length_take. lia.
    - by apply Forall_take. }
  assert (Hrej : allow (withRecord l ip 0 c0.1) ip c429 = (false, withRecord l ip 0 c0.1)).
  { apply (allow_reject _ ip {| tokens := 0; last := c0.1 |}).
    - apply withRecord_lookup.
    - simpl. by apply Sub_lt.
    - simpl. lia. }
  assert (Hreset : ∀ n : Z, allow (withRecord l ip n c0.1) ip late
                           = (true, withRecord l ip (rate l - 1) late.2)).
  { intros n.
    rewrite (allow_reset _ ip {| tokens := n; last := c0.1 |}).
    - simpl rate. by rewrite Hw1, withRecord_again.
    - apply withRecord_lookup.
    - simpl. by apply Sub_ge. }
  assert (Hall : allowMany l ip (c0 :: cs ++ [c429])
                 = (replicate (Z.to_nat (rate l)) true ++ [false], withRecord l ip 0 c0.1)).
  { cbn [allowMany]. rewrite Hfirst.
    rewrite allowMany_app.
    rewrite (allowMany_spend l ip c0.1 cs (rate l - 1)) by (try done; lia).
    simpl fst. simpl snd.
    replace (rate l - 1 - Z.of_nat (length cs)) with 0 by lia.
    cbn [allowMany]. rewrite Hrej. simpl.
    replace (Z.to_nat (rate l)) with (S (length cs)) by lia.
    done. }
  split; [done|]. split; [done|]. split; [done|]. split; [done|].
  split; [|intros next rs st Hnext Hst Hip Hclk;
           destruct (serveWith_rateLimit next ip Hnext rs st) as [H1 H2];
           [rewrite Hst; lia | done |];
           rewrite Hst, Hclk, Hall in H1, H2; by split].
  intros next w r st Hip.
  assert (Hne : ∀ n t, rate (withRecord l ip n t) ≠ 0) by (intros; simpl; lia).
  split; [|split; [|split]].
  - intros Hst Hc. apply rateLimit_pass; rewrite Hst, ?Hip, ?Hc; [lia | done].
  - intros k Hst Hk. apply rateLimit_pass; rewrite Hst, ?Hip; [apply Hne|].
    assert (Hklen : (k < length cs)%nat) by (eapply lookup_lt_Some; eauto).
    rewrite (allow_spend _ ip {| tokens := rate l - 1 - Z.of_nat k; last := c0.1 |}).
    + simpl tokens. simpl last. rewrite withRecord_again.
      rewrite wrap64_id by (unfold inInt64, minInt64, maxInt64 in *; lia).
      do 2 f_equal. lia.
    + apply withRecord_lookup.
    + simpl. apply Sub_lt.
      eapply (proj1 (Forall_lookup _ _)) in Hcs; eauto.
    + simpl. lia.
  - intros Hst Hc.
    assert (Hgo : rateLimit next w r st
                  = (httpError w rateLimitBody StatusTooManyRequests, st)).
    { rewrite (rateLimit_reject next w r st (withRecord l ip 0 c0.1)).
      - by rewrite <- Hst, setLimiter_same.
      - rewrite Hst. apply Hne.
      - by rewrite Hst, Hip, Hc. }
    split; [done|]. intros Hw. rewrite Hgo. cbn [fst]. by apply httpError_Code.
  - intros n Hst Hc. apply rateLimit_pass; rewrite Hst, ?Hip, ?Hc; [apply Hne | apply Hreset].
Qed.

(** The theorem at rate 2 and a window of 1000: two calls pass, the third is
    refused, a call 1000 later passes again. *)
Lemma rate_limit_fixed_window_witness :
  let l := limiter (newMiddleware EmptyString 2 1000) in
  (1 <= rate l <= maxInt64)
  ∧ inInt64 (window l)
  ∧ clients l !! "192.168.1.1:1234" = None
  ∧ Z.of_nat (length [(10, 10)]) = rate l - 1
  ∧ Forall (λ c : Z * Z, 0 <= c.1 - 0 < window l) [(10, 10)]
  ∧ 0 <= 20 - 0 < window l
  ∧ window l <= 1000 - 0
  ∧ allowMany l "192.168.1.1:1234" [(0, 0); (10, 10); (20, 20)]
    = ([true; true; false], withRecord l "192.168.1.1:1234" 0 0)
  ∧ allow (withRecord l "192.168.1.1:1234" 0 0) "192.168.1.1:1234" (1000, 1001)
    = (true, withRecord l "192.168.1.1:1234" 1 1001).
Proof.
  intros l.
  assert (H1 : 1 <= rate l <= maxInt64) by (unfold maxInt64; simpl; lia).
  assert (H2 : inInt64 (window l)) by (unfold inInt64, minInt64, maxInt64; simpl; lia).
  assert (H3 : clients l !! "192.168.1.1:1234" = None) by reflexivity.
  assert (H4 : Z.of_nat (length [(10, 10)]) = rate l - 1) by reflexivity.
  assert (H5 : Forall (λ c : Z * Z, 0 <= c.1 - (0, 0).1 < window l) [(10, 10)]).
  { constructor; [simpl; lia | constructor]. }
  assert (H6 : 0 <= (20, 20).1 - (0, 0).1 < window l) by (simpl; lia).
  assert (H7 : window l <= (1000, 1001).1 - (0, 0).1) by (simpl; lia).
  destruct (rate_limit_fixed_window l "192.168.1.1:1234" (0, 0) [(10, 10)] (20, 20)
              (1000, 1001) H1 H2 H3 H4 H5 H6 H7) as (_ & _ & Hrun & Hlate & _).
  exact (conj H1 (conj H2 (conj H3 (conj H4 (conj H5 (conj H6 (conj H7
           (conj Hrun (Hlate 0))))))))).
Defined.

(** [TestMiddlewareRateLimit_WindowReset] of the repository, on the model:
    rate 2, window 100ms; two requests pass, the third gets 429, and a
    request 150ms later passes. *)
Example middleware_window_reset :
  let m := newMiddleware EmptyString 2 100000000 in
  let st := {| rl := limiter m; calls := [] |} in
  let req t := Example.request "GET" "/" "192.168.1.1:1234" EmptyString EmptyString t in
  let run :=
    (fix run (rs : list Request) (st : World) : list Z :=
       match rs with
       | [] => []
       | r :: rest =>
           let '(w, st1) := rateLimit Example.okHandler NewRecorder r st in
           Code w :: run rest st1
       end) in
  run [req 0; req 1000; req 2000; req 152000000] st = [200; 200; 429; 200].
Proof. vm_compute. reflexivity. Qed.

(** What [HeaderGet] returns for a header that was not sent. *)
Lemma HeaderGet_missing (h : gmap string (list string)) (key : string) :
  h !! key = None → HeaderGet h key = EmptyString.
Proof. intros H. unfold HeaderGet. by rewrite H. Qed.

(** C2.  The auth gate.  With the empty string configured as key every
    request is passed to the wrapped handler, whatever its headers.  With a
    key [K] that is not empty, a request whose [X-API-Key] value is [K] is
    passed to the wrapped handler; a request with any other value, or
    without the header, gets the 401 answer, the state is unchanged and the
    wrapped handler has no part in the result. *)
Theorem auth_gate (key : string) (next : Handler) (w : ResponseWriter) (r : Request)
    (st : World) :
  (key = EmptyString → auth key next w r st = next w r st)
  ∧ (key ≠ EmptyString → HeaderGet (Header r) xApiKey = key →
     auth key next w r st = next w r st)
  ∧ (key ≠ EmptyString →
     HeaderGet (Header r) xApiKey ≠ key ∨ Header r !! xApiKey = None →
     auth key next w r st = (httpError w unauthorizedBody StatusUnauthorized, st)
     ∧ (wroteHeader w = false → Code (auth key next w r st).1 = StatusUnauthorized)
     ∧ (∀ next' : Handler, auth key next' w r st = auth key next w r st)).
Proof.
  split; [|split].
  - intros ->. unfold auth. by rewrite decide_True.
  - intros Hk Hh. unfold auth. rewrite decide_False by done.
    by rewrite decide_False by (intros H; by apply H).
  - intros Hk Hh.
    assert (Hne : HeaderGet (Header r) xApiKey ≠ key).
    { destruct Hh as [Hh|Hh]; [done|]. rewrite (HeaderGet_missing _ _ Hh). congruence. }
    assert (Hgo : ∀ n : Handler,
              auth key n w r st = (httpError w unauthorizedBody StatusUnauthorized, st)).
    { intros n. unfold auth. rewrite decide_False by done. by rewrite decide_True. }
    split; [apply Hgo|]. split.
    + intros Hw. rewrite Hgo. cbn [fst]. by apply httpError_Code.
    + intros n. by rewrite !Hgo.
Qed.

(** The four auth tests of the repository, on the model. *)
Example middleware_auth_tests :
  let code key sent :=
    Code (auth key Example.okHandler NewRecorder
            (Example.request "GET" "/" "10.0.0.1:80" sent EmptyString 0)
            {| rl := limiter (newMiddleware key 0 Second); calls := [] |}).1 in
  code EmptyString EmptyString = 200
  ∧ code "secret-key" "secret-key" = 200
  ∧ code "secret-key" "wrong-key" = 401
  ∧ code "secret-key" EmptyString = 401.
Proof. vm_compute. done. Qed.

(** The theorem at a concrete key and request. *)
Lemma auth_gate_witness :
  auth "secret-key" Example.okHandler NewRecorder
    (Example.request "GET" "/" "10.0.0.1:80" "wrong-key" EmptyString 0)
    (NewServer Example.cfg)
  = (httpError NewRecorder unauthorizedBody StatusUnauthorized, NewServer Example.cfg).
Proof.
  refine (proj1 (proj2 (proj2 (auth_gate "secret-key" Example.okHandler NewRecorder
    (Example.request "GET" "/" "10.0.0.1:80" "wrong-key" EmptyString 0)
    (NewServer Example.cfg))) _ _)).
  - discriminate.
  - left. vm_compute. discriminate.
Defined.

(** ** Range loops over maps *)

(** A loop that stores [g v] under every key [k] of [m]. *)
Lemma fold_insert_lookup {A B : Type} (g : A → B) (b : gmap string B) (m : gmap string A)
    (k : string) :
  map_fold (λ k v acc, <[k := g v]> acc) b m !! k
  = match m !! k with
    | Some v => Some (g v)
    | None => b !! k
    end.
Proof.
  revert k.
  apply (map_fold_weak_ind
           (λ (r : gmap string B) (m : gmap string A),
              ∀ k, r !! k = match m !! k with Some v => Some (g v) | None => b !! k end)).
  - intros k. by rewrite lookup_empty.
  - intros i x m' r Hi IH k. destruct (decide (i = k)) as [->|Hne].
    + by rewrite !lookup_insert_eq.
    + rewrite !lookup_insert_ne by done. apply IH.
Qed.

(** The sweep keeps exactly the records that are not stale, as they are. *)
Lemma cleanup_lookup (l : rateLimiter) (nowAt : string → Z) (ip : string) :
  clients (cleanup l nowAt) !! ip
  = match clients l !! ip with
    | Some cl => if stale l (nowAt ip) cl then None else Some cl
    | None => None
    end.
Proof.
  unfold cleanup. simpl.
  assert (H : ∀ b : gmap string clientLimiter, ∀ k,
    map_fold (λ ip cl acc, if stale l (nowAt ip) cl then delete ip acc else acc)
      b (clients l) !! k
    = match clients l !! k with
      | Some cl => if stale l (nowAt k) cl then None else b !! k
      | None => b !! k
      end).
  { intros b.
    apply (map_fold_weak_ind
             (λ (r : gmap string clientLimiter) (m : gmap string clientLimiter),
                ∀ k, r !! k = match m !! k with
                              | Some cl => if stale l (nowAt k) cl then None else b !! k
                              | None => b !! k
                              end)).
    - intros k. by rewrite lookup_empty.
    - intros i x m r Hi IH k. destruct (decide (i = k)) as [->|Hne].
      + rewrite lookup_insert_eq. destruct (stale l (nowAt k) x) eqn:E.
        * by rewrite lookup_delete_eq.
        * rewrite IH, Hi. done.
      + rewrite lookup_insert_ne by done. destruct (stale l (nowAt i) x).
        * rewrite lookup_delete_ne by done. apply IH.
        * apply IH. }
  rewrite H. by destruct (clients l !! ip).
Qed.

(** When five windows fit in a [time.Duration] and the clock reading is not
    before the record, the test of the sweep is the one of the text: the
    record is more than five windows old. *)
Lemma stale_spec (l : rateLimiter) (now : Z) (cl : clientLimiter) :
  inInt64 (window l * 5) → 0 <= now - last cl →
  stale l now cl = true ↔ window l * 5 < now - last cl.
Proof.
  intros Hw Hnow. unfold stale. rewrite bool_decide_eq_true, wrap64_id by done.
  unfold Since, Sub, inInt64, minInt64, maxInt64 in *. lia.
Qed.

(** [mergeMetadata] copies the caller's map entry by entry. *)
Lemma copy_map (m : gmap string string) :
  map_fold (λ k v acc, <[k := v]> acc) ∅ m = m.
Proof.
  apply map_eq. intros k.
  rewrite (fold_insert_lookup (λ v, v)). by destruct (m !! k).
Qed.

Lemma mergeMetadata_lookup (req : UploadTextRequest) (i : Z) (k : string) :
  mergeMetadata req i !! k
  = if decide (k = "chunk_index") then Some (fmtInt i)
    else if decide (k = "source" ∧ req_Source req ≠ EmptyString) then Some (req_Source req)
    else req_Metadata req !! k.
Proof.
  unfold mergeMetadata. rewrite copy_map.
  destruct (decide (k = "chunk_index")) as [->|Hk].
  - by rewrite lookup_insert_eq.
  - rewrite lookup_insert_ne by done.
    destruct (decide (req_Source req ≠ EmptyString)) as [Hs|Hs].
    + destruct (decide (k = "source")) as [->|Hk'].
      * rewrite lookup_insert_eq. by rewrite decide_True.
      * rewrite lookup_insert_ne by done. rewrite decide_False; [done | tauto].
    + rewrite decide_False; [done | tauto].
Qed.

(** The payload [Upsert] stores: every metadata entry as a string value,
    and the content under [content] unless the metadata has that key. *)
Lemma buildPayload_lookup (doc : Document) (k : string) :
  buildPayload doc !! k
  = match doc_Metadata doc !! k with
    | Some v => Some (StringValue v)
    | None => if decide (k = "content") then Some (StringValue (doc_Content doc)) else None
    end.
Proof.
  unfold buildPayload. rewrite (fold_insert_lookup StringValue).
  destruct (doc_Metadata doc !! k); [done|].
  destruct (decide (k = "content")) as [->|Hk].
  - by rewrite lookup_singleton_eq.
  - by rewrite lookup_singleton_ne.
Qed.

(** What [HybridSearch] reads back from a payload. *)
Lemma extractPayload_spec (payload : gmap string pbValue) :
  (extractPayload payload).1
  = match payload !! "content" with
    | Some v => GetStringValue v
    | None => EmptyString
    end
  ∧ ∀ k : string,
      (extractPayload payload).2 !! k
      = if decide (k = "content") then None
        else match payload !! k with
             | Some v =>
                 if decide (GetStringValue v ≠ EmptyString)
                 then Some (GetStringValue v) else None
             | None => None
             end.
Proof.
  unfold extractPayload.
  apply (map_fold_weak_ind
           (λ (acc : string * gmap string string) (m : gmap string pbValue),
              acc.1 = match m !! "content" with
                      | Some v => GetStringValue v
                      | None => EmptyString
                      end
              ∧ ∀ k : string,
                  acc.2 !! k
                  = if decide (k = "content") then None
                    else match m !! k with
                         | Some v =>
                             if decide (GetStringValue v ≠ EmptyString)
                             then Some (GetStringValue v) else None
                         | None => None
                         end)).
  - split; [done|]. intros k. simpl. rewrite !lookup_empty. by case_decide.
  - intros i x m [c pl] Hi [IH1 IH2]. simpl in IH1, IH2.
    destruct (decide (GetStringValue x ≠ EmptyString)) as [Hx|Hx].
    + destruct (decide (i = "content")) as [->|Hic]; simpl.
      * split; [by rewrite lookup_insert_eq|].
        intros k. rewrite IH2. case_decide; [done|]. by rewrite lookup_insert_ne.
      * split; [by rewrite lookup_insert_ne|].
        intros k. destruct (decide (i = k)) as [->|Hik].
        -- rewrite !lookup_insert_eq. rewrite decide_False by done.
           by rewrite decide_True.
        -- rewrite !lookup_insert_ne by done. apply IH2.
    + simpl. apply dec_stable in Hx. split.
      * destruct (decide (i = "content")) as [->|Hic].
        -- rewrite lookup_insert_eq, IH1, Hi. done.
        -- by rewrite lookup_insert_ne.
      * intros k. rewrite IH2. case_decide; [done|].
        destruct (decide (i = k)) as [->|Hik].
        -- rewrite lookup_insert_eq, Hi. rewrite decide_False; [done|].
           intros Hn. by apply Hn.
        -- by rewrite lookup_insert_ne.
Qed.

(** ** The handlers leave the limiter alone *)

(** Only [rateLimit] writes the limiter; everything below it threads the
    table through unchanged. *)
Lemma EmbedQuery_rl (X : Collab) (cfg : Config) (q : string) (st : World) :
  rl (EmbedQuery X cfg q st).2 = rl st.
Proof. unfold EmbedQuery. repeat case_match; done. Qed.

Lemma EmbedDocuments_rl (X : Collab) (cfg : Config) (docs : list string) (st : World) :
  rl (EmbedDocuments X cfg docs st).2 = rl st.
Proof. unfold EmbedDocuments. repeat case_match; done. Qed.

Lemma buildPoints_rl (X : Collab) (docs : list Document) :
  ∀ st : World, rl (buildPoints X docs st).2 = rl st.
Proof.
  induction docs as [|d docs IH]; intros st; [done|].
  cbn [buildPoints]. unfold buildPoint.
  destruct (decide (doc_ID d = EmptyString)).
  - specialize (IH (logCall st CallUuidNew)).
    destruct (buildPoints X docs (logCall st CallUuidNew)). simpl in *. by rewrite IH.
  - specialize (IH st). destruct (buildPoints X docs st). simpl in *. by rewrite IH.
Qed.

Lemma Upsert_rl (X : Collab) (c : string) (docs : list Document) (st : World) :
  rl (Upsert X c docs st).2 = rl st.
Proof.
  unfold Upsert. pose proof (buildPoints_rl X docs st) as H.
  destruct (buildPoints X docs st) as [ps st1]. simpl in H.
  by destruct (pointsUpsert X (calls st1) c ps).
Qed.

Lemma HybridSearch_rl (X : Collab) (c : string) (v : list float32)
    (sv : option SparseVector) (k : Z) (st : World) :
  rl (HybridSearch X c v sv k st).2 = rl st.
Proof. unfold HybridSearch. by case_match. Qed.

Lemma Retrieve_rl (X : Collab) (cfg : Config) (q : string) (st : World) :
  rl (Retrieve X cfg q st).2 = rl st.
Proof.
  unfold Retrieve. pose proof (EmbedQuery_rl X cfg q st) as H1.
  destruct (EmbedQuery X cfg q st) as [[v|e] st1]; simpl in H1; [|done].
  match goal with
  | |- context [HybridSearch ?a ?b ?c ?d ?e ?f] =>
      pose proof (HybridSearch_rl a b c d e f) as H2;
      destruct (HybridSearch a b c d e f) as [[res|e'] st2]
  end; simpl in H2; simpl; congruence.
Qed.

Lemma NewRunner_rl (X : Collab) (cfg : Config) (app : string)
    (rc : option RetrievedContext) (st : World) :
  rl (NewRunner X cfg app rc st).2 = rl st.
Proof. unfold NewRunner. repeat case_match; done. Qed.

Lemma buildDocs_rl (X : Collab) (req : UploadTextRequest) (embs : list (list float32))
    (chunks : list string) :
  ∀ (i : nat) (st : World), rl (buildDocs X req embs i chunks st).2 = rl st.
Proof.
  induction chunks as [|c chunks IH]; intros i st; [done|].
  cbn [buildDocs]. specialize (IH (S i) (logCall st CallUuidNew)).
  destruct (buildDocs X req embs (S i) chunks (logCall st CallUuidNew)) as [[ds ids] st2].
  simpl in *. by rewrite IH.
Qed.

Lemma handleUploadText_rl (X : Collab) (cfg : Config) (w : ResponseWriter) (r : Request)
    (st : World) :
  rl (handleUploadText X cfg w r st).2 = rl st.
Proof.
  unfold handleUploadText.
  destruct (decodeUpload X (Body r)) as [req|e]; [|done].
  case_decide; [done|].
  destruct (SplitText X (calls st) (req_Text req)) as [chunks|e]; [|done].
  case_decide; [done|].
  pose proof (EmbedDocuments_rl X cfg chunks (logCall st (CallSplitText (req_Text req)))) as H1.
  destruct (EmbedDocuments X cfg chunks _) as [[embs|e] st2]; simpl in H1; [|done].
  pose proof (buildDocs_rl X req embs chunks 0 st2) as H2.
  destruct (buildDocs X req embs 0 chunks st2) as [[docs ids] st3]. simpl in H2.
  pose proof (Upsert_rl X (cfg_Collection cfg) docs st3) as H3.
  destruct (Upsert X (cfg_Collection cfg) docs st3) as [[u|e] st4];
    simpl in *; congruence.
Qed.

Lemma handleSearch_rl (X : Collab) (cfg : Config) (w : ResponseWriter) (r : Request)
    (st : World) :
  rl (handleSearch X cfg w r st).2 = rl st.
Proof.
  unfold handleSearch.
  destruct (decodeSearch X (Body r)) as [req|e]; [|done].
  case_decide; [done|].
  pose proof (EmbedQuery_rl X cfg (req_Query req) st) as H1.
  destruct (EmbedQuery X cfg (req_Query req) st) as [[v|e] st1]; simpl in H1; [|done].
  match goal with
  | |- context [HybridSearch ?a ?b ?c ?d ?e ?f] =>
      pose proof (HybridSearch_rl a b c d e f) as H2;
      destruct (HybridSearch a b c d e f) as [[res|e'] st2]
  end; simpl in *; congruence.
Qed.

Lemma handleChat_rl (X : Collab) (cfg : Config) (w : ResponseWriter) (r : Request)
    (st : World) :
  rl (handleChat X cfg w r st).2 = rl st.
Proof.
  unfold handleChat.
  destruct (decodeChat X (Body r)) as [req|e]; [|done].
  case_decide; [done|].
  assert (Hs : rl (ensureSession X req st).2 = rl st).
  { unfold ensureSession. by case_decide. }
  destruct (ensureSession X req st) as [[sid|e] st1]; simpl in Hs; [|done].
  pose proof (Retrieve_rl X cfg (req_Message req) st1) as H1.
  destruct (Retrieve X cfg (req_Message req) st1) as [ret st2]. simpl in H1.
  match goal with
  | |- context [NewRunner ?a ?b ?c ?d ?e] =>
      pose proof (NewRunner_rl a b c d e) as H2;
      destruct (NewRunner a b c d e) as [[rn|e'] st3]
  end; simpl in H2; [|simpl; congruence].
  case_match; simpl; congruence.
Qed.

(** ** The sweep *)

Lemma rateLimit_keeps (next : Handler) : keepsRecords next → keepsRecords (rateLimit next).
Proof.
  intros Hn w r st ip Hip. unfold rateLimit. case_decide; [by apply Hn|].
  pose proof (allow_keeps (rl st) (RemoteAddr r) ip (Clock r) Hip) as Hk.
  destruct (allow (rl st) (RemoteAddr r) (Clock r)) as [[] l']; simpl in *.
  - by apply Hn.
  - done.
Qed.

Lemma auth_keeps (key : string) (next : Handler) : keepsRecords next → keepsRecords (auth key next).
Proof.
  intros Hn w r st ip Hip. unfold auth. repeat case_decide; try done; by apply Hn.
Qed.

Lemma keeps_of_rl (h : Handler) :
  (∀ w r st, rl (h w r st).2 = rl st) → keepsRecords h.
Proof. intros H w r st ip Hip. by rewrite H. Qed.

Lemma registerRoutes_keep (X : Collab) (cfg : Config) :
  Forall (λ rt, keepsRecords (rt_Handler rt)) (registerRoutes X cfg).
Proof.
  unfold registerRoutes, handleUploadTextV2, handleSearchV2, handleChatV2.
  repeat constructor; simpl;
    try (apply rateLimit_keeps, auth_keeps, keeps_of_rl;
         first [ apply handleUploadText_rl | apply handleSearch_rl | apply handleChat_rl ]);
    by apply keeps_of_rl.
Qed.

Lemma ServeHTTP_keeps (X : Collab) (cfg : Config) : keepsRecords (ServeHTTP X cfg).
Proof.
  intros w r st ip Hip. unfold ServeHTTP. case_decide; [done|].
  unfold muxServeHTTP.
  destruct (find _ (registerRoutes X cfg)) as [rt|] eqn:Ef.
  - apply find_some in Ef as [Hin _].
    pose proof (registerRoutes_keep X cfg) as Hall.
    rewrite Forall_forall in Hall. apply Hall; [|done]. by apply list_elem_of_In.
  - by destruct (allowedMethods _ _).
Qed.

(** What one run of the sweep does: it removes exactly the records for
    which its test [time.Since(cl.last) > rl.window*5] holds at the visit,
    and leaves every other record, and the configuration, as they were. *)
Lemma cleanup_exact (l : rateLimiter) (nowAt : string → Z) :
  rate (cleanup l nowAt) = rate l
  ∧ window (cleanup l nowAt) = window l
  ∧ ∀ (ip : string) (cl : clientLimiter),
      clients (cleanup l nowAt) !! ip = Some cl
      ↔ clients l !! ip = Some cl ∧ stale l (nowAt ip) cl = false.
Proof.
  split; [done|]. split; [done|]. intros ip cl. rewrite cleanup_lookup.
  destruct (clients l !! ip) as [cl'|].
  - destruct (stale l (nowAt ip) cl') eqn:E.
    + split; [done|]. intros [[= ->] Hs]. congruence.
    + split; [by intros [= ->] | by intros [? _]].
  - split; [done | by intros [? _]].
Qed.

(** C8.  Nothing the server does while it runs ever removes a record of the
    limiter: whatever requests it serves, and however much later, an
    address that has a record keeps one.  [cleanup] is reached from no
    route and no handler. *)
Theorem server_never_evicts (X : Collab) (cfg : Config) (rs : list Request) :
  ∀ (st : World) (ip : string),
    is_Some (clients (rl st) !! ip) →
    is_Some (clients (rl (serveAll X cfg rs st).2) !! ip).
Proof.
  induction rs as [|r rs IH]; intros st ip Hip; [done|].
  cbn [serveAll].
  pose proof (ServeHTTP_keeps X cfg NewRecorder r st ip Hip) as H1.
  destruct (ServeHTTP X cfg NewRecorder r st) as [w st1]. simpl in H1.
  specialize (IH st1 ip H1).
  destruct (serveAll X cfg rs st1) as [ws st2]. done.
Qed.

(** The failing run: a first client is served at time 0, a second one a
    minute later, with a window of one second.  The first client's record is
    then sixty windows old, the test of the sweep holds for it, a run of
    [cleanup] would remove it, and it is still in the table. *)
Lemma server_never_evicts_witness :
  let a := "10.0.0.1:5000" in
  let r1 := Example.request "POST" "/api/v1/search" a EmptyString "{}" 0 in
  let r2 := Example.request "POST" "/api/v1/search" "10.0.0.2:5000" EmptyString "{}"
              (60 * Second) in
  let st1 := (serveAll Example.collab Example.openCfg [r1] (NewServer Example.openCfg)).2 in
  let st2 := (serveAll Example.collab Example.openCfg [r2] st1).2 in
  is_Some (clients (rl st1) !! a)
  ∧ is_Some (clients (rl st2) !! a)
  ∧ clients (rl st2) !! a = Some {| tokens := 1; last := 0 |}
  ∧ stale (rl st2) (60 * Second) {| tokens := 1; last := 0 |} = true
  ∧ clients (cleanup (rl st2) (λ _, 60 * Second)) !! a = None.
Proof.
  intros a r1 r2 st1 st2.
  assert (H1 : is_Some (clients (rl st1) !! a)).
  { exists {| tokens := 1; last := 0 |}. vm_compute. reflexivity. }
  split; [exact H1|]. split.
  - exact (server_never_evicts Example.collab Example.openCfg [r2] st1 a H1).
  - split; [vm_compute; reflexivity|]. split; vm_compute; reflexivity.
Defined.

(** ** Validation *)

(** Closes a branch in which the handler answered with an error status
    although the response is known to carry another one. *)
Ltac wrong_status Hbad H :=
  exfalso; eapply Hbad; [exact H | intros Heq; vm_compute in Heq; discriminate].

Lemma writeJSON_Code (w : ResponseWriter) (status : Z) (data : Payload) :
  wroteHeader w = false → Code (writeJSON w status data) = status.
Proof. intros H. unfold writeJSON, Write, WriteHeader. simpl. by rewrite H. Qed.

Lemma writeJSON_Written (w : ResponseWriter) (status : Z) (data : Payload) :
  Written (writeJSON w status data) = Written w ++ [data].
Proof. unfold writeJSON. by rewrite Write_Written, WriteHeader_Written. Qed.

Lemma writeError_Code (w : ResponseWriter) (status : Z) (message : string) :
  wroteHeader w = false → Code (writeError w status message) = status.
Proof. apply writeJSON_Code. Qed.

(** C4.  An upload whose text is the empty string and a search whose query
    is the empty string are answered with the validation error, status 400,
    and the state, with its log of calls to the splitter, the embedding
    model and the index, is returned as it was: no downstream call is
    made. *)
Theorem empty_input_rejected (X : Collab) (cfg : Config) (w : ResponseWriter) (r : Request)
    (st : World) :
  (∀ req : UploadTextRequest,
     decodeUpload X (Body r) = Ok req → req_Text req = EmptyString →
     handleUploadText X cfg w r st
     = (writeError w StatusBadRequest "Text field is required", st)
     ∧ calls (handleUploadText X cfg w r st).2 = calls st
     ∧ (wroteHeader w = false →
        Code (handleUploadText X cfg w r st).1 = StatusBadRequest))
  ∧ (∀ req : SearchRequest,
       decodeSearch X (Body r) = Ok req → req_Query req = EmptyString →
       handleSearch X cfg w r st
       = (writeError w StatusBadRequest "Query field is required", st)
       ∧ calls (handleSearch X cfg w r st).2 = calls st
       ∧ (wroteHeader w = false →
          Code (handleSearch X cfg w r st).1 = StatusBadRequest)).
Proof.
  split.
  - intros req Hd Ht.
    assert (Hgo : handleUploadText X cfg w r st
                  = (writeError w StatusBadRequest "Text field is required", st)).
    { unfold handleUploadText. rewrite Hd. by rewrite decide_True. }
    rewrite Hgo. split; [done|]. split; [done|]. apply writeError_Code.
  - intros req Hd Ht.
    assert (Hgo : handleSearch X cfg w r st
                  = (writeError w StatusBadRequest "Query field is required", st)).
    { unfold handleSearch. rewrite Hd. by rewrite decide_True. }
    rewrite Hgo. split; [done|]. split; [done|]. apply writeError_Code.
Qed.

(** The theorem on the body [{}], which decodes to an empty text and to an
    empty query. *)
Lemma empty_input_rejected_witness :
  let r := Example.request "POST" "/api/v1/upload_text" "10.0.0.1:80" EmptyString "{}" 0 in
  let st := NewServer Example.cfg in
  Code (handleUploadText Example.collab Example.cfg NewRecorder r st).1 = StatusBadRequest
  ∧ calls (handleUploadText Example.collab Example.cfg NewRecorder r st).2 = []
  ∧ Code (handleSearch Example.collab Example.cfg NewRecorder r st).1 = StatusBadRequest
  ∧ calls (handleSearch Example.collab Example.cfg NewRecorder r st).2 = [].
Proof.
  intros r st.
  destruct (empty_input_rejected Example.collab Example.cfg NewRecorder r st) as [Hu Hs].
  destruct (Hu {| req_Text := EmptyString; req_Metadata := ∅; req_Source := EmptyString |}
              eq_refl eq_refl) as (_ & Hu2 & Hu3).
  destruct (Hs {| req_Query := EmptyString; req_TopK := 0 |} eq_refl eq_refl)
    as (_ & Hs2 & Hs3).
  exact (conj (Hu3 eq_refl) (conj Hu2 (conj (Hs3 eq_refl) Hs2))).
Defined.

(** ** Ingestion *)

(** When [EmbedDocuments] succeeds it returns one vector per document, so
    [embeddings[i]] in the document loop is always in range. *)
Lemma EmbedDocuments_length (X : Collab) (cfg : Config) (documents : list string)
    (st st' : World) (embeddings : list (list float32)) :
  EmbedDocuments X cfg documents st = (Ok embeddings, st') →
  length embeddings = length documents.
Proof.
  unfold EmbedDocuments.
  destruct (EmbedContent X (calls st) (modelName cfg) documents) as [[l|]|e]; [|done..].
  case_decide as Hl; [done|]. by intros [= <- _].
Qed.

Lemma EmbedDocuments_calls (X : Collab) (cfg : Config) (documents : list string) (st : World) :
  calls (EmbedDocuments X cfg documents st).2
  = calls st ++ [CallEmbedContent (modelName cfg) documents].
Proof. unfold EmbedDocuments. repeat case_match; done. Qed.

(** A vector count that differs from the document count, a nil result
    included, is an error of [EmbedDocuments]. *)
Lemma EmbedDocuments_mismatch (X : Collab) (cfg : Config) (documents : list string)
    (st : World) (embs : option (list (list float32))) :
  EmbedContent X (calls st) (modelName cfg) documents = Ok embs →
  embs = None ∨ lenOpt embs ≠ Z.of_nat (length documents) →
  EmbedDocuments X cfg documents st
  = (Err ("unexpected number of embeddings: got " +:+ fmtInt (lenOpt embs)
          +:+ ", expected " +:+ fmtInt (Z.of_nat (length documents))),
     logCall st (CallEmbedContent (modelName cfg) documents)).
Proof.
  intros He Hm. unfold EmbedDocuments. rewrite He.
  destruct embs as [l|]; [|done].
  destruct Hm as [Hm|Hm]; [done|]. simpl in Hm.
  rewrite decide_True; [done | lia].
Qed.

(** C6.  When the embedding provider answers an ingestion with a number of
    vectors that is not the number of chunks, or with nil, the request
    fails with status 500, and the only calls made are the one to the
    splitter and the one to the provider: nothing is upserted. *)
Theorem embedding_mismatch_fails (X : Collab) (cfg : Config) (w : ResponseWriter)
    (r : Request) (st : World) (req : UploadTextRequest) (chunks : list string)
    (embs : option (list (list float32))) :
  decodeUpload X (Body r) = Ok req →
  req_Text req ≠ EmptyString →
  SplitText X (calls st) (req_Text req) = Ok chunks →
  chunks ≠ [] →
  EmbedContent X (calls st ++ [CallSplitText (req_Text req)]) (modelName cfg) chunks = Ok embs →
  embs = None ∨ lenOpt embs ≠ Z.of_nat (length chunks) →
  ∃ st' : World,
    handleUploadText X cfg w r st
    = (writeError w StatusInternalServerError
         ("Failed to generate embeddings: "
          +:+ ("unexpected number of embeddings: got " +:+ fmtInt (lenOpt embs)
               +:+ ", expected " +:+ fmtInt (Z.of_nat (length chunks)))), st')
    ∧ (wroteHeader w = false →
       Code (handleUploadText X cfg w r st).1 = StatusInternalServerError)
    ∧ calls st'
      = calls st ++ [CallSplitText (req_Text req); CallEmbedContent (modelName cfg) chunks]
    ∧ ∀ (c : string) (ps : list PointStruct),
        CallPointsUpsert c ps ∈ calls st' → CallPointsUpsert c ps ∈ calls st.
Proof.
  intros Hd Ht Hs Hc He Hm.
  exists (logCall (logCall st (CallSplitText (req_Text req)))
            (CallEmbedContent (modelName cfg) chunks)).
  assert (Hgo : handleUploadText X cfg w r st
    = (writeError w StatusInternalServerError
         ("Failed to generate embeddings: "
          +:+ ("unexpected number of embeddings: got " +:+ fmtInt (lenOpt embs)
               +:+ ", expected " +:+ fmtInt (Z.of_nat (length chunks)))),
       logCall (logCall st (CallSplitText (req_Text req)))
         (CallEmbedContent (modelName cfg) chunks))).
  { unfold handleUploadText. rewrite Hd, decide_False by done. rewrite Hs.
    rewrite decide_False by (by destruct chunks).
    by rewrite (EmbedDocuments_mismatch X cfg chunks
                  (logCall st (CallSplitText (req_Text req))) embs He Hm). }
  split; [done|]. split.
  - intros Hw. rewrite Hgo. cbn [fst]. by apply writeError_Code.
  - split.
    + simpl. by rewrite <- app_assoc.
    + intros c ps. simpl. rewrite !elem_of_app, !list_elem_of_singleton.
      intros [[H|H]|H]; done.
Qed.

(** The theorem with a model that returns one vector for two chunks. *)
Lemma embedding_mismatch_fails_witness :
  let r := Example.request "POST" "/api/v1/upload_text" "10.0.0.1:80" EmptyString "hello" 0 in
  let st := NewServer Example.cfg in
  Code (handleUploadText Example.shortModel Example.cfg NewRecorder r st).1
  = StatusInternalServerError
  ∧ calls (handleUploadText Example.shortModel Example.cfg NewRecorder r st).2
    = [CallSplitText "hello"; CallEmbedContent "gemini-embedding-001" ["hello"; "tail"]].
Proof.
  intros r st.
  destruct (embedding_mismatch_fails Example.shortModel Example.cfg NewRecorder r st
              {| req_Text := "hello";
                 req_Metadata := {[ "content" := "spoofed"; "author" := "eve" ]};
                 req_Source := "notes.txt" |}
              ["hello"; "tail"] (Some [[F32 0]]))
    as (st' & Hgo & Hcode & Hcalls & _).
  - reflexivity.
  - discriminate.
  - reflexivity.
  - discriminate.
  - reflexivity.
  - right. simpl. lia.
  - split; [exact (Hcode eq_refl)|]. rewrite Hgo. exact Hcalls.
Defined.

(** The documents the loop of [handleUploadText] builds: one per chunk, in
    chunk order, each with a fresh id that is also the id returned. *)
Lemma buildDocs_spec (X : Collab) (req : UploadTextRequest) (embs : list (list float32))
    (chunks : list string) :
  ∀ (i : nat) (st st' : World) (docs : list Document) (ids : list string),
    buildDocs X req embs i chunks st = (docs, ids, st') →
    ids = doc_ID <$> docs
    ∧ doc_Content <$> docs = chunks
    ∧ ∀ (j : nat) (doc : Document),
        docs !! j = Some doc →
        doc_Metadata doc = mergeMetadata req (Z.of_nat (i + j))
        ∧ doc_Dense doc = default [] (embs !! (i + j)%nat)
        ∧ doc_Sparse doc = None.
Proof.
  induction chunks as [|c chunks IH]; intros i st st' docs ids H.
  - simpl in H. injection H as <- <- <-. split; [done|]. split; [done|]. by intros j doc.
  - cbn [buildDocs] in H.
    destruct (buildDocs X req embs (S i) chunks (logCall st CallUuidNew))
      as [[ds is'] st2] eqn:E.
    injection H as <- <- <-.
    destruct (IH _ _ _ _ _ E) as (H1 & H2 & H3).
    split; [by rewrite fmap_cons, H1|]. split; [by rewrite fmap_cons, H2|].
    intros [|j] doc Hj.
    + injection Hj as <-. simpl. by rewrite Nat.add_0_r.
    + simpl in Hj. destruct (H3 j doc Hj) as (Ha & Hb & Hc).
      rewrite Ha, Hb. replace (i + S j)%nat with (S i + j)%nat by lia. done.
Qed.

Lemma Upsert_calls (X : Collab) (collection : string) (docs : list Document) (st : World) :
  CallPointsUpsert collection (buildPoints X docs st).1 ∈ calls (Upsert X collection docs st).2.
Proof.
  unfold Upsert. destruct (buildPoints X docs st) as [ps st1]. simpl.
  destruct (pointsUpsert X (calls st1) collection ps); simpl;
    rewrite elem_of_app, list_elem_of_singleton; by right.
Qed.

(** C5.  When an upload is answered with status 200, the text was not empty
    and the response carries one id per chunk the splitter produced,
    [chunk_count] being that number; the ids are those of the documents
    handed to the index, in chunk order: the id at position [i] is the id of
    the document whose content is chunk [i]. *)
Theorem ingest_returns_chunk_ids (X : Collab) (cfg : Config) (w w' : ResponseWriter)
    (r : Request) (st st' : World) :
  wroteHeader w = false →
  handleUploadText X cfg w r st = (w', st') →
  Code w' = StatusOK →
  ∃ (req : UploadTextRequest) (chunks : list string) (docs : list Document)
    (ids : list string) (st3 : World),
    decodeUpload X (Body r) = Ok req
    ∧ req_Text req ≠ EmptyString
    ∧ SplitText X (calls st) (req_Text req) = Ok chunks
    ∧ Written w'
      = Written w ++ [PUpload {| up_Message := "Text uploaded and chunked successfully";
                                 up_ChunkCount := Z.of_nat (length chunks);
                                 up_ChunkIDs := ids |}]
    ∧ length ids = length chunks
    ∧ length docs = length chunks
    ∧ (∀ (i : nat) (id : string),
         ids !! i = Some id →
         ∃ (doc : Document) (chunk : string),
           docs !! i = Some doc ∧ chunks !! i = Some chunk
           ∧ doc_ID doc = id ∧ doc_Content doc = chunk)
    ∧ CallPointsUpsert (cfg_Collection cfg) (buildPoints X docs st3).1 ∈ calls st'.
Proof.
  intros Hw H Hcode. unfold handleUploadText in H.
  assert (Hbad : ∀ (s : Z) (m : string) (x : World),
            (writeError w s m, x) = (w', st') → s ≠ StatusOK → False).
  { intros s m x [= <- _] Hs. rewrite writeError_Code in Hcode; done. }
  destruct (decodeUpload X (Body r)) as [req|e] eqn:Edec; [|wrong_status Hbad H].
  case_decide as Htext; [wrong_status Hbad H|].
  destruct (SplitText X (calls st) (req_Text req)) as [chunks|e] eqn:Es;
    [|wrong_status Hbad H].
  case_decide as Hlen; [wrong_status Hbad H|].
  destruct (EmbedDocuments X cfg chunks _) as [[embs|e] st2]; [|wrong_status Hbad H].
  destruct (buildDocs X req embs 0 chunks st2) as [[docs ids] st3] eqn:Ed.
  pose proof (Upsert_calls X (cfg_Collection cfg) docs st3) as Hup.
  destruct (Upsert X (cfg_Collection cfg) docs st3) as [[u|e] st4]; [|wrong_status Hbad H].
  injection H as <- <-. simpl in Hup.
  destruct (buildDocs_spec X req embs chunks 0 st2 st3 docs ids Ed) as (Hids & Hcont & _).
  assert (Hld : length docs = length chunks) by (by rewrite <- Hcont, length_fmap).
  exists req, chunks, docs, ids, st3.
  repeat split; try done.
  - apply writeJSON_Written.
  - by rewrite Hids, length_fmap.
  - intros i id Hi. rewrite Hids, list_lookup_fmap in Hi.
    destruct (docs !! i) as [doc|] eqn:Edoc; [|done]. injection Hi as <-.
    exists doc, (doc_Content doc). repeat split; try done.
    by rewrite <- Hcont, list_lookup_fmap, Edoc.
Qed.

(** The theorem on an upload of two chunks. *)
Lemma ingest_returns_chunk_ids_witness :
  let r := Example.request "POST" "/api/v1/upload_text" "10.0.0.1:80" EmptyString "hello" 0 in
  let out := handleUploadText Example.collab Example.cfg NewRecorder r (NewServer Example.cfg) in
  wroteHeader NewRecorder = false
  ∧ Code out.1 = StatusOK
  ∧ ∃ (chunks : list string) (ids : list string),
      Written out.1
        = [PUpload {| up_Message := "Text uploaded and chunked successfully";
                      up_ChunkCount := Z.of_nat (length chunks);
                      up_ChunkIDs := ids |}]
      ∧ length ids = length chunks.
Proof.
  intros r out.
  assert (Hc : Code out.1 = StatusOK) by (vm_compute; reflexivity).
  destruct (ingest_returns_chunk_ids Example.collab Example.cfg NewRecorder out.1 r
              (NewServer Example.cfg) out.2 eq_refl (surjective_pairing out) Hc)
    as (req & chunks & docs & ids & st3 & _ & _ & _ & Hw & Hl & _).
  split; [reflexivity|]. split; [exact Hc|].
  exists chunks, ids. exact (conj Hw Hl).
Defined.

(** The same upload, run: two chunks, two documents, the two ids in order. *)
Example upload_two_chunks :
  let r := Example.request "POST" "/api/v1/upload_text" "10.0.0.1:80" EmptyString "hello" 0 in
  let out := handleUploadText Example.collab Example.cfg NewRecorder r (NewServer Example.cfg) in
  Written out.1
  = [PUpload {| up_Message := "Text uploaded and chunked successfully";
                up_ChunkCount := 2;
                up_ChunkIDs := ["id-2"; "id-3"] |}].
Proof. vm_compute. reflexivity. Qed.

(** ** Chat *)

Arguments writeJSON : simpl never.
Arguments writeError : simpl never.

(** Without a retrieved context, and with an empty one, [NewRunner] writes
    nothing between the configured instruction and the strategy. *)
Lemma contextString_nil (X : Collab) : contextString X None = EmptyString.
Proof. done. Qed.

Lemma contextString_empty (X : Collab) (q : string) :
  contextString X (Some {| rc_Documents := []; rc_Query := q |}) = EmptyString.
Proof. done. Qed.

(** Both failures of [Retrieve] return an error, that is a nil context. *)
Lemma Retrieve_index_error (X : Collab) (cfg : Config) (query : string) (st : World)
    (v : list float32) (st1 : World) (e : string) :
  EmbedQuery X cfg query st = (Ok v, st1) →
  (∀ q : QueryPoints, pointsQuery X (calls st1) q = Err e) →
  ∃ st2 : World,
    Retrieve X cfg query st = (Err ("retrieval failed: " +:+ ("failed to search: " +:+ e)), st2).
Proof.
  intros Hq He. unfold Retrieve, HybridSearch. rewrite Hq, He. eauto.
Qed.

(** C7.  A chat request whose retrieval step fails is not aborted.  The
    handler goes on exactly as with a nil context: it calls [NewRunner]
    with no retrieved context, so the instruction is the configured one
    followed by the strategy, with no documents section; the agent is
    created from that instruction; and the only failures left are those of
    the agent itself.  When the agent and the runner are created and the run
    yields no error, the answer is the 200 response with the texts of the
    run concatenated and the session id. *)
Theorem chat_survives_retrieval_failure (X : Collab) (cfg : Config) (w : ResponseWriter)
    (r : Request) (st st1 st2 : World) (req : ChatRequest) (sessionID e : string) :
  decodeChat X (Body r) = Ok req →
  req_Message req ≠ EmptyString →
  ensureSession X req st = (Ok sessionID, st1) →
  Retrieve X cfg (req_Message req) st1 = (Err e, st2) →
  let app := "agentic_rag_go" in
  let ac := {| ag_Name := cfg_AgentName cfg;
               ag_Description := cfg_AgentDescription cfg;
               ag_Instruction := buildInstruction (cfg_AgentInstruction cfg) EmptyString;
               ag_Tools := [GoogleSearch] |} in
  let runner := {| run_AppName := app; run_Agent := ac |} in
  handleChat X cfg w r st
  = (let '(rn, st3) := NewRunner X cfg app None st2 in
     match rn with
     | Err e' =>
         (writeError w StatusInternalServerError ("Failed to create runner: " +:+ e'), st3)
     | Ok rn =>
         let st4 := logCall st3 (CallRunnerRun rn (chatUserID req) sessionID (req_Message req)) in
         match drain (runnerRun X (calls st3) rn (chatUserID req) sessionID (req_Message req))
                 EmptyString with
         | Err e' => (writeError w StatusInternalServerError ("Agent error: " +:+ e'), st4)
         | Ok text =>
             (writeJSON w StatusOK
                (PChat {| chat_Response := text; chat_SessionID := sessionID |}), st4)
         end
     end)
  ∧ CallAgentNew ac ∈ calls (handleChat X cfg w r st).2
  ∧ (∀ text : string,
       llmagentNew X (calls st2) ac = Ok tt →
       runnerNew X (calls st2 ++ [CallAgentNew ac]) app ac = Ok tt →
       drain (runnerRun X (calls st2 ++ [CallAgentNew ac; CallRunnerNew app ac]) runner
                (chatUserID req) sessionID (req_Message req)) EmptyString = Ok text →
       (handleChat X cfg w r st).1
       = writeJSON w StatusOK (PChat {| chat_Response := text; chat_SessionID := sessionID |})
       ∧ calls (handleChat X cfg w r st).2
         = calls st2 ++ [CallAgentNew ac; CallRunnerNew app ac;
                         CallRunnerRun runner (chatUserID req) sessionID (req_Message req)]
       ∧ (wroteHeader w = false → Code (handleChat X cfg w r st).1 = StatusOK)).
Proof.
  intros Hd Hm Hs Hr app ac runner.
  assert (Hgo : handleChat X cfg w r st
    = (let '(rn, st3) := NewRunner X cfg app None st2 in
       match rn with
       | Err e' =>
           (writeError w StatusInternalServerError ("Failed to create runner: " +:+ e'), st3)
       | Ok rn =>
           let st4 :=
             logCall st3 (CallRunnerRun rn (chatUserID req) sessionID (req_Message req)) in
           match drain (runnerRun X (calls st3) rn (chatUserID req) sessionID
                          (req_Message req)) EmptyString with
           | Err e' => (writeError w StatusInternalServerError ("Agent error: " +:+ e'), st4)
           | Ok text =>
               (writeJSON w StatusOK
                  (PChat {| chat_Response := text; chat_SessionID := sessionID |}), st4)
           end
       end)).
  { unfold handleChat. rewrite Hd, decide_False by done. by rewrite Hs, Hr. }
  split; [exact Hgo|]. rewrite Hgo. clear Hgo.
  unfold NewRunner. rewrite contextString_nil. fold ac.
  split.
  - destruct (llmagentNew X (calls st2) ac) as [[]|e1]; simpl.
    + destruct (runnerNew X _ app ac) as [[]|e2]; simpl.
      * destruct (drain _ _); simpl; rewrite !elem_of_app, !list_elem_of_singleton; tauto.
      * rewrite !elem_of_app, !list_elem_of_singleton; tauto.
    + rewrite !elem_of_app, !list_elem_of_singleton; tauto.
  - intros text Ha Hn Hrun. rewrite Ha. simpl. rewrite Hn. simpl.
    fold runner. rewrite <- app_assoc. simpl. rewrite Hrun. simpl.
    split; [done|]. split.
    + by rewrite <- !app_assoc.
    + intros Hw. unfold WriteHeader. simpl. by rewrite Hw.
Qed.

(** The theorem on a deployment whose index refuses every query: the chat
    request is still answered. *)
Lemma chat_survives_retrieval_failure_witness :
  let r := Example.request "POST" "/api/v1/chat" "10.0.0.1:80" EmptyString "What is RAG?" 0 in
  let st := NewServer Example.cfg in
  (Retrieve Example.indexDown Example.cfg "What is RAG?"
     (logCall st (CallSessionCreate "agentic_rag_go" "default_user"))).1
  = Err "retrieval failed: failed to search: connection refused"
  ∧ (handleChat Example.indexDown Example.cfg NewRecorder r st).1
    = writeJSON NewRecorder StatusOK
        (PChat {| chat_Response := "Hello, world!"; chat_SessionID := "session-1" |}).
Proof.
  intros r st. split; [vm_compute; reflexivity|].
  edestruct (chat_survives_retrieval_failure Example.indexDown Example.cfg NewRecorder r st)
    as (_ & _ & H).
  - reflexivity.
  - discriminate.
  - reflexivity.
  - vm_compute. reflexivity.
  - destruct (H "Hello, world!") as (Hout & _).
    + reflexivity.
    + reflexivity.
    + vm_compute. reflexivity.
    + exact Hout.
Defined.

(** The instruction the agent gets in that run: the configured instruction,
    two blank lines, the strategy. *)
Example instruction_without_context :
  buildInstruction "You are a helpful assistant." (contextString Example.indexDown None)
  = "You are a helpful assistant." +:+ nl +:+ nl +:+ nl +:+ nl +:+ strategy.
Proof. reflexivity. Qed.

(** ** Caller metadata and the stored payload *)

Lemma buildPoint_payload (X : Collab) (doc : Document) (st : World) :
  pt_Payload (buildPoint X doc st).1 = buildPayload doc.
Proof. unfold buildPoint. by case_decide. Qed.

(** The content a search reads back from a stored payload is the string
    stored under [content]. *)
Lemma toSearchResult_content (sp : ScoredPoint) (v : string) :
  sp_Payload sp !! "content" = Some (StringValue v) →
  res_Content (toSearchResult sp) = v.
Proof.
  intros H. unfold toSearchResult. simpl.
  destruct (extractPayload_spec (sp_Payload sp)) as [Hc _]. by rewrite Hc, H.
Qed.

(** C10.  Take a document the upload handler builds for a request whose
    metadata has the key [content], with value [v].  The payload [Upsert]
    stores for it has [v] under [content], not the chunk text; the stored
    point is the same whatever the chunk text was; a search that gets this
    payload back returns [v] as the content of the result.  The handler's
    own [chunk_index], and its [source] when the request names one, are
    written after the caller's entries and win over them; every other
    caller entry is stored as the caller sent it. *)
Theorem metadata_content_overrides_chunk (X : Collab) (req : UploadTextRequest)
    (embs : list (list float32)) (chunks : list string) (i : nat) (st st' : World)
    (docs : list Document) (ids : list string) (j : nat) (doc : Document) (v : string) :
  buildDocs X req embs i chunks st = (docs, ids, st') →
  docs !! j = Some doc →
  req_Metadata req !! "content" = Some v →
  (∀ stA : World, pt_Payload (buildPoint X doc stA).1 = buildPayload doc)
  ∧ buildPayload doc !! "content" = Some (StringValue v)
  ∧ (∀ (text : string) (stA : World),
       buildPoint X (withContent doc text) stA = buildPoint X doc stA)
  ∧ (∀ sp : ScoredPoint,
       sp_Payload sp = buildPayload doc →
       res_Content (toSearchResult sp) = v
       ∧ item_Content (toItem (toSearchResult sp)) = v)
  ∧ buildPayload doc !! "chunk_index" = Some (StringValue (fmtInt (Z.of_nat (i + j))))
  ∧ (req_Source req ≠ EmptyString →
     buildPayload doc !! "source" = Some (StringValue (req_Source req)))
  ∧ (∀ k u : string,
       k ≠ "chunk_index" → k ≠ "source" ∨ req_Source req = EmptyString →
       req_Metadata req !! k = Some u →
       buildPayload doc !! k = Some (StringValue u)).
Proof.
  intros Hb Hj Hv.
  destruct (buildDocs_spec X req embs chunks i st st' docs ids Hb) as (_ & _ & Hmd).
  destruct (Hmd j doc Hj) as (Hmeta & _ & _).
  assert (Hlk : ∀ k : string,
            buildPayload doc !! k
            = match mergeMetadata req (Z.of_nat (i + j)) !! k with
              | Some u => Some (StringValue u)
              | None => if decide (k = "content")
                        then Some (StringValue (doc_Content doc)) else None
              end).
  { intros k. by rewrite buildPayload_lookup, Hmeta. }
  assert (Hcontent : buildPayload doc !! "content" = Some (StringValue v)).
  { rewrite Hlk, mergeMetadata_lookup. rewrite decide_False by done.
    rewrite decide_False by (by intros [? _]). by rewrite Hv. }
  split; [intros stA; apply buildPoint_payload|].
  split; [exact Hcontent|].
  split.
  { intros text stA.
    assert (Hp : buildPayload (withContent doc text) = buildPayload doc).
    { apply map_eq. intros k. rewrite !buildPayload_lookup. simpl.
      destruct (doc_Metadata doc !! k) eqn:E; [done|].
      case_decide as Hk; [|done]. subst k.
      rewrite Hmeta, mergeMetadata_lookup in E. rewrite decide_False in E by done.
      rewrite decide_False in E by (by intros [? _]). congruence. }
    unfold buildPoint. simpl. rewrite Hp. done. }
  split.
  { intros sp Hsp.
    assert (Hr : res_Content (toSearchResult sp) = v).
    { apply toSearchResult_content. by rewrite Hsp. }
    split; [exact Hr|]. exact Hr. }
  split.
  { rewrite Hlk, mergeMetadata_lookup. by rewrite decide_True. }
  split.
  { intros Hs. rewrite Hlk, mergeMetadata_lookup. rewrite decide_False by done.
    by rewrite decide_True. }
  intros k u Hk Hks Hu. rewrite Hlk, mergeMetadata_lookup.
  rewrite decide_False by done.
  rewrite decide_False by (intros [? ?]; destruct Hks; done).
  by rewrite Hu.
Qed.

(** The theorem on the upload of the example, whose caller sends
    [content := spoofed]: the first stored point carries [spoofed]. *)
Lemma metadata_content_overrides_chunk_witness :
  let req := {| req_Text := "hello";
                req_Metadata := {[ "content" := "spoofed"; "author" := "eve" ]};
                req_Source := "notes.txt" |} in
  let out := buildDocs Example.collab req [[F32 0]; [F32 0]] 0 ["hello"; "tail"]
               (NewServer Example.cfg) in
  ∃ doc : Document,
    out.1.1 !! 0%nat = Some doc
    ∧ doc_Content doc = "hello"
    ∧ buildPayload doc !! "content" = Some (StringValue "spoofed")
    ∧ buildPayload doc !! "source" = Some (StringValue "notes.txt").
Proof.
  intros req out.
  destruct out as [[docs ids] st'] eqn:E.
  destruct docs as [|doc docs]; [discriminate E|].
  assert (Hdoc : doc_Content doc = "hello") by (injection E as <- _ _; reflexivity).
  destruct (metadata_content_overrides_chunk Example.collab req [[F32 0]; [F32 0]]
              ["hello"; "tail"] 0 (NewServer Example.cfg) st' (doc :: docs) ids 0 doc
              "spoofed" E eq_refl eq_refl) as (_ & Hc & _ & _ & _ & Hs & _).
  exists doc. split; [reflexivity|]. split; [exact Hdoc|]. split; [exact Hc|].
  apply Hs. discriminate.
Defined.

(** The upload of the example followed by a search that gets the stored
    payload of the first chunk back: the result's content is [spoofed] and
    the text [hello] of the chunk is nowhere in it. *)
Example spoofed_content_round_trip :
  let req := {| req_Text := "hello";
                req_Metadata := {[ "content" := "spoofed"; "author" := "eve" ]};
                req_Source := EmptyString |} in
  let doc := {| doc_ID := "id-2"; doc_Content := "hello";
                doc_Metadata := mergeMetadata req 0;
                doc_Dense := [F32 0]; doc_Sparse := None |} in
  let sp := {| sp_Id := Some (PointId_Uuid "id-2");
               sp_Payload := buildPayload doc; sp_Score := F32 0 |} in
  toSearchResult sp
  = {| res_ID := "id-2"; res_Score := F32 0; res_Content := "spoofed";
       res_Payload := {[ "author" := "eve"; "chunk_index" := "0" ]} |}.
Proof. vm_compute. reflexivity. Qed.

(** ** Routes *)

(** The handler the mux picks for a method and a path of the table. *)
Lemma ServeHTTP_route (X : Collab) (cfg : Config) (rt : Route) (w : ResponseWriter)
    (r : Request) (st : World) :
  Method r ≠ "OPTIONS" →
  find (λ rt, methodMatches (rt_Method rt) (Method r) && pathMatches (rt_Path rt) (Path r))
    (registerRoutes X cfg) = Some rt →
  ServeHTTP X cfg w r st = rt_Handler rt (withCORS w) r st.
Proof.
  intros Hm Hf. unfold ServeHTTP, muxServeHTTP. rewrite decide_False by done.
  by rewrite Hf.
Qed.

Lemma ServeHTTP_not_found (X : Collab) (cfg : Config) (w : ResponseWriter) (r : Request)
    (st : World) :
  Method r ≠ "OPTIONS" →
  find (λ rt, methodMatches (rt_Method rt) (Method r) && pathMatches (rt_Path rt) (Path r))
    (registerRoutes X cfg) = None →
  allowedMethods (registerRoutes X cfg) (Path r) = [] →
  ServeHTTP X cfg w r st = (httpError (withCORS w) "404 page not found" StatusNotFound, st).
Proof.
  intros Hm Hf Ha. unfold ServeHTTP, muxServeHTTP. rewrite decide_False by done.
  by rewrite Hf, Ha.
Qed.

(** The gate reads the address, the key header and the clock of a request,
    never its path; a handler that reads only the body therefore answers
    alike behind the gate on two paths. *)
Lemma gate_ignores_path (key : string) (h : Handler) (w : ResponseWriter) (r : Request)
    (m p q : string) (st : World) :
  (∀ w0 r1 r2 st0, Body r1 = Body r2 → h w0 r1 st0 = h w0 r2 st0) →
  rateLimit (auth key h) w (toRoute r m p) st = rateLimit (auth key h) w (toRoute r m q) st.
Proof.
  intros Hh.
  assert (Ha : ∀ st0, auth key h w (toRoute r m p) st0 = auth key h w (toRoute r m q) st0).
  { intros st0. unfold auth. simpl. repeat case_decide; try done; by apply Hh. }
  unfold rateLimit. simpl. case_decide; [apply Ha|].
  destruct (allow (rl st) (RemoteAddr r) (Clock r)) as [[] l']; simpl; [apply Ha | done].
Qed.

(** C3, as the code has it.  The three POST operations are registered under
    [/api/v1] only, each under two paths served by the same handler behind
    the same gate, so the two paths of an operation answer every request
    alike; [GET /health] is registered without prefix.  The unprefixed POST
    paths are not registered: the mux answers them with 404. *)
Theorem versioned_aliases_agree (X : Collab) (cfg : Config) (w : ResponseWriter)
    (r : Request) (st : World) :
  let gate h := rateLimit (auth (cfg_APIKey cfg) h) in
  let at_ m p := ServeHTTP X cfg w (toRoute r m p) st in
  (at_ "POST" "/api/v1/upload_text"
   = gate (handleUploadText X cfg) (withCORS w) (toRoute r "POST" "/api/v1/upload_text") st
   ∧ at_ "POST" "/api/v1/documents/upload"
     = gate (handleUploadText X cfg) (withCORS w)
         (toRoute r "POST" "/api/v1/documents/upload") st)
  ∧ (at_ "POST" "/api/v1/search"
     = gate (handleSearch X cfg) (withCORS w) (toRoute r "POST" "/api/v1/search") st
     ∧ at_ "POST" "/api/v1/documents/search"
       = gate (handleSearch X cfg) (withCORS w)
           (toRoute r "POST" "/api/v1/documents/search") st)
  ∧ (at_ "POST" "/api/v1/chat"
     = gate (handleChat X cfg) (withCORS w) (toRoute r "POST" "/api/v1/chat") st
     ∧ at_ "POST" "/api/v1/conversations/chat"
       = gate (handleChat X cfg) (withCORS w)
           (toRoute r "POST" "/api/v1/conversations/chat") st)
  ∧ (at_ "POST" "/api/v1/documents/upload" = at_ "POST" "/api/v1/upload_text"
     ∧ at_ "POST" "/api/v1/documents/search" = at_ "POST" "/api/v1/search"
     ∧ at_ "POST" "/api/v1/conversations/chat" = at_ "POST" "/api/v1/chat")
  ∧ at_ "GET" "/health" = handleHealth (withCORS w) (toRoute r "GET" "/health") st
  ∧ (∀ m p : string,
       (m, p) ∈ [("POST", "/upload_text"); ("POST", "/search"); ("POST", "/chat")] →
       at_ m p = (httpError (withCORS w) "404 page not found" StatusNotFound, st)).
Proof.
  intros gate at_.
  assert (Hup : ∀ p, p = "/api/v1/upload_text" ∨ p = "/api/v1/documents/upload" →
            at_ "POST" p = gate (handleUploadText X cfg) (withCORS w) (toRoute r "POST" p) st).
  { intros p [-> | ->]; unfold at_.
    - apply (ServeHTTP_route X cfg (mkRoute "POST" "/api/v1/upload_text" (gate (handleUploadText X cfg))));
        [discriminate | reflexivity].
    - apply (ServeHTTP_route X cfg (mkRoute "POST" "/api/v1/documents/upload" (gate (handleUploadText X cfg))));
        [discriminate | reflexivity]. }
  assert (Hse : ∀ p, p = "/api/v1/search" ∨ p = "/api/v1/documents/search" →
            at_ "POST" p = gate (handleSearch X cfg) (withCORS w) (toRoute r "POST" p) st).
  { intros p [-> | ->]; unfold at_.
    - apply (ServeHTTP_route X cfg (mkRoute "POST" "/api/v1/search" (gate (handleSearch X cfg))));
        [discriminate | reflexivity].
    - apply (ServeHTTP_route X cfg (mkRoute "POST" "/api/v1/documents/search" (gate (handleSearch X cfg))));
        [discriminate | reflexivity]. }
  assert (Hch : ∀ p, p = "/api/v1/chat" ∨ p = "/api/v1/conversations/chat" →
            at_ "POST" p = gate (handleChat X cfg) (withCORS w) (toRoute r "POST" p) st).
  { intros p [-> | ->]; unfold at_.
    - apply (ServeHTTP_route X cfg (mkRoute "POST" "/api/v1/chat" (gate (handleChat X cfg))));
        [discriminate | reflexivity].
    - apply (ServeHTTP_route X cfg (mkRoute "POST" "/api/v1/conversations/chat" (gate (handleChat X cfg))));
        [discriminate | reflexivity]. }
  assert (Hpath : ∀ (h : Handler) p q,
            (∀ w0 r1 r2 st0, Body r1 = Body r2 → h w0 r1 st0 = h w0 r2 st0) →
            gate h (withCORS w) (toRoute r "POST" p) st
            = gate h (withCORS w) (toRoute r "POST" q) st).
  { intros h p q Hh. by apply gate_ignores_path. }
  split; [split; apply Hup; tauto|].
  split; [split; apply Hse; tauto|].
  split; [split; apply Hch; tauto|].
  split.
  { split; [|split].
    - rewrite !Hup by tauto. apply Hpath.
      intros w0 r1 r2 st0 Hb. unfold handleUploadText. by rewrite Hb.
    - rewrite !Hse by tauto. apply Hpath.
      intros w0 r1 r2 st0 Hb. unfold handleSearch. by rewrite Hb.
    - rewrite !Hch by tauto. apply Hpath.
      intros w0 r1 r2 st0 Hb. unfold handleChat. by rewrite Hb. }
  split.
  { unfold at_. apply (ServeHTTP_route X cfg (mkRoute "GET" "/health" handleHealth));
      [discriminate | reflexivity]. }
  intros m p Hin. unfold at_.
  rewrite !elem_of_cons in Hin.
  destruct Hin as [[= -> ->] | [[= -> ->] | [[= -> ->] | Hin]]];
    [apply ServeHTTP_not_found; try reflexivity; discriminate .. |].
  by apply elem_of_nil in Hin.
Qed.

(** The theorem on a request without key to the keyed deployment: both
    paths of the upload operation answer 401. *)
Lemma versioned_aliases_agree_witness :
  let r := Example.request "POST" "/" "10.0.0.1:80" EmptyString "hello" 0 in
  let st := NewServer Example.cfg in
  ServeHTTP Example.collab Example.cfg NewRecorder
    (toRoute r "POST" "/api/v1/documents/upload") st
  = ServeHTTP Example.collab Example.cfg NewRecorder (toRoute r "POST" "/api/v1/upload_text") st
  ∧ Code (ServeHTTP Example.collab Example.cfg NewRecorder
            (toRoute r "POST" "/api/v1/upload_text") st).1 = StatusUnauthorized.
Proof.
  intros r st.
  destruct (versioned_aliases_agree Example.collab Example.cfg NewRecorder r st)
    as (_ & _ & _ & (Hsame & _) & _).
  split; [exact Hsame|]. vm_compute. reflexivity.
Defined.

(** C3, as the text has it, fails: a route of the table and the same route
    under [/api/v1] do not answer alike.  For a body with an empty text,
    [POST /upload_text] answers 404 and [POST /api/v1/upload_text] answers
    400. *)
Lemma unversioned_alias_counterexample :
  ¬ (∀ (X : Collab) (cfg : Config) (r : Request) (st : World) (m p : string),
       (m, p) ∈ [("POST", "/upload_text"); ("POST", "/search"); ("POST", "/chat");
                 ("GET", "/health")] →
       (ServeHTTP X cfg NewRecorder (toRoute r m p) st).1
       = (ServeHTTP X cfg NewRecorder (toRoute r m ("/api/" +:+ apiVersion +:+ p)) st).1).
Proof.
  intros H.
  specialize (H Example.collab Example.openCfg
                (Example.request "POST" "/" "10.0.0.1:80" EmptyString "{}" 0)
                (NewServer Example.openCfg) "POST" "/upload_text").
  assert (Hin : ("POST", "/upload_text")
                ∈ [("POST", "/upload_text"); ("POST", "/search"); ("POST", "/chat");
                   ("GET", "/health")]).
  { rewrite !elem_of_cons. tauto. }
  apply H in Hin. apply (f_equal Code) in Hin. vm_compute in Hin. discriminate Hin.
Qed.

(** The statuses of the route table on the open deployment, for a body that
    decodes to empty fields: the unprefixed POST paths do not exist. *)
Example route_statuses :
  let code m p :=
    Code (ServeHTTP Example.collab Example.openCfg NewRecorder
            (Example.request m p "10.0.0.1:80" EmptyString "{}" 0)
            (NewServer Example.openCfg)).1 in
  code "GET" "/health" = 200
  ∧ code "GET" "/api/v1/health" = 404
  ∧ code "POST" "/upload_text" = 404
  ∧ code "POST" "/api/v1/upload_text" = 400
  ∧ code "POST" "/api/v1/documents/upload" = 400
  ∧ code "POST" "/search" = 404
  ∧ code "POST" "/api/v1/search" = 400
  ∧ code "POST" "/chat" = 404
  ∧ code "POST" "/api/v1/chat" = 400
  ∧ code "GET" "/api/v1/chat" = 405
  ∧ code "OPTIONS" "/anything" = 200.
Proof. vm_compute. repeat split; reflexivity. Qed.

(** ** The fused query *)

(** [HybridSearch] asks the index for an RRF fusion over one dense
    sub-query, and over a sparse one as well only when it is given a sparse
    vector; both callers, [handleSearch] and [Retrieve], pass none.  The
    fused scores themselves are computed by the index and copied from its
    answer. *)
Lemma hybridQuery_prefetch (collection : string) (dense : list float32)
    (sparse : option SparseVector) (topK : Z) :
  qp_Query (hybridQuery collection dense sparse topK) = Query_Fusion Fusion_RRF
  ∧ qp_Limit (hybridQuery collection dense sparse topK) = topK
  ∧ pf_Using <$> qp_Prefetch (hybridQuery collection dense sparse topK)
    = match sparse with
      | Some _ => ["dense"; "sparse"]
      | None => ["dense"]
      end
  ∧ Forall (λ pf, pf_Limit pf = topK) (qp_Prefetch (hybridQuery collection dense sparse topK)).
Proof.
  destruct sparse; simpl; repeat split; repeat constructor.
Qed.

Lemma toSearchResult_score (point : ScoredPoint) :
  res_Score (toSearchResult point) = sp_Score point.
Proof. done. Qed.

(** * Further properties *)

(** ** The limiter, address by address *)

(** The answer of [allow] and the record it leaves for the address depend
    on that address's record and on the configuration only. *)
Lemma allow_depends (l1 l2 : rateLimiter) (ip : string) (clk : Z * Z) :
  clients l1 !! ip = clients l2 !! ip → rate l1 = rate l2 → window l1 = window l2 →
  (allow l1 ip clk).1 = (allow l2 ip clk).1
  ∧ clients (allow l1 ip clk).2 !! ip = clients (allow l2 ip clk).2 !! ip.
Proof.
  intros Hc Hr Hw. unfold allow. rewrite Hc, Hr, Hw.
  destruct (clients l2 !! ip) as [cl|] eqn:E; simpl.
  - repeat case_bool_decide; simpl; rewrite ?lookup_insert_eq, ?Hc, ?E; auto.
  - by rewrite !lookup_insert_eq.
Qed.

Lemma allowMany_config (ip : string) (cs : list (Z * Z)) :
  ∀ l : rateLimiter,
    rate (allowMany l ip cs).2 = rate l ∧ window (allowMany l ip cs).2 = window l.
Proof.
  induction cs as [|c cs IH]; intros l; [done|].
  cbn [allowMany]. pose proof (allow_config l ip c) as [H1 H2].
  destruct (allow l ip c) as [b l1]. simpl in H1, H2.
  destruct (IH l1) as [H3 H4]. destruct (allowMany l1 ip cs) as [bs l2]. simpl in *.
  split; congruence.
Qed.

Lemma allowMany_other (ip ip' : string) (cs : list (Z * Z)) :
  ip ≠ ip' → ∀ l : rateLimiter, clients (allowMany l ip cs).2 !! ip' = clients l !! ip'.
Proof.
  intros Hne. induction cs as [|c cs IH]; intros l; [done|].
  cbn [allowMany]. pose proof (allow_other l ip ip' c Hne) as H1.
  destruct (allow l ip c) as [b l1]. simpl in H1.
  specialize (IH l1). destruct (allowMany l1 ip cs) as [bs l2]. simpl in *. congruence.
Qed.

(** X1.  Requests of one address never touch the budget of another: after
    any run of calls from [ip], the record of another address [ip'] is what
    it was, and the next call from [ip'] gets the same answer and leaves the
    same record as if the calls from [ip] had not happened. *)
Theorem addresses_are_independent (l : rateLimiter) (ip ip' : string) (cs : list (Z * Z))
    (c : Z * Z) :
  ip ≠ ip' →
  clients (allowMany l ip cs).2 !! ip' = clients l !! ip'
  ∧ (allow (allowMany l ip cs).2 ip' c).1 = (allow l ip' c).1
  ∧ clients (allow (allowMany l ip cs).2 ip' c).2 !! ip' = clients (allow l ip' c).2 !! ip'.
Proof.
  intros Hne. pose proof (allowMany_other ip ip' cs Hne l) as Ho.
  destruct (allowMany_config ip cs l) as [Hr Hw].
  split; [done|]. by apply allow_depends.
Qed.

Lemma addresses_are_independent_witness :
  let l := limiter (newMiddleware EmptyString 1 1000) in
  "10.0.0.1:1" ≠ "10.0.0.2:1"
  ∧ (allowMany l "10.0.0.1:1" [(0, 0); (1, 1); (2, 2)]).1 = [true; false; false]
  ∧ (allow (allowMany l "10.0.0.1:1" [(0, 0); (1, 1); (2, 2)]).2 "10.0.0.2:1" (3, 3)).1
    = true.
Proof.
  intros l.
  assert (Hne : "10.0.0.1:1" ≠ "10.0.0.2:1") by discriminate.
  destruct (addresses_are_independent l "10.0.0.1:1" "10.0.0.2:1" [(0, 0); (1, 1); (2, 2)]
              (3, 3) Hne) as (_ & Hsame & _).
  split; [exact Hne|]. split; [reflexivity|]. rewrite Hsame. reflexivity.
Defined.

(** Once the tokens are spent, every further call inside the window is
    refused and changes nothing. *)
Lemma allowMany_exhausted (l : rateLimiter) (ip : string) (n t0 : Z) (clks : list (Z * Z)) :
  n <= 0 →
  Forall (λ c : Z * Z, 0 <= c.1 - t0 < window l) clks →
  allowMany (withRecord l ip n t0) ip clks
  = (replicate (length clks) false, withRecord l ip n t0).
Proof.
  intros Hn. induction clks as [|c clks IH]; intros Hin; [done|].
  apply Forall_cons in Hin as [Hc Hin]. cbn [allowMany].
  rewrite (allow_reject _ ip {| tokens := n; last := t0 |});
    [| apply withRecord_lookup | simpl; by apply Sub_lt | simpl; lia].
  by rewrite IH.
Qed.

(** X2.  The budget of a window.  From a table without a record for the
    address, the first call and any number [n] of further calls read inside
    the window are answered as follows: the first [min (n + 1) R] are let
    through and all the others are refused; the record ends with
    [max 0 (R - 1 - n)] tokens and the window start of the first call. *)
Theorem window_budget (l : rateLimiter) (ip : string) (c0 : Z * Z) (cs : list (Z * Z)) :
  1 <= rate l <= maxInt64 →
  clients l !! ip = None →
  Forall (λ c : Z * Z, 0 <= c.1 - c0.1 < window l) cs →
  allowMany l ip (c0 :: cs)
  = (replicate (S (length cs) `min` Z.to_nat (rate l)) true
     ++ replicate (S (length cs) - Z.to_nat (rate l)) false,
     withRecord l ip (Z.max 0 (rate l - 1 - Z.of_nat (length cs))) c0.1).
Proof.
  intros HR Hnew Hcs.
  assert (Hw1 : wrap64 (rate l - 1) = rate l - 1).
  { apply wrap64_id. unfold inInt64, minInt64, maxInt64 in *. lia. }
  cbn [allowMany]. rewrite allow_first by done. rewrite Hw1.
  remember (Z.to_nat (rate l) - 1)%nat as k eqn:Hk.
  rewrite <- (take_drop k cs) at 1. rewrite allowMany_app.
  rewrite (allowMany_spend l ip c0.1 (take k cs) (rate l - 1));
    [| rewrite length_take; lia | by apply Forall_take].
  cbn [fst snd].
  destruct (decide (length cs ≤ k)%nat) as [Hle|Hgt].
  - rewrite drop_ge by done. rewrite take_ge by done. cbn [allowMany fst snd].
    rewrite app_nil_r.
    replace (S (length cs) `min` Z.to_nat (rate l))%nat with (S (length cs)) by lia.
    replace (S (length cs) - Z.to_nat (rate l))%nat with 0%nat by lia.
    cbn [replicate]. rewrite app_nil_r. f_equal. f_equal. lia.
  - rewrite length_take, Nat.min_l by lia.
    replace (rate l - 1 - Z.of_nat k) with 0 by lia.
    rewrite allowMany_exhausted by (try lia; by apply Forall_drop).
    cbn [fst snd]. rewrite length_drop.
    replace (S (length cs) `min` Z.to_nat (rate l))%nat with (S k) by lia.
    replace (S (length cs) - Z.to_nat (rate l))%nat with (length cs - k)%nat by lia.
    cbn [replicate]. f_equal. f_equal. lia.
Qed.

Lemma window_budget_witness :
  let l := limiter (newMiddleware EmptyString 2 1000) in
  (allowMany l "10.0.0.1:1" [(0, 0); (10, 10); (20, 20); (30, 30); (999, 999)]).1
  = [true; true; false; false; false].
Proof.
  intros l.
  assert (H1 : 1 <= rate l <= maxInt64) by (unfold maxInt64; simpl; lia).
  assert (H2 : clients l !! "10.0.0.1:1" = None) by reflexivity.
  assert (H3 : Forall (λ c : Z * Z, 0 <= c.1 - (0, 0).1 < window l)
                 [(10, 10); (20, 20); (30, 30); (999, 999)]).
  { repeat constructor; simpl; lia. }
  exact (f_equal fst (window_budget l "10.0.0.1:1" (0, 0)
                        [(10, 10); (20, 20); (30, 30); (999, 999)] H1 H2 H3)).
Defined.

(** X3.  The burst at a window boundary.  [R] calls inside one window, a
    call read at least a window after its start, and [R - 1] calls inside
    the window that call opens are all let through: [2 R] requests in a
    row, however close the last of the first window is to the first of the
    second. *)
Theorem boundary_burst (l : rateLimiter) (ip : string) (c0 : Z * Z) (cs1 : list (Z * Z))
    (late : Z * Z) (cs2 : list (Z * Z)) :
  1 <= rate l <= maxInt64 →
  inInt64 (window l) →
  clients l !! ip = None →
  Z.of_nat (length cs1) = rate l - 1 →
  Forall (λ c : Z * Z, 0 <= c.1 - c0.1 < window l) cs1 →
  window l <= late.1 - c0.1 →
  Z.of_nat (length cs2) = rate l - 1 →
  Forall (λ c : Z * Z, 0 <= c.1 - late.2 < window l) cs2 →
  allowMany l ip (c0 :: cs1 ++ late :: cs2)
  = (replicate (2 * Z.to_nat (rate l)) true, withRecord l ip 0 late.2).
Proof.
  intros HR HW Hnew Hl1 Hin1 Hlate Hl2 Hin2.
  assert (Hw1 : wrap64 (rate l - 1) = rate l - 1).
  { apply wrap64_id. unfold inInt64, minInt64, maxInt64 in *. lia. }
  cbn [allowMany]. rewrite allow_first by done. rewrite Hw1.
  rewrite allowMany_app.
  rewrite (allowMany_spend l ip c0.1 cs1 (rate l - 1)) by (try done; lia).
  cbn [fst snd allowMany].
  rewrite (allow_reset _ ip {| tokens := rate l - 1 - Z.of_nat (length cs1); last := c0.1 |});
    [| apply withRecord_lookup | simpl; by apply Sub_ge].
  simpl rate. rewrite Hw1, withRecord_again.
  rewrite (allowMany_spend l ip late.2 cs2 (rate l - 1)) by (try done; lia).
  cbn [fst snd]. f_equal.
  - replace (2 * Z.to_nat (rate l))%nat
      with (S (length cs1 + S (length cs2)))%nat by lia.
    cbn [replicate]. by rewrite replicate_add.
  - f_equal. lia.
Qed.

(** At rate 2 and window 1000: four requests are let through, the last
    three of them within two clock ticks. *)
Lemma boundary_burst_witness :
  let l := limiter (newMiddleware EmptyString 2 1000) in
  (allowMany l "10.0.0.1:1" [(0, 0); (999, 999); (1000, 1000); (1001, 1001)]).1
  = [true; true; true; true].
Proof.
  intros l.
  assert (H1 : 1 <= rate l <= maxInt64) by (unfold maxInt64; simpl; lia).
  assert (H2 : inInt64 (window l)) by (unfold inInt64, minInt64, maxInt64; simpl; lia).
  assert (H3 : clients l !! "10.0.0.1:1" = None) by reflexivity.
  assert (H4 : Forall (λ c : Z * Z, 0 <= c.1 - (0, 0).1 < window l) [(999, 999)]).
  { repeat constructor; simpl; lia. }
  assert (H5 : window l <= (1000, 1000).1 - (0, 0).1) by (simpl; lia).
  assert (H6 : Forall (λ c : Z * Z, 0 <= c.1 - (1000, 1000).2 < window l) [(1001, 1001)]).
  { repeat constructor; simpl; lia. }
  exact (f_equal fst (boundary_burst l "10.0.0.1:1" (0, 0) [(999, 999)] (1000, 1000)
                        [(1001, 1001)] H1 H2 H3 eq_refl H4 H5 eq_refl H6)).
Defined.

(** ** Edge configurations of the limiter *)

(** X4.  A window of zero or less never refuses.  When the configured
    window is not positive and the clock does not run backwards, every call
    of a run from one address is let through, whatever the rate. *)
Theorem nonpositive_window_never_rejects (ip : string) (cs : list (Z * Z)) :
  ∀ (l : rateLimiter) (t : Z),
    window l <= 0 →
    (∀ cl : clientLimiter, clients l !! ip = Some cl → last cl <= t) →
    chronological t cs →
    (allowMany l ip cs).1 = replicate (length cs) true.
Proof.
  induction cs as [|c cs IH]; intros l t Hw Hlast Hch; [done|].
  destruct Hch as (Ht & Hc & Hch). cbn [allowMany].
  assert (Hstep : (allow l ip c).1 = true
                  ∧ window (allow l ip c).2 = window l
                  ∧ ∀ cl, clients (allow l ip c).2 !! ip = Some cl → last cl <= c.2).
  { unfold allow. destruct (clients l !! ip) as [cl|] eqn:E; simpl.
    - rewrite bool_decide_eq_true_2.
      + simpl. rewrite lookup_insert_eq. split; [done|]. split; [done|].
        intros cl' [= <-]. simpl. lia.
      + specialize (Hlast cl eq_refl). unfold Since, Sub, minInt64, maxInt64. lia.
    - rewrite lookup_insert_eq. split; [done|]. split; [done|].
      intros cl' [= <-]. simpl. lia. }
  destruct Hstep as (Hb & Hw' & Hlast').
  destruct (allow l ip c) as [b l1]. simpl in Hb, Hw', Hlast'. subst b.
  specialize (IH l1 c.2). rewrite Hw' in IH. specialize (IH Hw Hlast' Hch).
  destruct (allowMany l1 ip cs) as [bs l2]. simpl in *. by rewrite IH.
Qed.

(** With a window of 0 and rate 1, five calls at the same instant pass. *)
Lemma nonpositive_window_never_rejects_witness :
  let l := limiter (newMiddleware EmptyString 1 0) in
  (allowMany l "10.0.0.1:1" [(5, 5); (5, 5); (5, 5); (5, 5); (6, 7)]).1
  = [true; true; true; true; true].
Proof.
  intros l.
  refine (nonpositive_window_never_rejects "10.0.0.1:1"
            [(5, 5); (5, 5); (5, 5); (5, 5); (6, 7)] l 0 _ _ _).
  - simpl. lia.
  - intros cl H. discriminate H.
  - simpl. lia.
Defined.

(** X5.  A negative rate does not switch the limiter off: the gate is
    active for every rate other than zero, and with a negative rate the
    first call of a window is let through and every other call of that
    window is refused. *)
Theorem negative_rate_one_per_window (l : rateLimiter) (ip : string) (c0 : Z * Z)
    (cs : list (Z * Z)) :
  minInt64 < rate l < 0 →
  clients l !! ip = None →
  Forall (λ c : Z * Z, 0 <= c.1 - c0.1 < window l) cs →
  allowMany l ip (c0 :: cs)
  = (true :: replicate (length cs) false, withRecord l ip (rate l - 1) c0.1)
  ∧ ∀ (next : Handler) (w : ResponseWriter) (r : Request) (st : World),
      rl st = withRecord l ip (rate l - 1) c0.1 →
      RemoteAddr r = ip → 0 <= (Clock r).1 - c0.1 < window l →
      rateLimit next w r st = (httpError w rateLimitBody StatusTooManyRequests, st).
Proof.
  intros HR Hnew Hcs.
  assert (Hw1 : wrap64 (rate l - 1) = rate l - 1).
  { apply wrap64_id. unfold inInt64, minInt64, maxInt64 in *. lia. }
  split.
  - cbn [allowMany]. rewrite allow_first by done. rewrite Hw1.
    by rewrite allowMany_exhausted by (try done; lia).
  - intros next w r st Hst Hip Hin.
    rewrite (rateLimit_reject next w r st (rl st)).
    + by rewrite setLimiter_same.
    + rewrite Hst. simpl. lia.
    + rewrite Hst, Hip.
      apply (allow_reject _ ip {| tokens := rate l - 1; last := c0.1 |});
        [apply withRecord_lookup | simpl; by apply Sub_lt | simpl; lia].
Qed.

Lemma negative_rate_one_per_window_witness :
  let l := limiter (newMiddleware EmptyString (-5) 1000) in
  (allowMany l "10.0.0.1:1" [(0, 0); (1, 1); (2, 2)]).1 = [true; false; false].
Proof.
  intros l.
  assert (H1 : minInt64 < rate l < 0) by (unfold minInt64; simpl; lia).
  assert (H3 : Forall (λ c : Z * Z, 0 <= c.1 - (0, 0).1 < window l) [(1, 1); (2, 2)]).
  { repeat constructor; simpl; lia. }
  exact (f_equal fst (proj1 (negative_rate_one_per_window l "10.0.0.1:1" (0, 0)
                               [(1, 1); (2, 2)] H1 eq_refl H3))).
Defined.

(** ** What a request does to the limiter *)

Lemma allow_bounded (l : rateLimiter) (ip : string) (clk : Z * Z) :
  1 <= rate l <= maxInt64 → tokensBounded l → tokensBounded (allow l ip clk).2.
Proof.
  intros HR Hb ip' cl'.
  assert (Hw1 : wrap64 (rate l - 1) = rate l - 1).
  { apply wrap64_id. unfold inInt64, minInt64, maxInt64 in *. lia. }
  destruct (allow_config l ip clk) as [Hrate _]. rewrite Hrate.
  destruct (decide (ip = ip')) as [<-|Hne].
  - unfold allow. destruct (clients l !! ip) as [cl|] eqn:E; simpl.
    + repeat case_bool_decide; simpl; rewrite ?lookup_insert_eq.
      * intros [= <-]. simpl. lia.
      * intros [= <-]. simpl. specialize (Hb ip cl E).
        rewrite wrap64_id by (unfold inInt64, minInt64, maxInt64 in *; lia). lia.
      * intros H'. apply (Hb ip cl'). congruence.
    + rewrite lookup_insert_eq. intros [= <-]. simpl. lia.
  - rewrite allow_other by done. apply Hb.
Qed.

(** Serving one request moves the limiter by at most one call of [allow],
    for the address of the request. *)
Lemma ServeHTTP_limiter (X : Collab) (cfg : Config) (w : ResponseWriter) (r : Request)
    (st : World) :
  rl (ServeHTTP X cfg w r st).2 = rl st
  ∨ rl (ServeHTTP X cfg w r st).2 = (allow (rl st) (RemoteAddr r) (Clock r)).2.
Proof.
  assert (Hgate : ∀ (key : string) (h : Handler) w0 r0 st0,
            (∀ w1 r1 st1, rl (h w1 r1 st1).2 = rl st1) →
            rl (rateLimit (auth key h) w0 r0 st0).2 = rl st0
            ∨ rl (rateLimit (auth key h) w0 r0 st0).2
              = (allow (rl st0) (RemoteAddr r0) (Clock r0)).2).
  { intros key h w0 r0 st0 Hh.
    assert (Ha : ∀ st1, rl (auth key h w0 r0 st1).2 = rl st1).
    { intros st1. unfold auth. repeat case_decide; try done; apply Hh. }
    unfold rateLimit. case_decide; [left; apply Ha|].
    destruct (allow (rl st0) (RemoteAddr r0) (Clock r0)) as [[] l']; simpl.
    - right. by rewrite Ha.
    - by right. }
  unfold ServeHTTP. case_decide; [by left|].
  unfold muxServeHTTP.
  destruct (find _ (registerRoutes X cfg)) as [rt|] eqn:Ef.
  - apply find_some in Ef as [Hin _].
    unfold registerRoutes, handleUploadTextV2, handleSearchV2, handleChatV2 in Hin.
    simpl in Hin.
    destruct Hin as [<-|[<-|[<-|[<-|[<-|[<-|[<-|[<-|[]]]]]]]]]; simpl;
      first [ by left
            | apply Hgate; first [ apply handleUploadText_rl | apply handleSearch_rl
                                 | apply handleChat_rl ] ].
  - left. by destruct (allowedMethods _ _).
Qed.

(** X6.  The token counts stay in range.  For a configured rate [R] from 1
    up, whatever requests the server serves from its start, every record of
    the limiter holds at least 0 and at most [R - 1] tokens, and the rate
    and the window are never changed. *)
Theorem tokens_stay_bounded (X : Collab) (cfg : Config) (rs : list Request) :
  1 <= cfg_RateLimit cfg <= maxInt64 →
  tokensBounded (rl (serveAll X cfg rs (NewServer cfg)).2)
  ∧ rate (rl (serveAll X cfg rs (NewServer cfg)).2) = cfg_RateLimit cfg
  ∧ window (rl (serveAll X cfg rs (NewServer cfg)).2) = wrap64 (cfg_RateWindow cfg * Second).
Proof.
  intros HR.
  assert (Hgen : ∀ (rs : list Request) (st : World),
            tokensBounded (rl st) → rate (rl st) = cfg_RateLimit cfg →
            tokensBounded (rl (serveAll X cfg rs st).2)
            ∧ rate (rl (serveAll X cfg rs st).2) = cfg_RateLimit cfg
            ∧ window (rl (serveAll X cfg rs st).2) = window (rl st)).
  { clear rs. induction rs as [|r rs IH]; intros st Hb Hrate; [done|].
    cbn [serveAll].
    pose proof (ServeHTTP_limiter X cfg NewRecorder r st) as Hstep.
    destruct (ServeHTTP X cfg NewRecorder r st) as [w st1]. simpl in Hstep.
    assert (H1 : tokensBounded (rl st1) ∧ rate (rl st1) = cfg_RateLimit cfg
                 ∧ window (rl st1) = window (rl st)).
    { destruct Hstep as [-> | ->]; [done|].
      destruct (allow_config (rl st) (RemoteAddr r) (Clock r)) as [Hr Hw].
      split; [apply allow_bounded; [by rewrite Hrate | done]|].
      split; congruence. }
    destruct H1 as (Hb1 & Hr1 & Hw1).
    destruct (IH st1 Hb1 Hr1) as (Hb2 & Hr2 & Hw2).
    destruct (serveAll X cfg rs st1) as [ws st2]. simpl in *.
    split; [done|]. split; congruence. }
  apply Hgen; [|done].
  intros ip cl H. simpl in H. by rewrite lookup_empty in H.
Qed.

Lemma tokens_stay_bounded_witness :
  let st := (serveAll Example.collab Example.openCfg
               [Example.request "POST" "/api/v1/search" "10.0.0.1:1" EmptyString "{}" 0;
                Example.request "POST" "/api/v1/search" "10.0.0.1:1" EmptyString "{}" 1;
                Example.request "POST" "/api/v1/search" "10.0.0.1:1" EmptyString "{}" 2]
               (NewServer Example.openCfg)).2 in
  tokensBounded (rl st) ∧ clients (rl st) !! "10.0.0.1:1" = Some {| tokens := 0; last := 0 |}.
Proof.
  intros st. split; [|vm_compute; reflexivity].
  refine (proj1 (tokens_stay_bounded Example.collab Example.openCfg _ _)).
  unfold maxInt64. simpl. lia.
Defined.

(** ** The sweep *)

(** X7.  What one run of [cleanup] removes.  When five windows fit in a
    [time.Duration] and no record is ahead of the clock, the run removes the
    records that are more than five windows old at the moment they are
    visited and no other; the records it keeps, the rate and the window are
    unchanged. *)
Theorem cleanup_removes_exactly_old (l : rateLimiter) (nowAt : string → Z) :
  inInt64 (window l * 5) →
  (∀ (ip : string) (cl : clientLimiter), clients l !! ip = Some cl → last cl <= nowAt ip) →
  rate (cleanup l nowAt) = rate l
  ∧ window (cleanup l nowAt) = window l
  ∧ ∀ (ip : string) (cl : clientLimiter),
      clients (cleanup l nowAt) !! ip = Some cl
      ↔ clients l !! ip = Some cl ∧ nowAt ip - last cl <= window l * 5.
Proof.
  intros Hw Hclock. split; [done|]. split; [done|].
  intros ip cl. rewrite cleanup_lookup.
  destruct (clients l !! ip) as [cl'|] eqn:E.
  - assert (Hs : stale l (nowAt ip) cl' = true ↔ window l * 5 < nowAt ip - last cl').
    { apply stale_spec; [done|]. specialize (Hclock ip cl' E). lia. }
    destruct (stale l (nowAt ip) cl') eqn:Es.
    + split; [done|]. intros [[= ->] Hold]. apply proj1 in Hs. specialize (Hs eq_refl). lia.
    + split.
      * intros [= ->]. split; [done|].
        destruct (decide (nowAt ip - last cl <= window l * 5)) as [|Hn]; [done|].
        destruct Hs as [_ Hs2]. assert (false = true) by (apply Hs2; lia). done.
      * by intros [? _].
  - split; [done | by intros [? _]].
Qed.

(** [TestRateLimiter_Cleanup] of the repository: a fresh record stays, a
    record ten seconds old goes, with a window of one second. *)
Lemma cleanup_removes_exactly_old_witness :
  let l := {| clients := {[ "192.168.1.1" := {| tokens := 5; last := 20 * Second |};
                            "192.168.1.2" := {| tokens := 5; last := 10 * Second |} ]};
              rate := 10; window := Second |} in
  let swept := cleanup l (λ _, 20 * Second) in
  clients swept !! "192.168.1.1" = Some {| tokens := 5; last := 20 * Second |}
  ∧ clients swept !! "192.168.1.2" = None.
Proof.
  intros l swept.
  assert (Hw : inInt64 (window l * 5)).
  { unfold inInt64, minInt64, maxInt64. simpl. unfold Second. lia. }
  assert (Hc : ∀ (ip : string) (cl : clientLimiter),
            clients l !! ip = Some cl → last cl <= (λ _ : string, 20 * Second) ip).
  { intros ip cl H. simpl in H.
    destruct (decide (ip = "192.168.1.1")) as [->|H1].
    - vm_compute in H. injection H as <-. vm_compute. discriminate.
    - destruct (decide (ip = "192.168.1.2")) as [->|H2].
      + vm_compute in H. injection H as <-. vm_compute. discriminate.
      + rewrite lookup_insert_ne in H by done.
        rewrite lookup_singleton_ne in H by done. discriminate H. }
  destruct (cleanup_removes_exactly_old l (λ _, 20 * Second) Hw Hc) as (_ & _ & H).
  split.
  - apply H. split; [reflexivity | vm_compute; discriminate].
  - destruct (clients swept !! "192.168.1.2") as [cl|] eqn:E; [|reflexivity].
    apply H in E as [E1 E2]. vm_compute in E1. injection E1 as <-.
    vm_compute in E2. exfalso. apply E2. reflexivity.
Defined.



(** ** The order of the two checks *)

(** X9.  The limiter is asked before the key is checked.  Behind the gate of
    a keyed deployment a request with a wrong or missing key still takes
    its step in the limiter; it is answered 401 when the limiter lets it
    through and 429 when it does not, and the wrapped handler is not run in
    either case.  A request with the right key that the limiter refuses is
    answered 429 as well. *)
Theorem limiter_counts_unauthenticated (key : string) (h : Handler) (w : ResponseWriter)
    (r : Request) (st : World) :
  rate (rl st) ≠ 0 →
  key ≠ EmptyString →
  (HeaderGet (Header r) xApiKey ≠ key →
   rateLimit (auth key h) w r st
   = (if (allow (rl st) (RemoteAddr r) (Clock r)).1
      then httpError w unauthorizedBody StatusUnauthorized
      else httpError w rateLimitBody StatusTooManyRequests,
      setLimiter st (allow (rl st) (RemoteAddr r) (Clock r)).2))
  ∧ ((allow (rl st) (RemoteAddr r) (Clock r)).1 = false →
     rateLimit (auth key h) w r st
     = (httpError w rateLimitBody StatusTooManyRequests,
        setLimiter st (allow (rl st) (RemoteAddr r) (Clock r)).2)).
Proof.
  intros Hrate Hkey. split.
  - intros Hbad. destruct (allow (rl st) (RemoteAddr r) (Clock r)) as [[] l'] eqn:Ea.
    + rewrite (rateLimit_pass _ w r st l' Hrate Ea). simpl.
      unfold auth. rewrite decide_False by done. by rewrite decide_True.
    + by rewrite (rateLimit_reject _ w r st l' Hrate Ea).
  - intros Hno. destruct (allow (rl st) (RemoteAddr r) (Clock r)) as [b l'] eqn:Ea.
    simpl in Hno. subst b. by rewrite (rateLimit_reject _ w r st l' Hrate Ea).
Qed.

(** Three requests without key to the keyed deployment of rate 2: 401, 401,
    then 429; and then 429 for a request with the right key. *)
Lemma limiter_counts_unauthenticated_witness :
  let req k t := Example.request "POST" "/api/v1/search" "10.0.0.1:1" k "q" t in
  (Code <$> (serveAll Example.collab Example.cfg
               [req EmptyString 0; req EmptyString 1; req EmptyString 2; req "secret-key" 3]
               (NewServer Example.cfg)).1)
  = [401; 401; 429; 429]
  ∧ (ServeHTTP Example.collab Example.cfg NewRecorder (req EmptyString 0)
       (NewServer Example.cfg)).2
    = setLimiter (NewServer Example.cfg)
        (withRecord (rl (NewServer Example.cfg)) "10.0.0.1:1" 1 0).
Proof.
  intros req. split; [vm_compute; reflexivity|].
  assert (H : rateLimit (auth "secret-key" (handleSearch Example.collab Example.cfg))
                (withCORS NewRecorder) (req EmptyString 0) (NewServer Example.cfg)
              = (httpError (withCORS NewRecorder) unauthorizedBody StatusUnauthorized,
                 setLimiter (NewServer Example.cfg)
                   (withRecord (rl (NewServer Example.cfg)) "10.0.0.1:1" 1 0))).
  { refine (proj1 (limiter_counts_unauthenticated "secret-key"
                     (handleSearch Example.collab Example.cfg) (withCORS NewRecorder)
                     (req EmptyString 0) (NewServer Example.cfg) _ _) _);
      vm_compute; discriminate. }
  exact (f_equal snd H).
Defined.

(** ** Requests that do not pass the gate *)

(** X10.  The health check and the preflight are outside the gate.  A [GET]
    or [HEAD] of [/health] is answered 200 with the status object, and a
    request of method [OPTIONS] to any path is answered 200 with no body; in
    both cases no key is looked at, the limiter is not asked and the state
    of the server is left as it was. *)
Theorem ungated_requests (X : Collab) (cfg : Config) (w : ResponseWriter) (r : Request)
    (st : World) :
  ((Method r = "GET" ∨ Method r = "HEAD") → Path r = "/health" →
   ServeHTTP X cfg w r st
   = (Write (HeaderSet (withCORS w) "Content-Type" "application/json")
        (PMap {[ "status" := "healthy" ]}), st)
   ∧ (wroteHeader w = false → Code (ServeHTTP X cfg w r st).1 = StatusOK))
  ∧ (Method r = "OPTIONS" →
     ServeHTTP X cfg w r st = (WriteHeader (withCORS w) StatusOK, st)
     ∧ Written (ServeHTTP X cfg w r st).1 = Written w
     ∧ (wroteHeader w = false → Code (ServeHTTP X cfg w r st).1 = StatusOK)).
Proof.
  split.
  - intros Hm Hp.
    assert (Hgo : ServeHTTP X cfg w r st = handleHealth (withCORS w) r st).
    { apply (ServeHTTP_route X cfg (mkRoute "GET" "/health" handleHealth)).
      - destruct Hm as [-> | ->]; discriminate.
      - rewrite Hp. destruct Hm as [-> | ->]; reflexivity. }
    rewrite Hgo. split; [done|]. intros Hw. unfold handleHealth, Write, WriteHeader.
    simpl. by rewrite Hw.
  - intros Hm.
    assert (Hgo : ServeHTTP X cfg w r st = (WriteHeader (withCORS w) StatusOK, st)).
    { unfold ServeHTTP. by rewrite decide_True. }
    rewrite Hgo. split; [done|]. split.
    + simpl. by rewrite WriteHeader_Written.
    + intros Hw. unfold WriteHeader. simpl. by rewrite Hw.
Qed.

(** The health check of the keyed deployment, asked without key by a client
    whose budget is spent. *)
Lemma ungated_requests_witness :
  let spent := setLimiter (NewServer Example.cfg)
                 (withRecord (rl (NewServer Example.cfg)) "10.0.0.1:1" 0 0) in
  let r := Example.request "GET" "/health" "10.0.0.1:1" EmptyString EmptyString 1 in
  ServeHTTP Example.collab Example.cfg NewRecorder r spent
  = (Write (HeaderSet (withCORS NewRecorder) "Content-Type" "application/json")
       (PMap {[ "status" := "healthy" ]}), spent)
  ∧ Code (ServeHTTP Example.collab Example.cfg NewRecorder
            (Example.request "POST" "/api/v1/search" "10.0.0.1:1" "secret-key" "q" 1)
            spent).1 = StatusTooManyRequests.
Proof.
  intros spent r. split.
  - exact (proj1 (proj1 (ungated_requests Example.collab Example.cfg NewRecorder r spent)
                    (or_introl eq_refl) eq_refl)).
  - vm_compute. reflexivity.
Defined.

(** ** The shape of the answers *)

Lemma jsonAnswer_error (S : Payload → Prop) (w : ResponseWriter) (status : Z) (msg : string) :
  status = StatusBadRequest ∨ status = StatusInternalServerError →
  jsonAnswer S w (writeError w status msg).
Proof. intros Hs. exists status, (PMap {[ "error" := msg ]}). split; [done|]. right. split; [done|]. by exists msg. Qed.

Lemma jsonAnswer_ok (S : Payload → Prop) (w : ResponseWriter) (p : Payload) :
  S p → jsonAnswer S w (writeJSON w StatusOK p).
Proof. intros Hp. exists StatusOK, p. split; [done|]. by left. Qed.

Lemma handleUploadText_answer (X : Collab) (cfg : Config) (w : ResponseWriter) (r : Request)
    (st : World) :
  jsonAnswer (λ p, ∃ u, p = PUpload u) w (handleUploadText X cfg w r st).1.
Proof.
  unfold handleUploadText.
  destruct (decodeUpload X (Body r)) as [req|e]; [|apply jsonAnswer_error; by left].
  case_decide; [apply jsonAnswer_error; by left|].
  destruct (SplitText X (calls st) (req_Text req)) as [chunks|e];
    [|apply jsonAnswer_error; by right].
  case_decide; [apply jsonAnswer_error; by left|].
  destruct (EmbedDocuments X cfg chunks _) as [[embs|e] st2];
    [|apply jsonAnswer_error; by right].
  destruct (buildDocs X req embs 0 chunks st2) as [[docs ids] st3].
  destruct (Upsert X (cfg_Collection cfg) docs st3) as [[u|e] st4];
    [apply jsonAnswer_ok; eauto | apply jsonAnswer_error; by right].
Qed.

Lemma handleSearch_answer (X : Collab) (cfg : Config) (w : ResponseWriter) (r : Request)
    (st : World) :
  jsonAnswer (λ p, ∃ items, p = PSearch items) w (handleSearch X cfg w r st).1.
Proof.
  unfold handleSearch.
  destruct (decodeSearch X (Body r)) as [req|e]; [|apply jsonAnswer_error; by left].
  case_decide; [apply jsonAnswer_error; by left|].
  destruct (EmbedQuery X cfg (req_Query req) st) as [[v|e] st1];
    [|apply jsonAnswer_error; by right].
  destruct (HybridSearch X _ _ _ _ st1) as [[res|e] st2];
    [apply jsonAnswer_ok; eauto | apply jsonAnswer_error; by right].
Qed.

Lemma handleChat_answer (X : Collab) (cfg : Config) (w : ResponseWriter) (r : Request)
    (st : World) :
  jsonAnswer (λ p, ∃ c, p = PChat c) w (handleChat X cfg w r st).1.
Proof.
  unfold handleChat.
  destruct (decodeChat X (Body r)) as [req|e]; [|apply jsonAnswer_error; by left].
  case_decide; [apply jsonAnswer_error; by left|].
  destruct (ensureSession X req st) as [[sid|e] st1]; [|apply jsonAnswer_error; by right].
  destruct (Retrieve X cfg (req_Message req) st1) as [ret st2].
  destruct (NewRunner X cfg _ _ st2) as [[rn|e] st3]; [|apply jsonAnswer_error; by right].
  destruct (drain _ _) as [text|e];
    [apply jsonAnswer_ok; eauto | apply jsonAnswer_error; by right].
Qed.

Lemma WriteHeader_HeaderMap (w : ResponseWriter) (status : Z) :
  HeaderMap (WriteHeader w status) = HeaderMap w.
Proof. unfold WriteHeader. by destruct (wroteHeader w). Qed.

Lemma Write_HeaderMap (w : ResponseWriter) (p : Payload) : HeaderMap (Write w p) = HeaderMap w.
Proof. unfold Write. simpl. apply WriteHeader_HeaderMap. Qed.

Lemma writeJSON_HeaderMap (w : ResponseWriter) (status : Z) (p : Payload) :
  HeaderMap (writeJSON w status p) = <[ "Content-Type" := "application/json" ]> (HeaderMap w).
Proof. unfold writeJSON. by rewrite Write_HeaderMap, WriteHeader_HeaderMap. Qed.

(** X11.  Every answer of the three handlers is one JSON body.  Whatever
    the request and whatever the collaborators do, each of
    [handleUploadText], [handleSearch] and [handleChat] writes exactly one
    payload with the content type [application/json]: the success body of
    its operation with status 200, or an object with the single field
    [error] with status 400 or 500, and never anything else. *)
Theorem handlers_answer_json (X : Collab) (cfg : Config) (w : ResponseWriter) (r : Request)
    (st : World) :
  (jsonAnswer (λ p, ∃ u, p = PUpload u) w (handleUploadText X cfg w r st).1
   ∧ jsonAnswer (λ p, ∃ items, p = PSearch items) w (handleSearch X cfg w r st).1
   ∧ jsonAnswer (λ p, ∃ c, p = PChat c) w (handleChat X cfg w r st).1)
  ∧ ∀ (S : Payload → Prop) (w' : ResponseWriter),
      jsonAnswer S w w' →
      HeaderMap w' !! "Content-Type" = Some "application/json"
      ∧ (∃ p : Payload, Written w' = Written w ++ [p] ∧ (S p ∨ errorBody p))
      ∧ (wroteHeader w = false →
         Code w' = StatusOK ∨ Code w' = StatusBadRequest
         ∨ Code w' = StatusInternalServerError).
Proof.
  split.
  - split; [apply handleUploadText_answer|].
    split; [apply handleSearch_answer | apply handleChat_answer].
  - intros S w' (status & p & -> & Hcase).
    split; [by rewrite writeJSON_HeaderMap, lookup_insert_eq|]. split.
    + exists p. split; [apply writeJSON_Written|]. destruct Hcase as [[_ ?]|[_ ?]]; auto.
    + intros Hw. rewrite writeJSON_Code by done.
      destruct Hcase as [[-> _]|[[-> | ->] _]]; auto.
Qed.

(** The headers a response keeps: nothing the server's own handlers write
    touches a header other than [Content-Type], [Content-Length],
    [X-Content-Type-Options] and [Allow]. *)
Lemma httpError_HeaderMap (w : ResponseWriter) (msg : string) (status : Z) (k : string) :
  k ≠ "Content-Length" → k ≠ "Content-Type" → k ≠ "X-Content-Type-Options" →
  HeaderMap (httpError w msg status) !! k = HeaderMap w !! k.
Proof.
  intros H1 H2 H3. unfold httpError. rewrite Write_HeaderMap, WriteHeader_HeaderMap.
  simpl. by rewrite !lookup_insert_ne, lookup_delete_ne by done.
Qed.

Lemma gate_keeps_header (key : string) (h : Handler) (k : string) :
  k ≠ "Content-Length" → k ≠ "Content-Type" → k ≠ "X-Content-Type-Options" →
  (∀ w r st, HeaderMap (h w r st).1 !! k = HeaderMap w !! k) →
  ∀ w r st, HeaderMap (rateLimit (auth key h) w r st).1 !! k = HeaderMap w !! k.
Proof.
  intros H1 H2 H3 Hh w r st.
  assert (Ha : ∀ st1, HeaderMap (auth key h w r st1).1 !! k = HeaderMap w !! k).
  { intros st1. unfold auth. repeat case_decide; cbn [fst];
      first [ apply Hh | by apply httpError_HeaderMap ]. }
  unfold rateLimit. case_decide; [apply Ha|].
  destruct (allow (rl st) (RemoteAddr r) (Clock r)) as [[] l']; cbn [fst negb];
    [apply Ha | by apply httpError_HeaderMap].
Qed.

Lemma jsonAnswer_keeps_header (S : Payload → Prop) (w w' : ResponseWriter) (k : string) :
  k ≠ "Content-Type" → jsonAnswer S w w' → HeaderMap w' !! k = HeaderMap w !! k.
Proof.
  intros Hk (status & p & -> & _). rewrite writeJSON_HeaderMap. by rewrite lookup_insert_ne.
Qed.

(** X12.  The CORS headers are on every answer.  For every request whose
    path is not under [/docs/], whatever the method, the route, the verdict
    of the gate and the outcome of the handler, the response carries the
    three CORS headers with the values [ServeHTTP] sets. *)
Theorem cors_on_every_answer (X : Collab) (cfg : Config) (w : ResponseWriter) (r : Request)
    (st : World) (k v : string) :
  String.prefix "/docs/" (Path r) = false →
  (k, v) ∈ corsHeaders →
  HeaderMap (ServeHTTP X cfg w r st).1 !! k = Some v.
Proof.
  intros Hdocs Hin.
  assert (Hk : k ≠ "Content-Length" ∧ k ≠ "Content-Type" ∧ k ≠ "X-Content-Type-Options"
               ∧ k ≠ "Allow" ∧ HeaderMap (withCORS w) !! k = Some v).
  { unfold corsHeaders in Hin. rewrite !elem_of_cons in Hin.
    destruct Hin as [[= -> ->] | [[= -> ->] | [[= -> ->] | Hin]]];
      [repeat split; try discriminate;
       unfold withCORS, HeaderSet; simpl;
       repeat first [ apply lookup_insert_eq | rewrite lookup_insert_ne by discriminate ] .. |].
    by apply elem_of_nil in Hin. }
  destruct Hk as (H1 & H2 & H3 & H4 & Hc).
  unfold ServeHTTP. fold (withCORS w). case_decide.
  { simpl. by rewrite WriteHeader_HeaderMap. }
  unfold muxServeHTTP.
  destruct (find _ (registerRoutes X cfg)) as [rt|] eqn:Ef.
  - apply find_some in Ef as [Hrt Hmatch].
    unfold registerRoutes, handleUploadTextV2, handleSearchV2, handleChatV2 in Hrt.
    simpl in Hrt.
    destruct Hrt as [<-|[<-|[<-|[<-|[<-|[<-|[<-|[<-|[]]]]]]]]]; cbn [rt_Handler].
    + unfold handleHealth. cbn [fst]. rewrite Write_HeaderMap. simpl.
      by rewrite lookup_insert_ne.
    + rewrite gate_keeps_header; try done. intros w0 r0 st0.
      eapply jsonAnswer_keeps_header; [done | apply handleUploadText_answer].
    + rewrite gate_keeps_header; try done. intros w0 r0 st0.
      eapply jsonAnswer_keeps_header; [done | apply handleSearch_answer].
    + rewrite gate_keeps_header; try done. intros w0 r0 st0.
      eapply jsonAnswer_keeps_header; [done | apply handleChat_answer].
    + rewrite gate_keeps_header; try done. intros w0 r0 st0.
      eapply jsonAnswer_keeps_header; [done | apply handleUploadText_answer].
    + rewrite gate_keeps_header; try done. intros w0 r0 st0.
      eapply jsonAnswer_keeps_header; [done | apply handleSearch_answer].
    + rewrite gate_keeps_header; try done. intros w0 r0 st0.
      eapply jsonAnswer_keeps_header; [done | apply handleChat_answer].
    + exfalso. apply andb_true_iff in Hmatch as [_ Hp].
      unfold pathMatches in Hp. simpl in Hp. congruence.
  - destruct (allowedMethods _ _); cbn [fst].
    + by rewrite httpError_HeaderMap.
    + rewrite httpError_HeaderMap by done. simpl. by rewrite lookup_insert_ne.
Qed.

(** The 429 answer of the keyed deployment carries the headers. *)
Lemma cors_on_every_answer_witness :
  let spent := setLimiter (NewServer Example.cfg)
                 (withRecord (rl (NewServer Example.cfg)) "10.0.0.1:1" 0 0) in
  let out := ServeHTTP Example.collab Example.cfg NewRecorder
               (Example.request "POST" "/api/v1/chat" "10.0.0.1:1" "secret-key" "hi" 1)
               spent in
  Code out.1 = StatusTooManyRequests
  ∧ HeaderMap out.1 !! "Access-Control-Allow-Origin" = Some "*".
Proof.
  intros spent out. split; [vm_compute; reflexivity|].
  refine (cors_on_every_answer Example.collab Example.cfg NewRecorder _ spent
            "Access-Control-Allow-Origin" "*" _ _).
  - reflexivity.
  - unfold corsHeaders. rewrite elem_of_cons. by left.
Defined.

(** ** Search *)

Lemma toUint64_id (z : Z) : 0 <= z <= maxInt64 → toUint64 z = z.
Proof. unfold toUint64, maxInt64. intros H. apply Z.mod_small. lia. Qed.

(** X13.  A search answers with what the index returned, as returned.  When
    the query is not empty, the model returns at least one vector and the
    index answers, the handler makes exactly two calls, one embedding of the
    query alone and one fused query over the dense sub-query only, with the
    first vector and the limit [top_k] of the request, or the configured one
    when the request's is zero or negative; the response is 200 with one
    item per returned point, in the order of the index, each item carrying
    the id, the score, the content and the remaining string fields of its
    point. *)
Theorem search_returns_index_order (X : Collab) (cfg : Config) (w : ResponseWriter)
    (r : Request) (st : World) (req : SearchRequest) (v : list float32)
    (vs : list (list float32)) (points : list ScoredPoint) :
  let topK := if bool_decide (req_TopK req <= 0) then cfg_TopK cfg else req_TopK req in
  let q := hybridQuery (cfg_Collection cfg) v None (toUint64 topK) in
  let embed := CallEmbedContent (modelName cfg) [req_Query req] in
  decodeSearch X (Body r) = Ok req →
  req_Query req ≠ EmptyString →
  EmbedContent X (calls st) (modelName cfg) [req_Query req] = Ok (Some (v :: vs)) →
  pointsQuery X (calls st ++ [embed]) q = Ok points →
  (handleSearch X cfg w r st).1
  = writeJSON w StatusOK (PSearch ((λ p, toItem (toSearchResult p)) <$> points))
  ∧ calls (handleSearch X cfg w r st).2 = calls st ++ [embed; CallPointsQuery q]
  ∧ pf_Using <$> qp_Prefetch q = ["dense"]
  ∧ (0 < req_TopK req <= maxInt64 → qp_Limit q = req_TopK req)
  ∧ ∀ (i : nat) (p : ScoredPoint),
      points !! i = Some p →
      ((λ p, toItem (toSearchResult p)) <$> points) !! i
      = Some {| item_ID := GetUuid (sp_Id p);
                item_Content := (extractPayload (sp_Payload p)).1;
                item_Score := sp_Score p;
                item_Metadata := (extractPayload (sp_Payload p)).2 |}.
Proof.
  intros topK q embed Hd Hq He Hp.
  assert (Hgo : handleSearch X cfg w r st
                = (writeJSON w StatusOK (PSearch (toItem <$> (toSearchResult <$> points))),
                   logCall (logCall st embed) (CallPointsQuery q))).
  { unfold handleSearch. rewrite Hd, decide_False by done.
    unfold EmbedQuery. rewrite He. fold embed. fold topK.
    unfold HybridSearch. fold q. simpl calls. by rewrite Hp. }
  rewrite Hgo. cbn [fst snd]. split; [by rewrite <- list_fmap_compose|]. split.
  { simpl. by rewrite <- app_assoc. }
  split; [done|]. split.
  { intros Hk. simpl. unfold topK. rewrite bool_decide_eq_false_2 by lia.
    apply toUint64_id. lia. }
  intros i p Hi. rewrite list_lookup_fmap, Hi. simpl. unfold toItem, toSearchResult. simpl.
  do 2 f_equal. by case_decide.
Qed.

Lemma search_returns_index_order_witness :
  let r := Example.request "POST" "/api/v1/search" "10.0.0.1:1" EmptyString "what" 0 in
  (handleSearch Example.collab Example.cfg NewRecorder r (NewServer Example.cfg)).1
  = writeJSON NewRecorder StatusOK
      (PSearch [ {| item_ID := "id-7"; item_Content := "spoofed"; item_Score := F32 1056964608;
                    item_Metadata := {[ "author" := "eve"; "chunk_index" := "0" ]} |} ]).
Proof.
  intros r.
  destruct (search_returns_index_order Example.collab Example.cfg NewRecorder r
              (NewServer Example.cfg) {| req_Query := "what"; req_TopK := 0 |} [F32 0] []
              [Example.storedPoint] eq_refl) as (H & _).
  - discriminate.
  - reflexivity.
  - reflexivity.
  - rewrite H. vm_compute. reflexivity.
Defined.

(** X14.  A search that cannot finish returns no result.  When the model
    fails, or returns nil or no vector, the answer is 500 and the index is
    not queried; when the index fails, the answer is 500 with its error;
    neither answer carries a result list. *)
Theorem search_stops_on_failure (X : Collab) (cfg : Config) (w : ResponseWriter)
    (r : Request) (st : World) (req : SearchRequest) :
  let embed := CallEmbedContent (modelName cfg) [req_Query req] in
  let answer := EmbedContent X (calls st) (modelName cfg) [req_Query req] in
  let topK := if bool_decide (req_TopK req <= 0) then cfg_TopK cfg else req_TopK req in
  decodeSearch X (Body r) = Ok req →
  req_Query req ≠ EmptyString →
  (∀ msg : string,
     answer = Err msg →
     handleSearch X cfg w r st
     = (writeError w StatusInternalServerError
          ("Failed to generate query embedding: " +:+ ("embed content failed: " +:+ msg)),
        logCall st embed))
  ∧ (answer = Ok None ∨ answer = Ok (Some []) →
     handleSearch X cfg w r st
     = (writeError w StatusInternalServerError
          ("Failed to generate query embedding: " +:+ "no embeddings returned"),
        logCall st embed))
  ∧ (∀ (v : list float32) (vs : list (list float32)) (msg : string),
       answer = Ok (Some (v :: vs)) →
       pointsQuery X (calls st ++ [embed])
         (hybridQuery (cfg_Collection cfg) v None (toUint64 topK)) = Err msg →
       (handleSearch X cfg w r st).1
       = writeError w StatusInternalServerError
           ("Search failed: " +:+ ("failed to search: " +:+ msg))).
Proof.
  intros embed answer topK Hd Hq.
  unfold handleSearch. rewrite Hd, decide_False by done.
  unfold EmbedQuery. fold embed answer topK. split; [|split].
  - intros msg He. by rewrite He.
  - intros [He|He]; by rewrite He.
  - intros v vs msg He Hp. rewrite He. unfold HybridSearch. simpl calls. by rewrite Hp.
Qed.

Lemma search_stops_on_failure_witness :
  let r := Example.request "POST" "/api/v1/search" "10.0.0.1:1" EmptyString "what" 0 in
  (handleSearch Example.indexDown Example.cfg NewRecorder r (NewServer Example.cfg)).1
  = writeError NewRecorder StatusInternalServerError
      "Search failed: failed to search: connection refused".
Proof.
  intros r.
  destruct (search_stops_on_failure Example.indexDown Example.cfg NewRecorder r
              (NewServer Example.cfg) {| req_Query := "what"; req_TopK := 0 |} eq_refl)
    as (_ & _ & H).
  - discriminate.
  - exact (H [F32 0] [] "connection refused" eq_refl eq_refl).
Defined.

(** X15.  The two defaults of [top_k].  [Retrieve] replaces a configured
    value of zero or less by 10, so the limit of every query it sends is at
    least 1 and is the configured value when that is positive.
    [handleSearch] falls back from the request to the configured value
    without such a guard: with a negative configured value [k] and no
    [top_k] in the request, the limit it sends is [2^64 + k]. *)
Theorem top_k_defaults (X : Collab) (cfg : Config) (query : string) (st : World)
    (q : QueryPoints) :
  minInt64 <= cfg_TopK cfg <= maxInt64 →
  (CallPointsQuery q ∈ calls (Retrieve X cfg query st).2 →
   CallPointsQuery q ∈ calls st
   ∨ (1 <= qp_Limit q <= maxInt64
      ∧ qp_Limit q = (if bool_decide (cfg_TopK cfg <= 0) then 10 else cfg_TopK cfg)
      ∧ Forall (λ pf, pf_Limit pf = qp_Limit q) (qp_Prefetch q)
      ∧ pf_Using <$> qp_Prefetch q = ["dense"]
      ∧ qp_CollectionName q = cfg_Collection cfg))
  ∧ (∀ (w : ResponseWriter) (r : Request) (req : SearchRequest),
       decodeSearch X (Body r) = Ok req → req_Query req ≠ EmptyString →
       req_TopK req <= 0 → cfg_TopK cfg < 0 →
       CallPointsQuery q ∈ calls (handleSearch X cfg w r st).2 →
       CallPointsQuery q ∈ calls st ∨ qp_Limit q = 2 ^ 64 + cfg_TopK cfg).
Proof.
  intros Hk. split.
  - unfold Retrieve, EmbedQuery, HybridSearch.
    set (k := if bool_decide (cfg_TopK cfg <= 0) then 10 else cfg_TopK cfg).
    assert (Hk1 : 1 <= k <= maxInt64).
    { unfold k. case_bool_decide; unfold maxInt64 in *; lia. }
    destruct (EmbedContent X (calls st) (modelName cfg) [query]) as [[[|v vs]|]|e]; simpl;
      try (rewrite elem_of_app, list_elem_of_singleton; intros [H|H]; [by left | done]).
    destruct (pointsQuery X _ _); simpl;
      rewrite !elem_of_app, !list_elem_of_singleton;
      (intros [[H|H]|H]; [by left | done |]); injection H as ->; right; simpl;
      rewrite toUint64_id by lia; repeat split; try lia; repeat constructor.
  - intros w r req Hd Hq Hreq Hcfg.
    unfold handleSearch. rewrite Hd, decide_False by done.
    rewrite bool_decide_eq_true_2 by done.
    unfold EmbedQuery, HybridSearch.
    assert (Hwrap : toUint64 (cfg_TopK cfg) = 2 ^ 64 + cfg_TopK cfg).
    { unfold toUint64, minInt64 in *.
      rewrite <- (Z.mod_add _ 1) by lia. rewrite Z.mod_small; lia. }
    destruct (EmbedContent X (calls st) (modelName cfg) [req_Query req]) as [[[|v vs]|]|e];
      simpl;
      try (rewrite elem_of_app, list_elem_of_singleton; intros [H|H]; [by left | done]).
    destruct (pointsQuery X _ _); simpl;
      rewrite !elem_of_app, !list_elem_of_singleton;
      (intros [[H|H]|H]; [by left | done |]); injection H as ->; right; simpl; done.
Qed.

Lemma top_k_defaults_witness :
  Forall (λ c, match c with CallPointsQuery q => qp_Limit q = 5 | _ => True end)
    (calls (Retrieve Example.collab Example.cfg "what" (NewServer Example.cfg)).2).
Proof.
  apply Forall_forall. intros c Hc. destruct c as [| | | |q| | | |]; try exact I.
  assert (Hk : minInt64 <= cfg_TopK Example.cfg <= maxInt64).
  { unfold minInt64, maxInt64. simpl. lia. }
  destruct (proj1 (top_k_defaults Example.collab Example.cfg "what" (NewServer Example.cfg)
                     q Hk) Hc) as [Hold | (_ & Hl & _)].
  - simpl in Hold. by apply elem_of_nil in Hold.
  - exact Hl.
Defined.

(** ** What is stored and what is read back *)

(** X16.  The round trip of a document through the index.  When the point
    [Upsert] builds for a document comes back from a query as it was
    stored, [HybridSearch] returns the id of the point, the score of the
    index, as content the metadata entry [content] when the document has
    one and the content of the document otherwise, and as payload the
    metadata of the document without the key [content] and without the
    entries whose value is empty. *)
Theorem stored_document_round_trip (X : Collab) (doc : Document) (st : World)
    (score : float32) :
  let p := (buildPoint X doc st).1 in
  let res := toSearchResult {| sp_Id := Some (PointId_Uuid (pt_Id p));
                               sp_Payload := pt_Payload p; sp_Score := score |} in
  res_ID res = (if decide (doc_ID doc = EmptyString) then uuidNew X (calls st) else doc_ID doc)
  ∧ res_Score res = score
  ∧ res_Content res = default (doc_Content doc) (doc_Metadata doc !! "content")
  ∧ res_Payload res
    = filter (λ kv : string * string, kv.1 ≠ "content" ∧ kv.2 ≠ EmptyString) (doc_Metadata doc).
Proof.
  intros p res.
  assert (Hp : pt_Payload p = buildPayload doc).
  { unfold p, buildPoint. by case_decide. }
  assert (Hid : pt_Id p
                = if decide (doc_ID doc = EmptyString) then uuidNew X (calls st) else doc_ID doc).
  { unfold p, buildPoint. by case_decide. }
  destruct (extractPayload_spec (buildPayload doc)) as [Hc Hm].
  unfold res, toSearchResult. cbn [res_ID res_Score res_Content res_Payload sp_Id sp_Payload
                                    sp_Score GetUuid].
  rewrite Hp. split; [|split; [done|split]].
  - rewrite <- Hid. destruct (decide (pt_Id p ≠ EmptyString)) as [Hn|Hn]; [done|].
    apply dec_stable in Hn. by rewrite Hn.
  - rewrite Hc, buildPayload_lookup. destruct (doc_Metadata doc !! "content"); [done|].
    by rewrite decide_True.
  - apply map_eq. intros k. rewrite Hm, buildPayload_lookup.
    destruct (decide (k = "content")) as [->|Hk].
    + symmetry. apply map_lookup_filter_None. right. intros v _ [H _]. by apply H.
    + destruct (doc_Metadata doc !! k) as [v|] eqn:Ek; simpl.
      * destruct (decide (v ≠ EmptyString)) as [Hv|Hv].
        -- symmetry. by apply map_lookup_filter_Some.
        -- symmetry. apply map_lookup_filter_None. right. intros v' Hv' [_ H].
           rewrite Ek in Hv'. injection Hv' as <-. done.
      * symmetry. apply map_lookup_filter_None. by left.
Qed.

(** X17.  What a search result can contain, whatever the index returned.
    The payload of a result holds an entry exactly for the keys other than
    [content] under which the point has a string value that is not empty,
    with that string; values of another kind and empty strings are dropped.
    The content is empty unless the point has a string under [content], and
    the id is empty unless the point has a UUID. *)
Theorem search_result_fields (point : ScoredPoint) :
  let res := toSearchResult point in
  (∀ (k v : string),
     res_Payload res !! k = Some v
     ↔ k ≠ "content" ∧ v ≠ EmptyString ∧ sp_Payload point !! k = Some (StringValue v))
  ∧ (∀ s : string,
       res_Content res = s ∧ s ≠ EmptyString
       ↔ s ≠ EmptyString ∧ sp_Payload point !! "content" = Some (StringValue s))
  ∧ (∀ u : string,
       res_ID res = u ∧ u ≠ EmptyString
       ↔ u ≠ EmptyString ∧ sp_Id point = Some (PointId_Uuid u)).
Proof.
  intros res. destruct (extractPayload_spec (sp_Payload point)) as [Hc Hm].
  unfold res, toSearchResult.
  cbn [res_ID res_Score res_Content res_Payload]. split; [|split].
  - intros k v. rewrite Hm. destruct (decide (k = "content")) as [->|Hk].
    + split; [done | by intros [? _]].
    + destruct (sp_Payload point !! k) as [[s|n|b|]|]; simpl;
        try (split; [done | by intros (_ & _ & ?)]).
      case_decide as Hs.
      * split; [by intros [= ->] | by intros (_ & _ & [= ->])].
      * split; [done|]. intros (_ & Hv & [= ->]). done.
  - intros s. rewrite Hc.
    destruct (sp_Payload point !! "content") as [[s'|n|b|]|]; simpl;
      try (split; [by intros [<- H] | by intros [_ ?]]).
    split; [by intros [-> H] | by intros [H [= ->]]].
  - intros u. destruct (sp_Id point) as [[n|u']|]; simpl.
    + split; [by intros [<- H] | by intros [_ ?]].
    + split.
      * intros [H Hu]. case_decide; by subst.
      * intros [Hu [= ->]]. by rewrite decide_True.
    + split; [by intros [<- H] | by intros [_ ?]].
Qed.

(** ** Storing *)

Lemma buildPoints_spec (X : Collab) (docs : list Document) :
  ∀ st : World,
    calls (buildPoints X docs st).2 = calls st ++ replicate (missingIDs docs) CallUuidNew
    ∧ length (buildPoints X docs st).1 = length docs
    ∧ ∀ (i : nat) (doc : Document),
        docs !! i = Some doc →
        ∃ id : string,
          (buildPoints X docs st).1 !! i = Some (pointOf id doc)
          ∧ (doc_ID doc ≠ EmptyString → id = doc_ID doc).
Proof.
  induction docs as [|doc docs IH]; intros st.
  - simpl. split; [by rewrite app_nil_r|]. split; [done|]. by intros i doc.
  - cbn [buildPoints].
    destruct (buildPoint X doc st) as [p st1] eqn:Ep.
    destruct (IH st1) as (H1 & H2 & H3).
    destruct (buildPoints X docs st1) as [ps st2]. cbn [fst snd] in *.
    unfold buildPoint in Ep. unfold missingIDs. rewrite filter_cons.
    destruct (decide (doc_ID doc = EmptyString)) as [Hid|Hid]; injection Ep as <- <-.
    + split; [|split].
      * rewrite H1. simpl. by rewrite <- app_assoc.
      * simpl. by rewrite H2.
      * intros [|i] d Hd.
        -- injection Hd as <-. eexists. split; [done|]. intros H. done.
        -- apply (H3 i d Hd).
    + split; [|split].
      * by rewrite H1.
      * simpl. by rewrite H2.
      * intros [|i] d Hd.
        -- injection Hd as <-. by exists (doc_ID doc).
        -- apply (H3 i d Hd).
Qed.

(** Documents that all carry an id are stored under their ids, without a
    generated one. *)
Lemma buildPoints_with_ids (X : Collab) (docs : list Document) :
  Forall (λ doc, doc_ID doc ≠ EmptyString) docs →
  ∀ st : World,
    buildPoints X docs st = ((λ doc, pointOf (doc_ID doc) doc) <$> docs, st).
Proof.
  induction 1 as [|doc docs Hd _ IH]; intros st; [done|].
  cbn [buildPoints]. unfold buildPoint. rewrite decide_False by done.
  by rewrite IH.
Qed.

Lemma buildDocs_calls (X : Collab) (req : UploadTextRequest) (embs : list (list float32))
    (chunks : list string) :
  ∀ (i : nat) (st : World),
    calls (buildDocs X req embs i chunks st).2
    = calls st ++ replicate (length chunks) CallUuidNew
    ∧ ∀ (j : nat) (doc : Document),
        (buildDocs X req embs i chunks st).1.1 !! j = Some doc →
        doc_ID doc = uuidNew X (calls st ++ replicate j CallUuidNew).
Proof.
  induction chunks as [|c chunks IH]; intros i st.
  - simpl. split; [by rewrite app_nil_r|]. by intros j doc.
  - cbn [buildDocs].
    destruct (IH (S i) (logCall st CallUuidNew)) as [H1 H2].
    destruct (buildDocs X req embs (S i) chunks (logCall st CallUuidNew)) as [[ds is'] st2].
    cbn [fst snd] in *. split.
    + rewrite H1. simpl. by rewrite <- app_assoc.
    + intros [|j] doc Hj.
      * injection Hj as <-. simpl. by rewrite app_nil_r.
      * rewrite (H2 j doc Hj). simpl. by rewrite <- app_assoc.
Qed.

(** X18.  [Upsert] sends one batch.  Whatever the documents, also when there
    are none, [Upsert] draws one id for each document without an id and then
    makes exactly one call to the index, with one point per document in the
    order of the documents; a document that carries an id is stored under
    it; the result is the one of that call, an error being returned behind
    the prefix of [Upsert]. *)
Theorem upsert_is_one_batch (X : Collab) (collection : string) (docs : list Document)
    (st : World) :
  ∃ points : list PointStruct,
    let before := calls st ++ replicate (missingIDs docs) CallUuidNew in
    calls (Upsert X collection docs st).2 = before ++ [CallPointsUpsert collection points]
    ∧ length points = length docs
    ∧ (∀ (i : nat) (doc : Document),
         docs !! i = Some doc →
         ∃ id : string,
           points !! i = Some (pointOf id doc)
           ∧ (doc_ID doc ≠ EmptyString → id = doc_ID doc))
    ∧ (Upsert X collection docs st).1
      = match pointsUpsert X before collection points with
        | Ok _ => Ok tt
        | Err e => Err ("failed to upsert points: " +:+ e)
        end.
Proof.
  destruct (buildPoints_spec X docs st) as (H1 & H2 & H3).
  unfold Upsert. destruct (buildPoints X docs st) as [ps st1]. cbn [fst snd] in *.
  exists ps. cbn zeta. rewrite <- H1.
  destruct (pointsUpsert X (calls st1) collection ps); simpl; repeat split; done.
Qed.

(** X19.  An upload is stored as one batch of its chunks.  When the text is
    not empty, the splitter returns at least one chunk, the model one vector
    per chunk, and generated ids are never empty, the handler calls, in this
    order, the splitter once, the model once with all chunks, the id
    generator once per chunk and the index once; the batch holds one point
    per chunk in chunk order, stored under the generated id, with the chunk
    as content, the merged metadata of that chunk, and the vector of that
    chunk as its only, dense, vector.  The answer is 200 with these ids when
    the index accepts the batch, and 500 without any id when it refuses. *)
Theorem ingest_is_one_batch (X : Collab) (cfg : Config) (w : ResponseWriter) (r : Request)
    (st : World) (req : UploadTextRequest) (chunks : list string)
    (embs : list (list float32)) :
  let text := req_Text req in
  let embedded := calls st ++ [CallSplitText text; CallEmbedContent (modelName cfg) chunks] in
  let before := embedded ++ replicate (length chunks) CallUuidNew in
  decodeUpload X (Body r) = Ok req →
  text ≠ EmptyString →
  SplitText X (calls st) text = Ok chunks →
  chunks ≠ [] →
  EmbedContent X (calls st ++ [CallSplitText text]) (modelName cfg) chunks = Ok (Some embs) →
  length embs = length chunks →
  (∀ log : list Call, uuidNew X log ≠ EmptyString) →
  ∃ docs : list Document,
    let points := (λ doc, pointOf (doc_ID doc) doc) <$> docs in
    calls (handleUploadText X cfg w r st).2
    = before ++ [CallPointsUpsert (cfg_Collection cfg) points]
    ∧ doc_Content <$> docs = chunks
    ∧ (∀ (i : nat) (doc : Document),
         docs !! i = Some doc →
         doc_ID doc = uuidNew X (embedded ++ replicate i CallUuidNew)
         ∧ doc_Metadata doc = mergeMetadata req (Z.of_nat i)
         ∧ embs !! i = Some (doc_Dense doc)
         ∧ buildVectors doc = {[ "dense" := {| vec_Data := doc_Dense doc; vec_Indices := None |} ]})
    ∧ (handleUploadText X cfg w r st).1
      = match pointsUpsert X before (cfg_Collection cfg) points with
        | Ok _ =>
            writeJSON w StatusOK
              (PUpload {| up_Message := "Text uploaded and chunked successfully";
                          up_ChunkCount := Z.of_nat (length chunks);
                          up_ChunkIDs := doc_ID <$> docs |})
        | Err e =>
            writeError w StatusInternalServerError
              ("Failed to store documents: " +:+ ("failed to upsert points: " +:+ e))
        end.
Proof.
  intros text embedded before Hd Ht Hs Hc He Hl Hu.
  unfold handleUploadText. rewrite Hd, decide_False by done. fold text. rewrite Hs.
  rewrite decide_False by (by destruct chunks).
  unfold EmbedDocuments. cbn [logCall calls]. rewrite He.
  rewrite decide_False by (intros H; by apply H).
  set (st2 := logCall (logCall st (CallSplitText text)) (CallEmbedContent (modelName cfg) chunks)).
  assert (Hst2 : calls st2 = embedded).
  { unfold st2, embedded. simpl. by rewrite <- app_assoc. }
  destruct (buildDocs_calls X req embs chunks 0 st2) as [Hcalls Hids].
  destruct (buildDocs X req embs 0 chunks st2) as [[docs ids] st3] eqn:Ed.
  cbn [fst snd] in Hcalls, Hids.
  destruct (buildDocs_spec X req embs chunks 0 st2 st3 docs ids Ed) as (Hi & Hcont & Hdoc).
  assert (Hne : Forall (λ doc, doc_ID doc ≠ EmptyString) docs).
  { apply Forall_lookup. intros j doc Hj. rewrite (Hids j doc Hj). apply Hu. }
  unfold Upsert. rewrite (buildPoints_with_ids X docs Hne st3).
  rewrite Hcalls, Hst2. fold before.
  exists docs. cbn zeta. split; [|split; [done|split]].
  - destruct (pointsUpsert X before (cfg_Collection cfg) _); simpl;
      by rewrite Hcalls, Hst2.
  - intros i doc Hi'. destruct (Hdoc i doc Hi') as (Hm & Hv & Hsp). simpl in Hm, Hv.
    split; [by rewrite (Hids i doc Hi'), Hst2|]. split; [done|]. split.
    + assert (Hlt : (i < length embs)%nat).
      { rewrite Hl, <- Hcont, length_fmap. by eapply lookup_lt_Some. }
      destruct (lookup_lt_is_Some_2 embs i Hlt) as [v Ev]. rewrite Ev in Hv. simpl in Hv.
      by rewrite Hv.
    + unfold buildVectors. by rewrite Hsp.
  - subst ids. by destruct (pointsUpsert X before (cfg_Collection cfg) _).
Qed.

Lemma ingest_is_one_batch_witness :
  let r := Example.request "POST" "/api/v1/upload_text" "10.0.0.1:80" EmptyString "hello" 0 in
  let out := handleUploadText Example.collab Example.cfg NewRecorder r (NewServer Example.cfg) in
  ∃ docs : list Document,
    doc_Content <$> docs = ["hello"; "tail"]
    ∧ calls out.2
      = [CallSplitText "hello"; CallEmbedContent "gemini-embedding-001" ["hello"; "tail"];
         CallUuidNew; CallUuidNew;
         CallPointsUpsert "documents" ((λ doc, pointOf (doc_ID doc) doc) <$> docs)].
Proof.
  intros r out.
  destruct (ingest_is_one_batch Example.collab Example.cfg NewRecorder r
              (NewServer Example.cfg)
              {| req_Text := "hello";
                 req_Metadata := {[ "content" := "spoofed"; "author" := "eve" ]};
                 req_Source := "notes.txt" |}
              ["hello"; "tail"] [[F32 0]; [F32 0]])
    as (docs & Hcalls & Hcont & _).
  - reflexivity.
  - discriminate.
  - reflexivity.
  - discriminate.
  - reflexivity.
  - reflexivity.
  - intros log. simpl. discriminate.
  - exists docs. split; [exact Hcont | exact Hcalls].
Defined.

(** ** The answer of a chat *)

Lemma append_assoc (a b c : string) : (a +:+ b) +:+ c = a +:+ (b +:+ c).
Proof.
  induction a as [|x a IH]; [done|].
  change (String x ((a +:+ b) +:+ c) = String x (a +:+ (b +:+ c))). by rewrite IH.
Qed.

Lemma append_empty_r (a : string) : a +:+ EmptyString = a.
Proof.
  induction a as [|x a IH]; [done|].
  change (String x (a +:+ EmptyString) = String x a). by rewrite IH.
Qed.

Lemma joinTexts_app (l k : list string) : joinTexts (l ++ k) = joinTexts l +:+ joinTexts k.
Proof.
  induction l as [|x l IH]; [done|]. unfold joinTexts in *.
  rewrite <- app_comm_cons. cbn [foldr]. by rewrite IH, append_assoc.
Qed.

(** The inner loop of [handleChat] appends the texts of the parts. *)
Lemma parts_appended (parts : list string) :
  ∀ acc : string,
    foldl (λ acc text, if decide (text ≠ EmptyString) then acc +:+ text else acc) acc parts
    = acc +:+ joinTexts parts.
Proof.
  induction parts as [|p parts IH]; intros acc.
  - simpl. by rewrite append_empty_r.
  - cbn [foldl]. rewrite IH. unfold joinTexts. cbn [foldr].
    case_decide as Hp.
    + by rewrite append_assoc.
    + by rewrite Hp.
Qed.

Lemma drain_ok (events : list (Result Event)) :
  Forall isOk events →
  ∀ acc : string, drain events acc = Ok (acc +:+ joinTexts (concat (eventTexts <$> events))).
Proof.
  induction 1 as [|ev events Hev _ IH]; intros acc.
  - simpl. by rewrite append_empty_r.
  - destruct ev as [e|msg]; [|done]. cbn [drain].
    rewrite fmap_cons. cbn [concat]. rewrite joinTexts_app. unfold eventTexts at 1.
    destruct (ev_Content e) as [parts|]; simpl.
    + by rewrite IH, parts_appended, append_assoc.
    + by rewrite IH.
Qed.

Lemma drain_err (pre post : list (Result Event)) (e : string) :
  Forall isOk pre → ∀ acc : string, drain (pre ++ Err e :: post) acc = Err e.
Proof.
  induction 1 as [|ev pre Hev _ IH]; intros acc; [done|].
  destruct ev as [x|msg]; [|done]. simpl. by destruct (ev_Content x).
Qed.

(** X20.  The answer of a chat is the text of the whole run, or its first
    error.  Once the session is there and the runner is built, the handler
    runs the agent once, with the user id of the request or [default_user];
    when no event carries an error, the answer is 200 with the session id
    and the texts of all parts of all events, in arrival order, joined
    without a separator; when an event carries an error, the answer is 500
    with the first such error and none of the text that came before it. *)
Theorem chat_answer_is_run_text (X : Collab) (cfg : Config) (w : ResponseWriter)
    (r : Request) (st st1 st2 st3 : World) (req : ChatRequest) (sid : string)
    (ret : Result RetrievedContext) (runner : Runner) :
  let retrieved := match ret with Ok rc => Some rc | Err _ => None end in
  let events := runnerRun X (calls st3) runner (chatUserID req) sid (req_Message req) in
  decodeChat X (Body r) = Ok req →
  req_Message req ≠ EmptyString →
  ensureSession X req st = (Ok sid, st1) →
  Retrieve X cfg (req_Message req) st1 = (ret, st2) →
  NewRunner X cfg "agentic_rag_go" retrieved st2 = (Ok runner, st3) →
  calls (handleChat X cfg w r st).2
  = calls st3 ++ [CallRunnerRun runner (chatUserID req) sid (req_Message req)]
  ∧ (Forall isOk events →
     (handleChat X cfg w r st).1
     = writeJSON w StatusOK
         (PChat {| chat_Response := joinTexts (concat (eventTexts <$> events));
                   chat_SessionID := sid |}))
  ∧ (∀ (pre post : list (Result Event)) (e : string),
       events = pre ++ Err e :: post → Forall isOk pre →
       (handleChat X cfg w r st).1
       = writeError w StatusInternalServerError ("Agent error: " +:+ e)).
Proof.
  intros retrieved events Hd Hm Hs Hr Hn.
  unfold handleChat. rewrite Hd, decide_False by done. rewrite Hs, Hr.
  fold retrieved. rewrite Hn. fold events. split; [|split].
  - by destruct (drain events EmptyString).
  - intros Hok. by rewrite (drain_ok events Hok).
  - intros pre post e -> Hpre. by rewrite (drain_err pre post e Hpre).
Qed.

Lemma chat_answer_is_run_text_witness :
  let r := Example.request "POST" "/api/v1/chat" "10.0.0.1:80" EmptyString "hi" 0 in
  (handleChat Example.collab Example.cfg NewRecorder r (NewServer Example.cfg)).1
  = writeJSON NewRecorder StatusOK
      (PChat {| chat_Response := "Hello, world!"; chat_SessionID := "session-1" |}).
Proof.
  intros r.
  set (st := NewServer Example.cfg).
  set (s1 := ensureSession Example.collab (mkChatRequest "hi" EmptyString EmptyString) st).
  set (s2 := Retrieve Example.collab Example.cfg "hi" s1.2).
  set (s3 := NewRunner Example.collab Example.cfg "agentic_rag_go"
               (match s2.1 with Ok rc => Some rc | Err _ => None end) s2.2).
  destruct (chat_answer_is_run_text Example.collab Example.cfg NewRecorder r st s1.2 s2.2 s3.2
              (mkChatRequest "hi" EmptyString EmptyString) "session-1" s2.1
              {| run_AppName := "agentic_rag_go";
                 run_Agent := {| ag_Name := "rag_agent";
                                 ag_Description := "answers from the knowledge base";
                                 ag_Instruction :=
                                   buildInstruction "You are a helpful assistant."
                                     (contextString Example.collab
                                        (match s2.1 with Ok rc => Some rc | Err _ => None end));
                                 ag_Tools := [GoogleSearch] |} |})
    as (_ & Hok & _).
  - reflexivity.
  - discriminate.
  - reflexivity.
  - apply surjective_pairing.
  - reflexivity.
  - rewrite Hok; [reflexivity|]. repeat constructor.
Defined.

(** ** What a request can reach *)

Lemma extends_refl (P : Call → Prop) (st : World) : extends P st st.
Proof. exists []. by rewrite app_nil_r. Qed.

Lemma extends_trans (P : Call → Prop) (st1 st2 st3 : World) :
  extends P st1 st2 → extends P st2 st3 → extends P st1 st3.
Proof.
  intros (l1 & H1 & F1) (l2 & H2 & F2). exists (l1 ++ l2).
  split; [by rewrite H2, H1, <- app_assoc | by apply Forall_app].
Qed.

Lemma extends_log (P : Call → Prop) (st : World) (c : Call) : P c → extends P st (logCall st c).
Proof. intros Hc. exists [c]. split; [done | by constructor]. Qed.

Lemma extends_calls (P : Call → Prop) (st st0 st' : World) :
  calls st0 = calls st → extends P st0 st' → extends P st st'.
Proof. intros H (l & Hl & F). exists l. by rewrite <- H. Qed.

Ltac extends_tac :=
  repeat first
    [ apply extends_refl
    | eapply extends_trans; [|apply extends_log; reflexivity] ].

(** A search and a chat append only calls that read. *)
Lemma EmbedQuery_reads (X : Collab) (cfg : Config) (q : string) (st : World) :
  extends (λ c, isWrite c = false) st (EmbedQuery X cfg q st).2.
Proof.
  unfold EmbedQuery.
  destruct (EmbedContent X (calls st) (modelName cfg) [q]) as [[[|v vs]|]|e];
    cbn [snd]; extends_tac.
Qed.

Lemma HybridSearch_reads (X : Collab) (c : string) (v : list float32)
    (sv : option SparseVector) (k : Z) (st : World) :
  extends (λ c, isWrite c = false) st (HybridSearch X c v sv k st).2.
Proof. unfold HybridSearch. destruct (pointsQuery X _ _); cbn [snd]; extends_tac. Qed.

Lemma Retrieve_reads (X : Collab) (cfg : Config) (q : string) (st : World) :
  extends (λ c, isWrite c = false) st (Retrieve X cfg q st).2.
Proof.
  unfold Retrieve.
  pose proof (EmbedQuery_reads X cfg q st) as H1.
  destruct (EmbedQuery X cfg q st) as [[v|e] st1]; cbn [snd] in *; [|done].
  pose proof (HybridSearch_reads X (cfg_Collection cfg) v None
                (toUint64 (if bool_decide (cfg_TopK cfg <= 0) then 10 else cfg_TopK cfg)) st1)
    as H2.
  destruct (HybridSearch X _ _ _ _ st1) as [[res|e] st2]; cbn [snd] in *;
    by eapply extends_trans.
Qed.

Lemma NewRunner_reads (X : Collab) (cfg : Config) (app : string)
    (retrieved : option RetrievedContext) (st : World) :
  extends (λ c, isWrite c = false) st (NewRunner X cfg app retrieved st).2.
Proof.
  unfold NewRunner. destruct (llmagentNew X _ _); cbn [snd]; [|extends_tac].
  destruct (runnerNew X _ _ _); cbn [snd]; extends_tac.
Qed.

Lemma handleSearch_reads (X : Collab) (cfg : Config) (w : ResponseWriter) (r : Request)
    (st : World) :
  extends (λ c, isWrite c = false) st (handleSearch X cfg w r st).2.
Proof.
  unfold handleSearch.
  destruct (decodeSearch X (Body r)) as [req|e]; [|apply extends_refl].
  case_decide; [apply extends_refl|].
  pose proof (EmbedQuery_reads X cfg (req_Query req) st) as H1.
  destruct (EmbedQuery X cfg (req_Query req) st) as [[v|e] st1]; cbn [snd] in *; [|done].
  match goal with
  | |- context [HybridSearch X ?c ?v ?sv ?k st1] =>
      pose proof (HybridSearch_reads X c v sv k st1) as H2;
      destruct (HybridSearch X c v sv k st1) as [[res|e] st2]
  end; cbn [snd] in *; by eapply extends_trans.
Qed.

Lemma handleChat_reads (X : Collab) (cfg : Config) (w : ResponseWriter) (r : Request)
    (st : World) :
  extends (λ c, isWrite c = false) st (handleChat X cfg w r st).2.
Proof.
  unfold handleChat.
  destruct (decodeChat X (Body r)) as [req|e]; [|apply extends_refl].
  case_decide; [apply extends_refl|].
  assert (H1 : extends (λ c, isWrite c = false) st (ensureSession X req st).2).
  { unfold ensureSession. case_decide; cbn [snd]; extends_tac. }
  destruct (ensureSession X req st) as [[sid|e] st1]; cbn [snd] in *; [|done].
  pose proof (Retrieve_reads X cfg (req_Message req) st1) as H2.
  destruct (Retrieve X cfg (req_Message req) st1) as [ret st2]; cbn [snd] in *.
  match goal with
  | |- context [NewRunner X cfg ?a ?b st2] =>
      pose proof (NewRunner_reads X cfg a b st2) as H3;
      destruct (NewRunner X cfg a b st2) as [[rn|e] st3]
  end; cbn [snd] in *.
  - destruct (drain _ _); cbn [snd];
      (eapply extends_trans; [|apply extends_log; reflexivity]);
      eapply extends_trans; [|exact H3| |exact H3]; by eapply extends_trans.
  - eapply extends_trans; [|exact H3]. by eapply extends_trans.
Qed.

(** Where [ServeHTTP] takes a request: to an answer that leaves the state
    alone, or through the gate to one of the three handlers. *)
Lemma ServeHTTP_cases (X : Collab) (cfg : Config) (w : ResponseWriter) (r : Request)
    (st : World) :
  (ServeHTTP X cfg w r st).2 = st
  ∨ ∃ h : Handler,
      ServeHTTP X cfg w r st = rateLimit (auth (cfg_APIKey cfg) h) (withCORS w) r st
      ∧ Method r = "POST"
      ∧ ((h = handleUploadText X cfg ∧ Path r ∈ uploadPaths)
         ∨ h = handleSearch X cfg ∨ h = handleChat X cfg).
Proof.
  unfold ServeHTTP. fold (withCORS w). case_decide; [by left|].
  unfold muxServeHTTP.
  destruct (find _ (registerRoutes X cfg)) as [rt|] eqn:Ef.
  - apply find_some in Ef as [Hrt Hmatch].
    apply andb_true_iff in Hmatch as [Hm Hp].
    unfold registerRoutes, handleUploadTextV2, handleSearchV2, handleChatV2 in Hrt.
    simpl in Hrt.
    destruct Hrt as [<-|[<-|[<-|[<-|[<-|[<-|[<-|[<-|[]]]]]]]]]; cbn [rt_Handler];
      try (by left);
      right; eexists; (split; [reflexivity|]);
      (split; [unfold methodMatches in Hm; simpl in Hm; rewrite orb_false_r in Hm;
               by apply bool_decide_eq_true in Hm|]).
    + left. split; [done|]. unfold pathMatches in Hp. simpl in Hp.
      apply bool_decide_eq_true in Hp as <-. unfold uploadPaths. set_solver.
    + by right; left.
    + by right; right.
    + left. split; [done|]. unfold pathMatches in Hp. simpl in Hp.
      apply bool_decide_eq_true in Hp as <-. unfold uploadPaths. set_solver.
    + by right; left.
    + by right; right.
  - left. by destruct (allowedMethods _ _).
Qed.

(** What the gate does with a request: it refuses it with 401 or 429 and
    calls nothing, or hands it to the handler with the log as it was, in
    which case the key was right or none is configured. *)
Lemma gate_cases (key : string) (h : Handler) (w : ResponseWriter) (r : Request) (st : World) :
  (calls (rateLimit (auth key h) w r st).2 = calls st
   ∧ (wroteHeader w = false →
      Code (rateLimit (auth key h) w r st).1 = StatusUnauthorized
      ∨ Code (rateLimit (auth key h) w r st).1 = StatusTooManyRequests))
  ∨ ∃ st0 : World,
      calls st0 = calls st
      ∧ rateLimit (auth key h) w r st = h w r st0
      ∧ (key = EmptyString ∨ HeaderGet (Header r) xApiKey = key).
Proof.
  assert (Ha : ∀ st0, calls st0 = calls st →
            (calls (auth key h w r st0).2 = calls st
             ∧ (wroteHeader w = false → Code (auth key h w r st0).1 = StatusUnauthorized))
            ∨ (auth key h w r st0 = h w r st0
               ∧ (key = EmptyString ∨ HeaderGet (Header r) xApiKey = key))).
  { intros st0 H0. unfold auth. case_decide as Hk; [right; by split; [|left]|].
    case_decide as Hh.
    - left. split; [done|]. intros Hw. cbn [fst]. by apply httpError_Code.
    - right. split; [done|]. by right. }
  unfold rateLimit. case_decide.
  - destruct (Ha st eq_refl) as [[H1 H2]|[H1 H2]]; [left; split; auto | right; by exists st].
  - destruct (allow (rl st) (RemoteAddr r) (Clock r)) as [[] l']; cbn [negb].
    + destruct (Ha (setLimiter st l') eq_refl) as [[H1 H2]|[H1 H2]];
        [left; split; auto | right; by exists (setLimiter st l')].
    + left. split; [done|]. intros Hw. right. cbn [fst]. by apply httpError_Code.
Qed.

(** X21.  Only an upload writes to the index.  Whatever the collaborators
    answer, a request that is not a [POST] to one of the two upload paths
    makes the server append to its calls only calls that read: no search, no
    chat, no health check and no refused request ever sends points to the
    index. *)
Theorem only_uploads_write (X : Collab) (cfg : Config) (w : ResponseWriter) (r : Request)
    (st : World) :
  ¬ (Method r = "POST" ∧ Path r ∈ uploadPaths) →
  extends (λ c, isWrite c = false) st (ServeHTTP X cfg w r st).2.
Proof.
  intros Hnot.
  destruct (ServeHTTP_cases X cfg w r st) as [->|(h & -> & Hm & Hh)]; [apply extends_refl|].
  destruct (gate_cases (cfg_APIKey cfg) h (withCORS w) r st) as [[Hc _]|(st0 & H0 & -> & _)].
  { exists []. by rewrite app_nil_r. }
  apply (extends_calls _ st st0); [done|].
  destruct Hh as [[_ Hp]|[->| ->]]; [by destruct Hnot | apply handleSearch_reads
                                     | apply handleChat_reads].
Qed.

Lemma only_uploads_write_witness :
  let r := Example.request "POST" "/api/v1/chat" "10.0.0.1:80" "secret-key" "hi" 0 in
  extends (λ c, isWrite c = false) (NewServer Example.cfg)
    (ServeHTTP Example.collab Example.cfg NewRecorder r (NewServer Example.cfg)).2.
Proof.
  intros r. apply only_uploads_write.
  intros [_ H]. unfold uploadPaths in H. rewrite !elem_of_cons, elem_of_nil in H.
  destruct H as [H|[H|[]]]; discriminate H.
Defined.

(** X22.  A refused request reaches no collaborator.  When a key is
    configured, a request with another key, or with none, makes the server
    call nothing, whatever its method and path; and whenever the server
    answers 401, 429, 404 or 405 on a fresh response, it has called
    nothing: neither the splitter, the model, the index, the session service
    nor the agent. *)
Theorem refused_requests_reach_nothing (X : Collab) (cfg : Config) (w : ResponseWriter)
    (r : Request) (st : World) :
  (cfg_APIKey cfg ≠ EmptyString → HeaderGet (Header r) xApiKey ≠ cfg_APIKey cfg →
   calls (ServeHTTP X cfg w r st).2 = calls st)
  ∧ (wroteHeader w = false → Code (ServeHTTP X cfg w r st).1 ∈ refusals →
     calls (ServeHTTP X cfg w r st).2 = calls st).
Proof.
  destruct (ServeHTTP_cases X cfg w r st) as [->|(h & -> & Hm & Hh)]; [by split|].
  destruct (gate_cases (cfg_APIKey cfg) h (withCORS w) r st)
    as [[Hc _]|(st0 & H0 & Hgo & Hkey)]; [by split|].
  split.
  - intros Hk Hbad. by destruct Hkey.
  - intros Hw Hcode. exfalso. rewrite Hgo in Hcode.
    assert (Hj : ∃ S, jsonAnswer S (withCORS w) (h (withCORS w) r st0).1).
    { destruct Hh as [[-> _]|[->| ->]]; eexists;
        [apply handleUploadText_answer | apply handleSearch_answer | apply handleChat_answer]. }
    destruct Hj as (S & status & p & Hout & Hcase). rewrite Hout in Hcode.
    rewrite writeJSON_Code in Hcode by done.
    unfold refusals in Hcode. rewrite !elem_of_cons, elem_of_nil in Hcode.
    destruct Hcase as [[-> _]|[[-> | ->] _]];
      destruct Hcode as [?|[?|[?|[?|[]]]]]; discriminate.
Qed.

Lemma refused_requests_reach_nothing_witness :
  let r := Example.request "POST" "/api/v1/upload_text" "10.0.0.1:80" "wrong" "hello" 0 in
  calls (ServeHTTP Example.collab Example.cfg NewRecorder r (NewServer Example.cfg)).2 = [].
Proof.
  intros r.
  apply (proj1 (refused_requests_reach_nothing Example.collab Example.cfg NewRecorder r
                  (NewServer Example.cfg))).
  - discriminate.
  - vm_compute. discriminate.
Defined.

(** ** The instruction of the agent *)

Lemma writeDocuments_entries (X : Collab) (docs : list SearchResult) :
  ∀ i : Z,
    writeDocuments X i docs
    = joinTexts (imap (λ j doc, documentEntry X (i + Z.of_nat j + 1) doc) docs).
Proof.
  induction docs as [|doc docs IH]; intros i; [done|].
  cbn [writeDocuments]. rewrite imap_cons. unfold joinTexts. cbn [foldr].
  fold (joinTexts (imap ((λ j doc, documentEntry X (i + Z.of_nat j + 1) doc) ∘ S) docs)).
  rewrite IH. unfold documentEntry at 2.
  rewrite !append_assoc. replace (i + Z.of_nat 0 + 1) with (i + 1) by lia.
  do 10 f_equal. apply imap_ext. intros j d _. simpl. f_equal. lia.
Qed.

(** X23.  The instruction of the agent lists the retrieved documents in
    order.  [NewRunner] first creates the agent, with the configured name
    and description, the search tool as only tool, and as instruction the
    configured instruction, the context and the strategy; the context is
    empty without retrieved documents, and otherwise the heading followed
    by one entry per document, in the order of retrieval, numbered from 1,
    with its formatted score and its content.  The runner is created only
    when the agent was, for the same agent, and is what a success returns. *)
Theorem instruction_lists_documents (X : Collab) (cfg : Config) (appName : string)
    (retrieved : option RetrievedContext) (st : World) :
  let docs := match retrieved with Some rc => rc_Documents rc | None => [] end in
  let context :=
    if decide (docs = []) then EmptyString
    else contextHeading
         +:+ joinTexts (imap (λ i doc, documentEntry X (Z.of_nat i + 1) doc) docs) in
  let ac := {| ag_Name := cfg_AgentName cfg;
               ag_Description := cfg_AgentDescription cfg;
               ag_Instruction := buildInstruction (cfg_AgentInstruction cfg) context;
               ag_Tools := [GoogleSearch] |} in
  let out := NewRunner X cfg appName retrieved st in
  ∃ rest : list Call,
    calls out.2 = calls st ++ CallAgentNew ac :: rest
    ∧ (∀ e : string,
         llmagentNew X (calls st) ac = Err e →
         rest = [] ∧ out.1 = Err ("failed to create agent: " +:+ e))
    ∧ (∀ rn : Runner,
         out.1 = Ok rn →
         rn = {| run_AppName := appName; run_Agent := ac |}
         ∧ rest = [CallRunnerNew appName ac]).
Proof.
  intros docs context ac out.
  assert (Hctx : contextString X retrieved = context).
  { unfold context, docs, contextString. destruct retrieved as [[ds q]|]; [|done].
    cbn [rc_Documents]. destruct ds as [|d ds]; [done|].
    rewrite bool_decide_eq_true_2 by (simpl; lia). rewrite decide_False by done.
    rewrite writeDocuments_entries. unfold contextHeading. rewrite !append_assoc.
    do 5 f_equal. }
  unfold out, NewRunner. rewrite Hctx. fold ac.
  destruct (llmagentNew X (calls st) ac) as [u|e] eqn:Ea; cbn [fst snd].
  - destruct (runnerNew X _ appName ac) as [u'|e]; cbn [fst snd].
    + exists [CallRunnerNew appName ac]. split; [simpl; by rewrite <- app_assoc|].
      split; [done|]. by intros rn [= <-].
    + exists [CallRunnerNew appName ac]. split; [simpl; by rewrite <- app_assoc|].
      split; done.
  - exists []. split; [done|]. split; [|done]. by intros e' [= <-].
Qed.

(** ** Collections *)

Lemma createdNames_app (l k : list CollectionsCall) :
  createdNames (l ++ k) = createdNames l ++ createdNames k.
Proof. unfold createdNames. apply omap_app. Qed.

(** X24.  [EnsureCollection] creates a collection at most once and never
    looks at the size of an existing one.  Against an index that reports a
    collection as existing exactly when it has been created, and accepts
    every creation, a first call succeeds and creates the collection when it
    was not there, with the requested size; a second call for the same name
    succeeds with the existence check as its only call, whatever size it
    asks for, so that a collection of another size is kept as it is. *)
Theorem ensure_collection_creates_once (C : CollectionsClient) (name : string)
    (size size' : Z) (log : list CollectionsCall) :
  (∀ l n, collectionExists C l n = Ok (bool_decide (n ∈ createdNames l))) →
  (∀ l req, collectionsCreate C l req = Ok tt) →
  let first := EnsureCollection C name size log in
  let second := EnsureCollection C name size' first.2 in
  first.1 = Ok tt
  ∧ first.2
    = log ++ CallCollectionExists name
             :: (if bool_decide (name ∈ createdNames log) then []
                 else [CallCollectionsCreate (createRequest name size)])
  ∧ name ∈ createdNames first.2
  ∧ second.1 = Ok tt
  ∧ second.2 = first.2 ++ [CallCollectionExists name].
Proof.
  intros Hex Hcr first second.
  assert (H1 : first
               = (Ok tt, log ++ CallCollectionExists name
                           :: (if bool_decide (name ∈ createdNames log) then []
                               else [CallCollectionsCreate (createRequest name size)]))).
  { unfold first, EnsureCollection. rewrite Hex.
    case_bool_decide; [done|]. rewrite Hcr. by rewrite <- app_assoc. }
  assert (Hin : name ∈ createdNames first.2).
  { rewrite H1. cbn [snd]. rewrite createdNames_app. apply elem_of_app.
    case_bool_decide; [by left|]. right. simpl. by left. }
  split; [by rewrite H1|]. split; [by rewrite H1|]. split; [done|].
  unfold second, EnsureCollection. rewrite Hex.
  by rewrite bool_decide_eq_true_2.
Qed.

Lemma ensure_collection_creates_once_witness :
  (EnsureCollection Demo.collections "agenticraggo" 1536
     (EnsureCollection Demo.collections "agenticraggo" 768 []).2).2
  = [ CallCollectionExists "agenticraggo";
      CallCollectionsCreate (createRequest "agenticraggo" 768);
      CallCollectionExists "agenticraggo" ].
Proof.
  destruct (ensure_collection_creates_once Demo.collections "agenticraggo" 768 1536 [])
    as (_ & H1 & _ & _ & H2).
  - reflexivity.
  - reflexivity.
  - rewrite H2, H1. reflexivity.
Defined.

(** X25.  The vector names agree across the client.  Every vector [Upsert]
    stores and every sub-query [HybridSearch] sends uses a name that
    [EnsureCollection] declares: a stored vector without indices is named
    as the dense vector of the collection, a stored vector with indices as
    its sparse vector, and a sub-query names the dense vector for a dense
    input and the sparse vector for a sparse one. *)
Theorem vector_names_are_declared (name collection : string) (size topK : Z) (doc : Document)
    (dense : list float32) (sparse : option SparseVector) :
  let req := createRequest name size in
  (∀ (n : string) (v : pbVector),
     buildVectors doc !! n = Some v →
     match vec_Indices v with
     | None => is_Some (cc_VectorsConfig req !! n) ∧ vec_Data v = doc_Dense doc
     | Some ix =>
         is_Some (cc_SparseVectorsConfig req !! n)
         ∧ doc_Sparse doc = Some {| Indices := ix; Values := vec_Data v |}
     end)
  ∧ is_Some (buildVectors doc !! "dense")
  ∧ Forall (λ pf,
      match pf_Query pf with
      | Query_Nearest (VectorInput_Dense _) => is_Some (cc_VectorsConfig req !! pf_Using pf)
      | Query_Nearest (VectorInput_Sparse _ _) =>
          is_Some (cc_SparseVectorsConfig req !! pf_Using pf)
      | Query_Fusion _ => False
      end) (qp_Prefetch (hybridQuery collection dense sparse topK)).
Proof.
  intros req. split; [|split].
  - intros n v. unfold buildVectors. destruct (doc_Sparse doc) as [[ix vals]|].
    + destruct (decide (n = "sparse")) as [->|Hs].
      * rewrite lookup_insert_eq. intros [= <-]. simpl. split; [|done].
        by rewrite lookup_singleton_eq.
      * rewrite lookup_insert_ne by done.
        destruct (decide (n = "dense")) as [->|Hd].
        -- rewrite lookup_singleton_eq. intros [= <-]. simpl. split; [|done].
           by rewrite lookup_singleton_eq.
        -- by rewrite lookup_singleton_ne.
    + destruct (decide (n = "dense")) as [->|Hd].
      * rewrite lookup_singleton_eq. intros [= <-]. simpl. split; [|done].
        by rewrite lookup_singleton_eq.
      * by rewrite lookup_singleton_ne.
  - unfold buildVectors. destruct (doc_Sparse doc).
    + rewrite lookup_insert_ne by done. by rewrite lookup_singleton_eq.
    + by rewrite lookup_singleton_eq.
  - unfold hybridQuery. destruct sparse; simpl; repeat constructor;
      simpl; by rewrite lookup_singleton_eq.
Qed.

(** ** Configuration *)

Lemma Replace_removes (s : string) (old new : Ascii.ascii) :
  old ≠ new → config.hasByte old (config.Replace s old new) = false.
Proof.
  intros Hne. unfold config.Replace. induction s as [|c s IH]; [done|].
  cbn [config.mapBytes config.hasByte]. rewrite IH, orb_false_r.
  apply bool_decide_eq_false. case_decide; congruence.
Qed.

(** X26.  The key of an environment variable never contains an underscore.
    The callback of [Load] turns every underscore of the variable's name
    into the delimiter, so among the key paths of the configuration exactly
    those without an underscore are the key of some variable with the
    prefix [APP_]; a path such as [server.api_key] is the key of none. *)
Theorem env_keys_have_no_underscore (s : string) :
  config.isASCII s = true →
  config.hasByte config.underscore (config.envKey s) = false
  ∧ ∀ path : string,
      path ∈ config.tagPaths →
      (∃ name : string, config.isASCII name = true ∧ config.envKey ("APP_" +:+ name) = path)
      ↔ config.hasByte config.underscore path = false.
Proof.
  intros _.
  assert (Hno : ∀ x, config.hasByte config.underscore (config.envKey x) = false).
  { intros x. unfold config.envKey. by apply Replace_removes. }
  split; [apply Hno|]. intros path Hin. split.
  - intros (name & _ & <-). apply Hno.
  - intros Hp. exists path. revert Hp.
    unfold config.tagPaths in Hin. rewrite !elem_of_cons, elem_of_nil in Hin.
    repeat (destruct Hin as [->|Hin]; [vm_compute; intros Hp; first [discriminate Hp | done]|]).
    done.
Qed.

Lemma env_keys_have_no_underscore_witness :
  config.envKey "APP_SERVER_API_KEY" = "server.api.key"
  ∧ config.hasByte config.underscore (config.envKey "APP_SERVER_API_KEY") = false
  ∧ ¬ ∃ name : string,
        config.isASCII name = true ∧ config.envKey ("APP_" +:+ name) = "server.api_key".
Proof.
  destruct (env_keys_have_no_underscore "APP_SERVER_API_KEY" eq_refl) as [H1 H2].
  split; [reflexivity|]. split; [exact H1|].
  intros Hex. apply (H2 "server.api_key") in Hex; [discriminate Hex|].
  unfold config.tagPaths. rewrite !elem_of_cons. do 20 right. by left.
Defined.

(** X27.  The four unprefixed variables.  Of the two tracing variables
    [OTEL_EXPORTER_OTLP_ENDPOINT] wins over [PHOENIX_COLLECTOR_ENDPOINT],
    and tracing is switched on as soon as one of them is set and never
    switched off; [QDRANT_URL] replaces the address of the index;
    [GOOGLE_API_KEY] is taken only while the model has no key, which on the
    defaults [Load] starts from is always; no variable touches the agent,
    the retriever or the server settings, the key of the server included. *)
Theorem special_variables (getenv : string → string) (cfg : config.Config) :
  let out := config.applySpecialEnv getenv cfg in
  let otel := getenv "OTEL_EXPORTER_OTLP_ENDPOINT" in
  let phoenix := getenv "PHOENIX_COLLECTOR_ENDPOINT" in
  config.tr_Endpoint (config.Tracing out)
  = (if decide (otel ≠ EmptyString) then otel
     else if decide (phoenix ≠ EmptyString) then phoenix
     else config.tr_Endpoint (config.Tracing cfg))
  ∧ config.tr_Enabled (config.Tracing out)
    = (if decide (otel ≠ EmptyString ∨ phoenix ≠ EmptyString) then true
       else config.tr_Enabled (config.Tracing cfg))
  ∧ config.tr_ServiceName (config.Tracing out) = config.tr_ServiceName (config.Tracing cfg)
  ∧ config.VectorStore out
    = (if decide (getenv "QDRANT_URL" ≠ EmptyString)
       then config.mkVectorStoreConfig
              (config.vs_Provider (config.VectorStore cfg)) (getenv "QDRANT_URL")
              (config.vs_GRPCPort (config.VectorStore cfg))
              (config.vs_Collection (config.VectorStore cfg))
              (config.vs_VectorSize (config.VectorStore cfg))
              (config.vs_APIKey (config.VectorStore cfg))
       else config.VectorStore cfg)
  ∧ config.model_APIKey (config.Model out)
    = (if decide (config.model_APIKey (config.Model cfg) = EmptyString)
       then getenv "GOOGLE_API_KEY" else config.model_APIKey (config.Model cfg))
  ∧ config.model_APIKey (config.Model (config.applySpecialEnv getenv config.defaults))
    = getenv "GOOGLE_API_KEY"
  ∧ config.Agent out = config.Agent cfg
  ∧ config.Retriever out = config.Retriever cfg
  ∧ config.Server out = config.Server cfg.
Proof.
  intros out otel phoenix.
  assert (Hkey : ∀ c : config.Config,
            config.model_APIKey (config.Model (config.applySpecialEnv getenv c))
            = (if decide (config.model_APIKey (config.Model c) = EmptyString)
               then getenv "GOOGLE_API_KEY" else config.model_APIKey (config.Model c))).
  { intros c. unfold config.applySpecialEnv.
    destruct (decide (getenv "GOOGLE_API_KEY" ≠ EmptyString
                      ∧ config.model_APIKey (config.Model c) = EmptyString)) as [[Hg Hm]|Hn];
      repeat case_decide; simpl; try done; try tauto.
    all: destruct (decide (getenv "GOOGLE_API_KEY" = EmptyString)) as [->|?]; [done | tauto]. }
  split; [|split; [|split; [|split; [|split; [|split]]]]].
  - unfold out, otel, phoenix, config.applySpecialEnv. repeat case_decide; simpl; done.
  - unfold out, otel, phoenix, config.applySpecialEnv.
    repeat case_decide; simpl; try done; tauto.
  - unfold out, config.applySpecialEnv. repeat case_decide; simpl; done.
  - unfold out, config.applySpecialEnv. repeat case_decide; simpl; done.
  - apply Hkey.
  - by rewrite Hkey.
  - unfold out, config.applySpecialEnv. repeat case_decide; simpl; done.
Qed.

(** ** What an upload stores for a chunk *)

(** X28.  The fields of a stored chunk, by precedence.  The payload the
    index receives for chunk [i] of an upload holds [chunk_index] with the
    number [i] whatever the caller's metadata says; [source] with the source
    of the request when that is not empty; under every other key the
    caller's metadata entry when there is one; and the text of the chunk
    under [content] only when the caller's metadata has no such key.  It
    holds nothing else. *)
Theorem stored_chunk_fields (req : UploadTextRequest) (i : Z) (id chunk : string)
    (dense : list float32) (k : string) :
  let doc := {| doc_ID := id; doc_Content := chunk; doc_Metadata := mergeMetadata req i;
                doc_Dense := dense; doc_Sparse := None |} in
  pt_Payload (pointOf id doc) !! k
  = if decide (k = "chunk_index") then Some (StringValue (fmtInt i))
    else if decide (k = "source" ∧ req_Source req ≠ EmptyString)
         then Some (StringValue (req_Source req))
    else match req_Metadata req !! k with
         | Some v => Some (StringValue v)
         | None => if decide (k = "content") then Some (StringValue chunk) else None
         end.
Proof.
  intros doc. cbn [pointOf pt_Payload]. rewrite buildPayload_lookup.
  cbn [doc doc_Metadata doc_Content]. rewrite mergeMetadata_lookup.
  repeat case_decide; done.
Qed.

(** ** Embedding a batch *)

(** X29.  [EmbedDocuments] asks the model once and accepts only a complete
    answer.  It makes one call with all documents, in order, under the
    configured model name or the default one; it succeeds exactly when the
    model returns a list of as many vectors as there are documents, and
    then returns that list; a model that returns nil makes it fail even for
    an empty batch, with the counts 0 and 0 in the message. *)
Theorem embed_documents_all_or_nothing (X : Collab) (cfg : Config) (documents : list string)
    (st : World) :
  let out := EmbedDocuments X cfg documents st in
  let answer := EmbedContent X (calls st) (modelName cfg) documents in
  calls out.2 = calls st ++ [CallEmbedContent (modelName cfg) documents]
  ∧ (modelName cfg
     = if decide (cfg_EmbeddingModel cfg = EmptyString) then "gemini-embedding-001"
       else cfg_EmbeddingModel cfg)
  ∧ (∀ l : list (list float32),
       out.1 = Ok l ↔ answer = Ok (Some l) ∧ length l = length documents)
  ∧ (answer = Ok None → documents = [] →
     out.1 = Err "unexpected number of embeddings: got 0, expected 0").
Proof.
  intros out answer. unfold out, EmbedDocuments. fold answer.
  destruct answer as [[l'|]|e]; cbn [fst snd].
  - case_decide as Hl; cbn [fst snd].
    + split; [done|]. split; [done|]. split; [|done].
      intros l. split; [done|]. intros [[= ->] Hlen]. done.
    + split; [done|]. split; [done|]. split; [|done].
      intros l. split; [by intros [= <-] | by intros [[= ->] _]].
  - split; [done|]. split; [done|]. split.
    + intros l. split; [done | by intros [? _]].
    + intros _ ->. reflexivity.
  - split; [done|]. split; [done|]. split; [|done].
    intros l. split; [done | by intros [? _]].
Qed.
